(** * Scope 3 value-chain dashboard: calculation engine and data-quality scorer

    A shallow embedding of [calculate_emissions] and [calculate_data_quality]
    of [scope3_dashboard.py], with the pieces of the Python runtime the two
    functions rest on, and the properties of the two functions.

    Numbers are Python [float]s, that is IEEE 754 binary64 values: the
    kernel's primitive [float], whose operations [FloatAxioms] specifies by
    [SpecFloat].  The integer literals of the source ([0], [1], [5], [100])
    meet floats, where Python converts them exactly, or each other in
    [0 * 0], which is the zero the float product gives; they are written as
    the floats they convert to.

    The scorer squares its uncertainty inputs with [**].  On an [int]
    that is exact; on a float it is the [pow] of the platform's C
    library, which the source does not fix and which need not return the
    float nearest to the exact square.  The scorer is therefore given
    three times: [calculate_data_quality_num] is the function on the
    numbers Python hands it, [int]s or floats, with the platform's [pow]
    and the dict [METHOD_HIERARCHY] as parameters;
    [calculate_data_quality_int] is the function on three [int]s, as the
    page calls it with the values of its sliders; and
    [calculate_data_quality] is the function on three floats where [pow]
    rounds correctly, so that a square is the float product.  The second
    and the third are the first at these arguments
    ([calculate_data_quality_num_int],
    [calculate_data_quality_num_correctly_rounded]).

    The page that calls the two functions is embedded too: its tables,
    its sidebar form and its Add Entry handler, over the values the
    widgets return.

    The file has two parts: the definitions (the runtime, the two functions,
    the tables of the specification, binary64 values as real numbers, the
    page, the scorer on Python's numbers, the state a call could see),
    then the results. *)

From Stdlib Require Import ZArith Floats String Ascii Bool Lia Reals Lra Psatz.
From Stdlib Require Uint63.
From stdpp Require Import base option gmap strings.

Set Warnings "-inexact-float".
Local Open Scope string_scope.

(** ** The Python runtime *)

Module Py.

(** The exceptions the two functions can meet. *)
Inductive exn : Type :=
| KeyError (key : string)
| ZeroDivisionError
| OverflowError
| ValueError.

(** A call either returns a value or raises. *)
Inductive result (A : Type) : Type :=
| Ok (a : A)
| Raise (e : exn).
Arguments Ok {A} a.
Arguments Raise {A} e.

Definition bind {A B : Type} (r : result A) (k : A -> result B) : result B :=
  match r with
  | Ok a => k a
  | Raise e => Raise e
  end.

Definition raises {A : Type} (r : result A) : bool :=
  match r with
  | Ok _ => false
  | Raise _ => true
  end.

(** [bool(x)] of a float: everything but the two zeros is true (NaN too). *)
Definition truthy (x : float) : bool := negb (x =? 0)%float.

(** [x / y] on floats raises on a zero divisor. *)
Definition truediv (x y : float) : result float :=
  if (y =? 0)%float then Raise ZeroDivisionError else Ok (x / y)%float.

(** [x ** 2] on a float where the platform's [pow] rounds correctly at
    the exponent 2, so that the power is the float product [x * x]:
    [float_pow] returns NaN and infinite bases as IEEE does and raises
    [OverflowError] when a finite base gives an infinite power.  This is
    [float_pow2] below at [correctly_rounded_pow2]
    ([float_pow2_correctly_rounded]); a platform whose [pow] returns a
    neighbour of the nearest float differs from it in the last place. *)
Definition pow2 (x : float) : result float :=
  let r := (x * x)%float in
  if is_finite x && is_infinity r then Raise OverflowError else Ok r.

(** [math.sqrt]: a domain error below zero, IEEE's square root elsewhere
    (NaN, [+inf] and [-0.0] map to themselves). *)
Definition math_sqrt (x : float) : result float :=
  if (x <? 0)%float then Raise ValueError else Ok (PrimFloat.sqrt x).

(** [max(a, b)] and [min(a, b)]: the first argument unless the second is
    strictly greater (smaller), so a NaN stays where it is. *)
Definition max (a b : float) : float := if (a <? b)%float then b else a.
Definition min (a b : float) : float := if (b <? a)%float then b else a.

(** Nearest integer to [num / den] for [0 < den], ties to the even one. *)
Definition round_half_even (num den : Z) : Z :=
  let q := (num / den)%Z in
  match (2 * (num mod den) ?= den)%Z with
  | Lt => q
  | Eq => if Z.even q then q else (q + 1)%Z
  | Gt => (q + 1)%Z
  end.

(** The integer [k] such that [k / 10^ndigits] is the decimal nearest to
    [m * 2^e] with [ndigits] digits after the point (what [_Py_dg_dtoa]
    produces in mode 3). *)
Definition decimal_digits (m : positive) (e : Z) (ndigits : Z) : Z :=
  match e with
  | Zneg p => round_half_even (Zpos m * 10 ^ ndigits) (2 ^ Zpos p)
  | _ => (Zpos m * 2 ^ e * 10 ^ ndigits)%Z
  end.

(** [round(x, ndigits)] for a float and [0 <= ndigits]: NaN, the
    infinities and the zeros round to themselves; a finite [x] is rounded
    to a decimal string, half to even on its exact value, and the string is
    read back as the nearest float ([float.__round__], [double_round]). *)
Definition round (x : float) (ndigits : Z) : float :=
  match Prim2SF x with
  | S754_finite s m e =>
      SF2Prim
        match decimal_digits m e ndigits with
        | Zpos k => SF64div (S754_finite s k 0) (S754_finite false (Z.to_pos (10 ^ ndigits)) 0)
        | _ => S754_zero s
        end
  | _ => x
  end.

(** An [int] as a float (exact below [2^53]). *)
Definition of_int (n : Z) : float := of_uint63 (Uint63.of_Z n).

(** [a / b] on two small ints: the quotient of their float values. *)
Definition int_truediv (a b : Z) : float := (of_int a / of_int b)%float.

(** [needle in hay] on strings: [needle] occurs as a contiguous run. *)
Fixpoint contains (needle hay : string) : bool :=
  String.prefix needle hay
  || match hay with
     | EmptyString => false
     | String _ rest => contains needle rest
     end.

End Py.

Import Py.

Declare Scope py_scope.
Delimit Scope py_scope with py.
Notation "'let*' x ':=' e 'in' k" := (Py.bind e (fun x => k))
  (at level 10, x name, e at level 100, k at level 200) : py_scope.
Local Open Scope py_scope.

(** ** The data model *)

(** The [inputs] dict as the callers build it and the type hints declare
    it: numeric fields, by name, and the one string entry, under the key
    ["method"], when the caller supplies it. *)
Record Inputs : Type := mkInputs {
  fields : gmap string float;
  method : option string;
}.

(** [inputs[key]] on a numeric field. *)
Definition getitem (inputs : Inputs) (key : string) : result float :=
  match fields inputs !! key with
  | Some v => Ok v
  | None => Raise (KeyError key)
  end.

(** [inputs.get(key, default)] on a numeric field. *)
Definition get (inputs : Inputs) (key : string) (default : float) : float :=
  match fields inputs !! key with
  | Some v => v
  | None => default
  end.

(** [inputs.get("method", default)]. *)
Definition get_method (inputs : Inputs) (default : string) : string :=
  match method inputs with
  | Some s => s
  | None => default
  end.

Definition METHOD_HIERARCHY : gmap string Z :=
  <["Supplier-Specific" := 5%Z]>
  (<["Activity-Based" := 4%Z]>
  (<["Average-Data" := 3%Z]>
  (<["Spend-Based" := 2%Z]>
  (<["Proxy Estimate" := 1%Z]> ∅)))).

(** ** The calculation engine *)

Definition calculate_emissions (category_name : string) (inputs : Inputs)
  : result (float * string) :=
  if String.eqb category_name "Business Travel" then
    let* distance := getitem inputs "distance_km" in
    let* travel_factor := getitem inputs "travel_factor" in
    let* hotel_nights := getitem inputs "hotel_nights" in
    let* hotel_factor := getitem inputs "hotel_factor" in
    let emissions := ((distance * travel_factor) + (hotel_nights * hotel_factor))%float in
    Ok (emissions, "Activity-Based")
  else if contains "Transportation" category_name then
    let* distance := getitem inputs "distance_km" in
    let* weight := getitem inputs "weight_tonnes" in
    let* factor := getitem inputs "transport_factor" in
    let emissions := (distance * weight * factor)%float in
    Ok (emissions, "Activity-Based")
  else if String.eqb category_name "Investments" then
    let* company_emissions := getitem inputs "investee_emissions" in
    let* outstanding_amount := getitem inputs "outstanding_amount" in
    let* evic := getitem inputs "evic" in
    let* attribution_factor :=
      (if truthy evic then truediv outstanding_amount evic else Ok 0%float) in
    let emissions := (company_emissions * attribution_factor)%float in
    Ok (emissions, "PCAF Financed Emissions")
  else if String.eqb category_name "Use of Sold Products" then
    let* lifetime_years := getitem inputs "lifetime_years" in
    let* annual_usage := getitem inputs "annual_usage_kwh" in
    let* grid_factor := getitem inputs "grid_factor" in
    let emissions := (lifetime_years * annual_usage * grid_factor)%float in
    Ok (emissions, "Activity-Based")
  else
    let emissions := (get inputs "quantity" 0 * get inputs "generic_factor" 0)%float in
    Ok (emissions, get_method inputs "Average-Data").

(** ** The data-quality scorer *)

(** The scorer on three floats, with [pow2] for the squares: the
    function where the platform's [pow] rounds correctly at the exponent
    2.  [calculate_data_quality_num] below leaves the platform's [pow]
    open and takes [int]s too. *)
Definition calculate_data_quality
  (method : string) (activity_uncertainty_pct factor_uncertainty_pct coverage_pct : float)
  : result (float * float) :=
  let hierarchy_score := int_truediv (default 1%Z (METHOD_HIERARCHY !! method)) 5 in
  let* a2 := pow2 activity_uncertainty_pct in
  let* f2 := pow2 factor_uncertainty_pct in
  let* combined_uncertainty := math_sqrt (a2 + f2)%float in
  let* r := truediv combined_uncertainty 100 in
  let uncertainty_score := Py.max 0 (1 - r)%float in
  let* c := truediv coverage_pct 100 in
  let coverage_score := Py.min (Py.max c 0) 1 in
  let total_score :=
    (((0.4 * hierarchy_score) + (0.3 * uncertainty_score) + (0.3 * coverage_score)) * 100)%float in
  Ok (round total_score 1, round combined_uncertainty 2).

(** ** The formula families of the specification *)

(** The five formula families of the dispatch table. *)
Inductive family : Type :=
| BusinessTravel
| Transportation
| Investments
| UseOfSoldProducts
| Generic.

(** The table's precedence: exact "Business Travel", then a label that
    contains "Transportation", then exact "Investments", then exact
    "Use of Sold Products", then the default. *)
Definition family_of (category_name : string) : family :=
  if String.eqb category_name "Business Travel" then BusinessTravel
  else if contains "Transportation" category_name then Transportation
  else if String.eqb category_name "Investments" then Investments
  else if String.eqb category_name "Use of Sold Products" then UseOfSoldProducts
  else Generic.

(** The same table with the three label equalities tried before the
    substring match. *)
Definition family_equality_first (category_name : string) : family :=
  if String.eqb category_name "Business Travel" then BusinessTravel
  else if String.eqb category_name "Investments" then Investments
  else if String.eqb category_name "Use of Sold Products" then UseOfSoldProducts
  else if contains "Transportation" category_name then Transportation
  else Generic.

(** The numeric fields a family's formula reads, in the order it reads them. *)
Definition required_fields (f : family) : list string :=
  match f with
  | BusinessTravel => ["distance_km"; "travel_factor"; "hotel_nights"; "hotel_factor"]
  | Transportation => ["distance_km"; "weight_tonnes"; "transport_factor"]
  | Investments => ["investee_emissions"; "outstanding_amount"; "evic"]
  | UseOfSoldProducts => ["lifetime_years"; "annual_usage_kwh"; "grid_factor"]
  | Generic => []
  end.

(** The first of [keys] the record lacks. *)
Definition first_missing (inputs : Inputs) (keys : list string) : option string :=
  List.find (fun k => bool_decide (fields inputs !! k = None)) keys.

(** The table's formula and method label, family by family. *)
Definition formula (f : family) (inputs : Inputs) : result (float * string) :=
  match f with
  | BusinessTravel =>
      let* distance_km := getitem inputs "distance_km" in
      let* travel_factor := getitem inputs "travel_factor" in
      let* hotel_nights := getitem inputs "hotel_nights" in
      let* hotel_factor := getitem inputs "hotel_factor" in
      Ok ((distance_km * travel_factor + hotel_nights * hotel_factor)%float, "Activity-Based")
  | Transportation =>
      let* distance_km := getitem inputs "distance_km" in
      let* weight_tonnes := getitem inputs "weight_tonnes" in
      let* transport_factor := getitem inputs "transport_factor" in
      Ok ((distance_km * weight_tonnes * transport_factor)%float, "Activity-Based")
  | Investments =>
      let* investee_emissions := getitem inputs "investee_emissions" in
      let* outstanding_amount := getitem inputs "outstanding_amount" in
      let* evic := getitem inputs "evic" in
      let ratio := if (evic =? 0)%float then 0%float else (outstanding_amount / evic)%float in
      Ok ((investee_emissions * ratio)%float, "PCAF Financed Emissions")
  | UseOfSoldProducts =>
      let* lifetime_years := getitem inputs "lifetime_years" in
      let* annual_usage_kwh := getitem inputs "annual_usage_kwh" in
      let* grid_factor := getitem inputs "grid_factor" in
      Ok ((lifetime_years * annual_usage_kwh * grid_factor)%float, "Activity-Based")
  | Generic =>
      Ok ((default 0%float (fields inputs !! "quantity")
           * default 0%float (fields inputs !! "generic_factor"))%float,
          default "Average-Data" (method inputs))
  end.

(** The five method-hierarchy labels and the PCAF label. *)
Definition hierarchy_labels : list string :=
  ["Supplier-Specific"; "Activity-Based"; "Average-Data"; "Spend-Based"; "Proxy Estimate"].

Definition result_labels : list string := hierarchy_labels ++ ["PCAF Financed Emissions"].

(** The specification's rank table: unknown labels rank 1. *)
Definition rank (method : string) : Z :=
  if String.eqb method "Supplier-Specific" then 5
  else if String.eqb method "Activity-Based" then 4
  else if String.eqb method "Average-Data" then 3
  else if String.eqb method "Spend-Based" then 2
  else if String.eqb method "Proxy Estimate" then 1
  else 1.

(** [clamp(x, lo, hi)]. *)
Definition clamp (x lo hi : float) : float :=
  if (x <? lo)%float then lo else if (hi <? x)%float then hi else x.

(** The score and the combined uncertainty as the specification writes
    them, on floats, with no failure case. *)
Definition combined_uncertainty_spec (a f : float) : float :=
  PrimFloat.sqrt (a * a + f * f)%float.

Definition quality_score_spec (method : string) (a f c : float) : float :=
  round
    (100 * (0.4 * (of_int (rank method) / 5)
            + 0.3 * Py.max 0 (1 - combined_uncertainty_spec a f / 100)
            + 0.3 * clamp (c / 100) 0 1))%float
    1.

Definition score_spec (method : string) (a f c : float) : float * float :=
  (quality_score_spec method a f c, round (combined_uncertainty_spec a f) 2).

(** ** Records of the examples *)

(** The record of the specification's Business Travel example. *)
Definition business_travel_record : Inputs :=
  mkInputs
    (<["distance_km" := 1000%float]>
     (<["travel_factor" := 0.158%float]>
     (<["hotel_nights" := 2%float]>
     (<["hotel_factor" := 14.5%float]> ∅))))
    None.

(** The record of the specification's Investments example. *)
Definition investments_record : Inputs :=
  mkInputs
    (<["investee_emissions" := 1000%float]>
     (<["outstanding_amount" := 50%float]>
     (<["evic" := 0%float]> ∅)))
    None.

(** A Transportation record with non-negative fields whose product
    overflows before it meets the zero factor. *)
Definition transport_overflow_record : Inputs :=
  mkInputs
    (<["distance_km" := 1e200%float]>
     (<["weight_tonnes" := 1e200%float]>
     (<["transport_factor" := 0%float]> ∅)))
    None.

(** ** Binary64 values as real numbers *)

Module Binary64.

(** Zero of either sign, positive, [+inf] or NaN: not below zero. *)
Definition SFnonneg (x : spec_float) : bool :=
  match x with
  | S754_infinity true | S754_finite true _ _ => false
  | _ => true
  end.

Definition nonneg_or_nan (x : float) : bool := SFnonneg (Prim2SF x).

Local Open Scope R_scope.

(** Powers of two. *)
Definition bpow (e : Z) : R := powerRZ 2 e.

(** [m * 2^e]. *)
Definition F2R (m e : Z) : R := IZR m * bpow e.

(** [v] lies in [[m * 2^e, (m + 1) * 2^e)] at the place [l] says: on the
    lower end, below, at or above the midpoint. *)
Definition located (v : R) (m e : Z) (l : location) : Prop :=
  match l with
  | loc_Exact => v = F2R m e
  | loc_Inexact Lt => F2R m e < v < (IZR m + / 2) * bpow e
  | loc_Inexact Eq => v = (IZR m + / 2) * bpow e
  | loc_Inexact Gt => (IZR m + / 2) * bpow e < v < F2R (m + 1) e
  end.

(** The value of a float, the infinities standing at [2^emax]. *)
Definition B2R (x : spec_float) : R :=
  match x with
  | S754_finite s m e => F2R (cond_Zopp s (Z.pos m)) e
  | S754_infinity s => if s then - bpow emax else bpow emax
  | _ => 0
  end.

(** [(m, e, l)] places [v] at the exponent binary64 gives to numbers of
    the magnitude of [v]. *)
Definition canon (v : R) (m e : Z) (l : location) : Prop :=
  (0 <= m)%Z /\ located v m e l
  /\ exists d, e = fexp prec emax d /\ v < bpow d
               /\ (bpow (d - 1) <= v \/ (d <= -1074)%Z).

(** What [binary_round_aux] does once the mantissa is rounded. *)
Definition finish (s : bool) (n e : Z) : spec_float :=
  let '(mrs, e') := shr_fexp prec emax n e loc_Exact in
  match shr_m mrs with
  | Z0 => S754_zero s
  | Z.pos m => if (e' <=? emax - prec)%Z then S754_finite s m e' else S754_infinity s
  | Z.neg _ => S754_nan
  end.

Definition signR (s : bool) : R := if s then -1 else 1.

(** A zero, an infinity or a finite float of sign [s]. *)
Definition has_sign (s : bool) (x : spec_float) : Prop :=
  match x with
  | S754_zero s' | S754_infinity s' | S754_finite s' _ _ => s' = s
  | S754_nan => False
  end.

(** [r] is [v] rounded to nearest, ties to even, and capped at [2^emax]. *)
Definition rounds (v r : R) : Prop :=
  exists m e l,
    canon v m e l /\ r = Rmin (F2R (round_nearest_even m l) e) (bpow emax).

(** What a comparison says of two reals. *)
Definition cmp_spec (c : option comparison) (a b : R) : Prop :=
  match c with
  | Some Lt => a < b
  | Some Eq => a = b
  | Some Gt => b < a
  | None => True
  end.

(** The value of a primitive float. *)
Definition FR (x : float) : R := B2R (Prim2SF x).

(** A float of sign [s] whose magnitude is [v] rounded. *)
Definition rounded_to (s : bool) (v : R) (x : spec_float) : Prop :=
  valid_binary x = true /\ has_sign s x
  /\ exists r, rounds v r /\ B2R x = signR s * r.

(** Zero of either sign or a positive finite float. *)
Definition finite_nonneg (x : float) : Prop :=
  match Prim2SF x with
  | S754_zero _ | S754_finite false _ _ => True
  | _ => False
  end.

(** A positive finite float. *)
Definition finite_pos (x : float) : Prop :=
  match Prim2SF x with
  | S754_finite false _ _ => True
  | _ => False
  end.

(** [r] is non-negative, possibly infinite, and its value is [v] rounded. *)
Definition result_rounds (v : R) (r : float) : Prop :=
  (0 <=? r)%float = true /\ rounds v (FR r).

(** The decimal digits [round] reads back for [x]. *)
Definition decimal_of (x : float) (ndigits : Z) : Z :=
  match Prim2SF x with
  | S754_finite _ m e => decimal_digits m e ndigits
  | _ => 0%Z
  end.

End Binary64.

Import Binary64.

(** ** Sub-scores of the quality score *)

(** [x1 <= x2] between zero and the finite bound [k]. *)
Definition within (x1 x2 k : float) : Prop :=
  (0 <=? x1)%float = true /\ (x1 <=? x2)%float = true
  /\ (x2 <=? k)%float = true /\ is_finite k = true.

(** The weighted total before rounding. *)
Definition total (h u cs : float) : float :=
  (100 * (0.4 * h + 0.3 * u + 0.3 * cs))%float.

(** The uncertainty sub-score of a combined uncertainty [cu]. *)
Definition uncertainty_score (cu : float) : float := Py.max 0 (1 - cu / 100)%float.

(** The coverage sub-score. *)
Definition coverage_score (c : float) : float := clamp (c / 100) 0 1.

(** ** What the engine reads *)

(** The keys a family's branch looks up in the record: the required fields
    of the four specific families, and the two optional numeric fields of
    the default branch (which also reads ["method"]). *)
Definition fields_read (f : family) : list string :=
  match f with
  | Generic => ["quantity"; "generic_factor"]
  | _ => required_fields f
  end.

(** A numeric field as the engine's arithmetic sees it once the lookups
    have succeeded (the default branch reads an absent field as 0). *)
Definition field_value (inputs : Inputs) (key : string) : float :=
  default 0%float (fields inputs !! key).

(** Between two records the field [key] is non-negative, finite and does
    not decrease. *)
Definition field_grows (inputs1 inputs2 : Inputs) (key : string) : Prop :=
  (0 <=? field_value inputs1 key)%float = true
  /\ (field_value inputs1 key <=? field_value inputs2 key)%float = true
  /\ is_finite (field_value inputs2 key) = true.

(** A Business Travel record with a stray field and a method label. *)
Definition business_travel_record_extended : Inputs :=
  mkInputs (<["weight_tonnes" := 3%float]> (fields business_travel_record))
    (Some "Spend-Based").

(** A Business Travel record with a longer trip than the example's. *)
Definition business_travel_record_longer : Inputs :=
  mkInputs (<["distance_km" := 2500%float]> (fields business_travel_record)) None.

(** An Investments record: a tenth of the investee is financed. *)
Definition investments_tenth_record : Inputs :=
  mkInputs
    (<["investee_emissions" := 1000%float]>
     (<["outstanding_amount" := 50%float]>
     (<["evic" := 500%float]> ∅)))
    None.

(** An Investments record with more emissions and a smaller enterprise
    value: a fifth of the investee is financed. *)
Definition investments_fifth_record : Inputs :=
  mkInputs
    (<["investee_emissions" := 2000%float]>
     (<["outstanding_amount" := 50%float]>
     (<["evic" := 250%float]> ∅)))
    None.

(** ** The scorer on [int] arguments *)

(** [float(n)] for an [int]: the nearest float, ties to even, and
    [OverflowError] when that is beyond the largest float
    ([PyLong_AsDouble]). *)
Definition float_of_int (n : Z) : result float :=
  match binary_normalize prec emax n 0 false with
  | S754_infinity _ => Raise OverflowError
  | x => Ok (SF2Prim x)
  end.

(** An [int] as an unrounded binary number. *)
Definition SF_of_int (n : Z) : spec_float :=
  match n with
  | Z0 => S754_zero false
  | Zpos p => S754_finite false p 0
  | Zneg p => S754_finite true p 0
  end.

(** [a / b] on two [int]s: the float nearest to the exact quotient
    ([long_true_divide]), [ZeroDivisionError] on a zero divisor and
    [OverflowError] when the quotient is beyond the largest float. *)
Definition int_div (a b : Z) : result float :=
  if (b =? 0)%Z then Raise ZeroDivisionError
  else
    match SF64div (SF_of_int a) (SF_of_int b) with
    | S754_infinity _ => Raise OverflowError
    | q => Ok (SF2Prim q)
    end.

(** [calculate_data_quality] when the three numbers are [int]s, as the
    page passes them from its sliders: the squares and their sum are exact
    integers, [math.sqrt] converts the sum to a float, and
    [coverage_pct / 100] is a quotient of two [int]s.  The [int]s [0] and
    [1] that [max] and [min] may return multiply as the floats they
    convert to. *)
Definition calculate_data_quality_int
  (method : string) (activity_uncertainty_pct factor_uncertainty_pct coverage_pct : Z)
  : result (float * float) :=
  let hierarchy_score := int_truediv (default 1%Z (METHOD_HIERARCHY !! method)) 5 in
  let* s := float_of_int (activity_uncertainty_pct ^ 2 + factor_uncertainty_pct ^ 2) in
  let* combined_uncertainty := math_sqrt s in
  let* r := truediv combined_uncertainty 100 in
  let uncertainty_score := Py.max 0 (1 - r)%float in
  let* c := int_div coverage_pct 100 in
  let coverage_score := Py.min (Py.max c 0) 1 in
  let total_score :=
    (((0.4 * hierarchy_score) + (0.3 * uncertainty_score) + (0.3 * coverage_score)) * 100)%float in
  Ok (round total_score 1, round combined_uncertainty 2).

(** The values a slider of the page can hold. *)
Definition slider_values : list Z := seqZ 0 101.

(** On the [int]s [a] and [f] the sum of squares is the one the float
    arithmetic gives on their conversions, and no square overflows. *)
Definition squares_agree (a f : Z) : bool :=
  match float_of_int (a ^ 2 + f ^ 2), pow2 (of_int a), pow2 (of_int f) with
  | Ok s, Ok a2, Ok f2 => PrimFloat.Leibniz.eqb s (a2 + f2)
  | _, _, _ => false
  end.

(** On the [int] [c] the quotient by 100 is the float quotient of the
    conversions. *)
Definition quotient_agrees (c : Z) : bool :=
  match int_div c 100 with
  | Ok q => PrimFloat.Leibniz.eqb q (of_int c / 100)
  | Raise _ => false
  end.

(** The conversion of the [int] [n] lies between 0 and 100. *)
Definition slider_in_range (n : Z) : bool :=
  ((0 <=? of_int n) && (of_int n <=? 100))%float.

(** ** The page: tables, sidebar form and the Add Entry handler

    The script of the page runs top to bottom on every interaction.  The
    model keeps what a run computes and stores: the values it reads from
    the widgets, the [inputs] record it builds, the warnings it shows, the
    exceptions it can raise, and the row the Add Entry handler appends to
    the session's table.  Calls that only lay out or show text (titles,
    captions, [write], [success]) are left out, and so is the dashboard
    section below the handler, which displays the table through pandas
    and plotly. *)

(** [CATEGORIES], in the order the dict literal lists its entries. *)
Definition CATEGORIES : list (Z * string) :=
  [ (1%Z, "Purchased Goods and Services");
    (2%Z, "Capital Goods");
    (3%Z, "Fuel & Energy Related Activities");
    (4%Z, "Upstream Transportation & Distribution");
    (5%Z, "Waste Generated in Operations");
    (6%Z, "Business Travel");
    (7%Z, "Employee Commuting");
    (8%Z, "Upstream Leased Assets");
    (9%Z, "Downstream Transportation & Distribution");
    (10%Z, "Processing of Sold Products");
    (11%Z, "Use of Sold Products");
    (12%Z, "End-of-Life Treatment of Sold Products");
    (13%Z, "Downstream Leased Assets");
    (14%Z, "Franchises");
    (15%Z, "Investments") ].

(** [EMISSION_FACTORS]: a dict of dicts, each in the order of its literal
    (the page iterates over the inner keys). *)
Definition EMISSION_FACTORS : list (string * list (string * float)) :=
  [ ("EPA",
     [ ("Business Travel - Air Economy (kgCO2e/pkm)", 0.158%float);
       ("Business Travel - Air Business (kgCO2e/pkm)", 0.244%float);
       ("Business Travel - Hotel (kgCO2e/night)", 14.5%float);
       ("Transport - Road Freight (kgCO2e/tonne-km)", 0.122%float);
       ("Use Phase - US Grid Electricity (kgCO2e/kWh)", 0.387%float) ]);
    ("DEFRA",
     [ ("Business Travel - Air Economy (kgCO2e/pkm)", 0.146%float);
       ("Business Travel - Air Business (kgCO2e/pkm)", 0.231%float);
       ("Business Travel - Hotel (kgCO2e/night)", 13.8%float);
       ("Transport - HGV Freight (kgCO2e/tonne-km)", 0.096%float);
       ("Use Phase - UK Grid Electricity (kgCO2e/kWh)", 0.193%float) ]) ].

Definition FACTOR_SOURCES : list (string * string) :=
  [ ("EPA", "United States Environmental Protection Agency (EPA) - Emissions Factors Hub");
    ("DEFRA",
     "UK Department for Environment, Food & Rural Affairs (DEFRA) - GHG Conversion Factors") ].

Module Page.

(** What a run of the page's script can raise: the exceptions of the
    runtime module above, and [IndexError] from indexing a list. *)
Inductive exn : Type :=
| Engine (e : Py.exn)
| IndexError.

Inductive run (A : Type) : Type :=
| Done (a : A)
| Fail (e : exn).
Arguments Done {A} a.
Arguments Fail {A} e.

Definition bind {A B : Type} (r : run A) (k : A -> run B) : run B :=
  match r with
  | Done a => k a
  | Fail e => Fail e
  end.

(** A call of the engine or of the runtime inside the script. *)
Definition lift {A : Type} (r : result A) : run A :=
  match r with
  | Ok a => Done a
  | Raise e => Fail (Engine e)
  end.

(** A dict with string keys as the list of its items: [d.get(key)]. *)
Fixpoint dict_lookup {A : Type} (d : list (string * A)) (key : string) : option A :=
  match d with
  | [] => None
  | (k, v) :: rest => if String.eqb k key then Some v else dict_lookup rest key
  end.

(** [d[key]]. *)
Definition dict_getitem {A : Type} (d : list (string * A)) (key : string) : run A :=
  match dict_lookup d key with
  | Some v => Done v
  | None => Fail (Engine (KeyError key))
  end.

(** [d.get(key, default)]. *)
Definition dict_get {A : Type} (d : list (string * A)) (key : string) (default : A) : A :=
  match dict_lookup d key with
  | Some v => v
  | None => default
  end.

(** [next((key for key in d if needle in key), None)]. *)
Definition first_key_containing {A : Type} (needle : string) (d : list (string * A))
  : option string :=
  List.find (contains needle) (map fst d).

(** [s.split(sep)] for a non-empty [sep]: the pieces between the
    occurrences of [sep], taken left to right without overlap.  [skip]
    counts the characters of an occurrence still to pass. *)
Fixpoint split_from (sep : string) (skip : nat) (piece s : string) : list string :=
  match s with
  | EmptyString => [piece]
  | String c rest =>
      match skip with
      | S k => split_from sep k piece rest
      | O =>
          if String.prefix sep s
          then piece :: split_from sep (String.length sep - 1) EmptyString rest
          else split_from sep 0 (piece ++ String c EmptyString) rest
      end
  end.

Definition split (s sep : string) : list string := split_from sep 0 EmptyString s.

(** [l[i]]. *)
Definition list_getitem {A : Type} (l : list A) (i : nat) : run A :=
  match nth_error l i with
  | Some x => Done x
  | None => Fail IndexError
  end.

(** [inputs[key] = v] on a numeric value and [inputs["method"] = s]. *)
Definition setitem (inputs : Inputs) (key : string) (v : float) : Inputs :=
  mkInputs (<[key := v]> (fields inputs)) (method inputs).

Definition set_method (inputs : Inputs) (s : string) : Inputs :=
  mkInputs (fields inputs) (Some s).

(** The values the widgets of one run return.  Streamlit tells widgets
    apart by their label, so the values are given by label. *)
Record Widgets : Type := mkWidgets {
  selectbox : string -> string;
  number_input : string -> float;
  slider : string -> Z;
  button : string -> bool;
}.

(** What the widgets promise for the arguments the page passes: a
    [selectbox] returns one of its options, a [number_input] with
    [min_value=0.0] a float that is not below it, a [slider] with bounds
    0 and 100 an [int] between them. *)
Record contract (w : Widgets) : Prop := mkContract {
  category_option : In (selectbox w "Select Category") (map snd CATEGORIES);
  dataset_option : In (selectbox w "Emission Factor Source") (map fst EMISSION_FACTORS);
  travel_class_option : In (selectbox w "Travel class") ["Air Economy"; "Air Business"];
  method_option : is_Some (METHOD_HIERARCHY !! selectbox w "Calculation Method");
  quality_method_option : is_Some (METHOD_HIERARCHY !! selectbox w "Method hierarchy");
  number_min : forall label, (0 <=? number_input w label)%float = true;
  slider_bounds : forall label, (0 <= slider w label <= 100)%Z;
}.

(** [st.sidebar.warning(text)]: one more warning on the sidebar. *)
Definition warning (shown : list string) (text : string) : list string :=
  (shown ++ [text])%list.

(** What the sidebar section leaves behind: the script's variables and
    the warnings it has shown. *)
Record Sidebar : Type := mkSidebar {
  category : string;
  factor_dataset : string;
  inputs : Inputs;
  warnings : list string;
  quality_method : string;
  activity_uncertainty : Z;
  factor_uncertainty : Z;
  coverage_pct : Z;
  add_button : bool;
}.

(** The [if]/[elif] chain that fills [inputs], with the warnings it shows.
    Captions and [write] calls show text and are left out, except that
    what they evaluate can raise. *)
Definition data_entry (w : Widgets) (category factor_dataset : string)
  : run (Inputs * list string) :=
  let inputs := mkInputs ∅ None in
  let warnings : list string := [] in
  if String.eqb category "Business Travel" then
    let inputs := setitem inputs "distance_km" (number_input w "Travel distance (km)") in
    let travel_class := selectbox w "Travel class" in
    let travel_key := "Business Travel - " ++ travel_class ++ " (kgCO2e/pkm)" in
    bind (dict_getitem EMISSION_FACTORS factor_dataset) (fun factors =>
    let inputs := setitem inputs "travel_factor" (dict_get factors travel_key 0%float) in
    bind (lift (getitem inputs "travel_factor")) (fun travel_factor =>
    let warnings :=
      if (travel_factor =? 0)%float
      then warning warnings ("Travel EF '" ++ travel_key ++ "' not found for source "
                             ++ factor_dataset ++ "; using 0.0")
      else warnings in
    bind (lift (getitem inputs "travel_factor")) (fun _ =>
    let inputs := setitem inputs "hotel_nights" (number_input w "Hotel nights") in
    let hotel_key := "Business Travel - Hotel (kgCO2e/night)" in
    bind (dict_getitem EMISSION_FACTORS factor_dataset) (fun factors =>
    let inputs := setitem inputs "hotel_factor" (dict_get factors hotel_key 0%float) in
    bind (lift (getitem inputs "hotel_factor")) (fun hotel_factor =>
    let warnings :=
      if (hotel_factor =? 0)%float
      then warning warnings ("Hotel EF '" ++ hotel_key ++ "' not found for source "
                             ++ factor_dataset ++ "; using 0.0")
      else warnings in
    bind (lift (getitem inputs "hotel_factor")) (fun _ =>
    Done (inputs, warnings)))))))
  else if contains "Transportation" category then
    let inputs := setitem inputs "distance_km" (number_input w "Distance (km)") in
    let inputs := setitem inputs "weight_tonnes" (number_input w "Weight transported (tonnes)") in
    bind (dict_getitem EMISSION_FACTORS factor_dataset) (fun factors =>
    match first_key_containing "Transport -" factors with
    | None =>
        let inputs := setitem inputs "transport_factor" 0%float in
        let warnings :=
          warning warnings ("No transport emission factor found for source "
                            ++ factor_dataset ++ "; using 0.0") in
        bind (lift (getitem inputs "transport_factor")) (fun _ =>
        Done (inputs, warnings))
    | Some transport_key =>
        bind (dict_getitem EMISSION_FACTORS factor_dataset) (fun factors =>
        let inputs := setitem inputs "transport_factor" (dict_get factors transport_key 0%float) in
        bind (list_getitem (split transport_key " - ") 1) (fun _ =>
        bind (lift (getitem inputs "transport_factor")) (fun _ =>
        Done (inputs, warnings))))
    end)
  else if String.eqb category "Investments" then
    let inputs := setitem inputs "investee_emissions" (number_input w "Investee emissions (kgCO2e)") in
    let inputs := setitem inputs "outstanding_amount" (number_input w "Outstanding amount invested (£)") in
    let inputs := setitem inputs "evic" (number_input w "Enterprise value including cash (EVIC) (£)") in
    Done (inputs, warnings)
  else if String.eqb category "Use of Sold Products" then
    let inputs := setitem inputs "lifetime_years" (number_input w "Product lifetime (years)") in
    let inputs := setitem inputs "annual_usage_kwh" (number_input w "Annual usage (kWh/year)") in
    bind (dict_getitem EMISSION_FACTORS factor_dataset) (fun factors =>
    bind
      match first_key_containing "Grid Electricity" factors with
      | None =>
          let inputs := setitem inputs "grid_factor" 0%float in
          let warnings :=
            warning warnings ("No grid electricity factor found for source "
                              ++ factor_dataset ++ "; using 0.0") in
          Done (inputs, warnings)
      | Some grid_key =>
          bind (dict_getitem EMISSION_FACTORS factor_dataset) (fun factors =>
          let inputs := setitem inputs "grid_factor" (dict_get factors grid_key 0%float) in
          Done (inputs, warnings))
      end
      (fun '(inputs, warnings) =>
    bind (lift (getitem inputs "grid_factor")) (fun _ =>
    Done (inputs, warnings))))
  else
    let inputs := set_method inputs (selectbox w "Calculation Method") in
    let inputs := setitem inputs "quantity" (number_input w "Activity quantity") in
    let inputs := setitem inputs "generic_factor" (number_input w "Emission factor (kgCO2e/unit)") in
    Done (inputs, warnings).

(** The sidebar section, top to bottom. *)
Definition sidebar (w : Widgets) : run Sidebar :=
  let category := selectbox w "Select Category" in
  let factor_dataset := selectbox w "Emission Factor Source" in
  bind (dict_getitem FACTOR_SOURCES factor_dataset) (fun _ =>
  bind (data_entry w category factor_dataset) (fun '(inputs, warnings) =>
  let quality_method := selectbox w "Method hierarchy" in
  let activity_uncertainty := slider w "Activity data uncertainty (%)" in
  let factor_uncertainty := slider w "Emission factor uncertainty (%)" in
  let coverage_pct := slider w "Data coverage (%)" in
  let add_button := button w "Add Entry" in
  Done (mkSidebar category factor_dataset inputs warnings quality_method
          activity_uncertainty factor_uncertainty coverage_pct add_button))).

(** A row of the session's table.  [Date] is the clock's reading;
    [Details] holds the record whose [str()] the page stores. *)
Record Row : Type := mkRow {
  Date : Z;
  Category : string;
  Source : string;
  Method : string;
  Emissions : float;
  Coverage : Z;
  Combined_Uncertainty : float;
  Data_Quality_Score : float;
  Details : Inputs;
}.

(** The [if add_button:] block on the session's rows. *)
Definition add_entry (sb : Sidebar) (now : Z) (data : list Row) : run (list Row) :=
  if add_button sb then
    bind (lift (calculate_emissions (category sb) (inputs sb)))
      (fun '(emissions, calc_method) =>
    bind (lift (calculate_data_quality_int (quality_method sb) (activity_uncertainty sb)
                  (factor_uncertainty sb) (coverage_pct sb)))
      (fun '(data_quality_score, combined_uncertainty) =>
    let new_row :=
      mkRow now (category sb) (factor_dataset sb) calc_method (round emissions 2)
        (coverage_pct sb) combined_uncertainty data_quality_score (inputs sb) in
    Done (data ++ [new_row])%list))
  else Done data.

(** One run of the script down to the handler: the sidebar, the table of
    the session (empty when the session has none yet), the handler.  [now]
    is what [datetime.now()] returns in this run. *)
Definition script (w : Widgets) (now : Z) (session : option (list Row)) : run (list Row) :=
  bind (sidebar w) (fun sb =>
  let data := default [] session in
  add_entry sb now data).

End Page.

(** The fields of a record that hold an emission factor. *)
Definition factor_fields : list string :=
  ["travel_factor"; "hotel_factor"; "transport_factor"; "grid_factor"].

(** The branch of the engine each numbered category of the page falls
    in, as the category list is written: 6 is Business Travel, 4 and 9 are
    the two Transportation categories, 15 is Investments, 11 is Use of
    Sold Products. *)
Definition numbered_family (n : Z) : family :=
  if (n =? 6)%Z then BusinessTravel
  else if ((n =? 4) || (n =? 9))%Z then Transportation
  else if (n =? 15)%Z then Investments
  else if (n =? 11)%Z then UseOfSoldProducts
  else Generic.

(** The method label a family's branch returns, [chosen] standing for the
    label the record carries in the default branch. *)
Definition family_method (f : family) (chosen : string) : string :=
  match f with
  | Investments => "PCAF Financed Emissions"
  | Generic => chosen
  | _ => "Activity-Based"
  end.

(** ** Sessions of the examples *)

(** Widgets of a session: Business Travel on the EPA factors. *)
Definition business_travel_widgets : Page.Widgets :=
  Page.mkWidgets
    (fun label =>
       if String.eqb label "Select Category" then "Business Travel"
       else if String.eqb label "Emission Factor Source" then "EPA"
       else if String.eqb label "Travel class" then "Air Economy"
       else "Activity-Based")
    (fun label =>
       if String.eqb label "Travel distance (km)" then 1000%float
       else if String.eqb label "Hotel nights" then 2%float
       else 0%float)
    (fun label =>
       if String.eqb label "Activity data uncertainty (%)" then 20%Z
       else if String.eqb label "Emission factor uncertainty (%)" then 15%Z
       else 85%Z)
    (fun _ => true).

(** Widgets of another session with the same data-quality entries:
    Investments on the DEFRA factors. *)
Definition investments_widgets : Page.Widgets :=
  Page.mkWidgets
    (fun label =>
       if String.eqb label "Select Category" then "Investments"
       else if String.eqb label "Emission Factor Source" then "DEFRA"
       else if String.eqb label "Travel class" then "Air Business"
       else "Activity-Based")
    (fun label =>
       if String.eqb label "Investee emissions (kgCO2e)" then 1000%float
       else if String.eqb label "Outstanding amount invested (£)" then 50%float
       else 500%float)
    (fun label =>
       if String.eqb label "Activity data uncertainty (%)" then 20%Z
       else if String.eqb label "Emission factor uncertainty (%)" then 15%Z
       else 85%Z)
    (fun _ => true).

(** Widgets of a session whose entries are left at their minimum:
    Investments with every amount at 0.0. *)
Definition untouched_widgets : Page.Widgets :=
  Page.mkWidgets
    (fun label =>
       if String.eqb label "Select Category" then "Investments"
       else if String.eqb label "Emission Factor Source" then "EPA"
       else if String.eqb label "Travel class" then "Air Economy"
       else "Activity-Based")
    (fun _ => 0%float)
    (fun label =>
       if String.eqb label "Activity data uncertainty (%)" then 20%Z
       else if String.eqb label "Emission factor uncertainty (%)" then 15%Z
       else 85%Z)
    (fun _ => true).

(** Widgets of a session with finite entries whose Investments row has
    no number for its emissions: the ratio of the two amounts overflows
    and meets zero investee emissions. *)
Definition overflowing_widgets : Page.Widgets :=
  Page.mkWidgets
    (fun label =>
       if String.eqb label "Select Category" then "Investments"
       else if String.eqb label "Emission Factor Source" then "EPA"
       else if String.eqb label "Travel class" then "Air Economy"
       else "Activity-Based")
    (fun label =>
       if String.eqb label "Investee emissions (kgCO2e)" then 0%float
       else if String.eqb label "Outstanding amount invested (£)" then 1e308%float
       else 1e-308%float)
    (fun label =>
       if String.eqb label "Activity data uncertainty (%)" then 20%Z
       else if String.eqb label "Emission factor uncertainty (%)" then 15%Z
       else 85%Z)
    (fun _ => true).

(** ** The scorer as Python runs it

    The type hints of [calculate_data_quality] say [float], the page
    passes the [int]s of its sliders, and nothing converts between the
    two: the arithmetic of the body follows the types of the arguments it
    is given.  The module-level dict [METHOD_HIERARCHY] is looked up when
    the call runs. *)

(** A Python number: an [int] or a [float]. *)
Inductive number : Type :=
| PyInt (n : Z)
| PyFloat (x : float).

(** [x ** 2] on a float, as [float_pow] computes it.  A NaN base gives
    itself, an infinite base [+inf], a zero [0.0] and a base of magnitude
    1 [1.0], all without a call of the C library.  For any other base the
    platform's [pow] is called on the magnitude of the base with the
    exponent [2.0]: [libm_pow2] stands for that call, which the source
    does not fix (the C standard asks no correct rounding of [pow]).  An
    infinite result is an [OverflowError]; [errno] is taken to report
    nothing else, as it does where [pow] sets it on overflow and on
    underflow to zero only. *)
Definition float_pow2 (libm_pow2 : float -> float) (x : float) : result float :=
  if is_nan x then Ok x
  else if is_infinity x then Ok (abs x)
  else if (x =? 0)%float then Ok 0%float
  else
    let iv := if (x <? 0)%float then (- x)%float else x in
    if (iv =? 1)%float then Ok 1%float
    else
      let ix := libm_pow2 iv in
      if is_infinity ix then Raise OverflowError else Ok ix.

(** A [pow] that rounds correctly at the exponent 2: the float nearest to
    the exact square, which is the float product. *)
Definition correctly_rounded_pow2 (x : float) : float := (x * x)%float.

(** The platform's [pow] gives a positive finite base a power that is a
    number and not below zero ([+inf] when it overflows). *)
Definition pow2_nonneg (libm_pow2 : float -> float) : Prop :=
  forall x, finite_pos x -> (0 <=? libm_pow2 x)%float = true.

(** The float [r] is the real [v] rounded to a float next to it: a
    number not below zero such that no float lies between [v] and [r],
    [v] itself included when it is a float.  So [r] is [v] when [v] is a
    float, and one of the two floats around [v] otherwise ([+inf]
    standing at [2^1024]): the error is below one unit in the last
    place. *)
Definition faithful (v : R) (r : float) : Prop :=
  (0 <=? r)%float = true
  /\ forall y, is_nan y = false ->
       ~ (v <= FR y < FR r)%R /\ ~ (FR r < FR y <= v)%R.

(** The platform's [pow] is accurate to within one unit in the last
    place at the exponent 2: the power of a positive finite base is its
    exact square rounded to a float next to it. *)
Definition pow2_faithful (libm_pow2 : float -> float) : Prop :=
  forall x, finite_pos x -> faithful (FR x * FR x) (libm_pow2 x).

(** A [pow] that is accurate to a unit in the last place and does not
    round correctly: at the base 39.15618756978263, whose exact square
    lies a little below the middle of two floats, it returns the upper
    one, 1533.207025, as glibc's [pow] does on x86-64; elsewhere it
    returns the nearest float. *)
Definition last_place_pow2 (x : float) : float :=
  if (x =? 39.15618756978263)%float then 1533.207025%float else (x * x)%float.

(** [x ** 2]: exact on an [int]. *)
Definition num_pow2 (libm_pow2 : float -> float) (x : number) : result number :=
  match x with
  | PyInt n => Ok (PyInt (n ^ 2))
  | PyFloat v => let* r := float_pow2 libm_pow2 v in Ok (PyFloat r)
  end.

(** The float an operand is converted to when it meets a float, and
    when [math.sqrt] receives it. *)
Definition to_float (x : number) : result float :=
  match x with
  | PyInt n => float_of_int n
  | PyFloat v => Ok v
  end.

(** [x + y]: exact on two [int]s, the float sum otherwise. *)
Definition num_add (x y : number) : result number :=
  match x, y with
  | PyInt m, PyInt n => Ok (PyInt (m + n))
  | _, _ =>
      let* a := to_float x in
      let* b := to_float y in
      Ok (PyFloat (a + b))
  end.

(** [math.sqrt(x)]. *)
Definition num_sqrt (x : number) : result float :=
  let* v := to_float x in
  math_sqrt v.

(** [x / 100]: the quotient of two [int]s, or of a float and the float
    the literal converts to. *)
Definition num_div_100 (x : number) : result float :=
  match x with
  | PyInt n => int_div n 100
  | PyFloat v => truediv v 100
  end.

(** [calculate_data_quality] on the numbers it is given, with the
    platform's [pow] and the dict that [METHOD_HIERARCHY] names when the
    call runs.  The [int]s [0] and [1] that [max] and [min] may return
    multiply as the floats they convert to. *)
Definition calculate_data_quality_num
  (libm_pow2 : float -> float) (hierarchy : gmap string Z)
  (method : string) (activity_uncertainty_pct factor_uncertainty_pct coverage_pct : number)
  : result (float * float) :=
  let* hierarchy_score := int_div (default 1%Z (hierarchy !! method)) 5 in
  let* a2 := num_pow2 libm_pow2 activity_uncertainty_pct in
  let* f2 := num_pow2 libm_pow2 factor_uncertainty_pct in
  let* s := num_add a2 f2 in
  let* combined_uncertainty := num_sqrt s in
  let* r := truediv combined_uncertainty 100 in
  let uncertainty_score := Py.max 0 (1 - r)%float in
  let* c := num_div_100 coverage_pct in
  let coverage_score := Py.min (Py.max c 0) 1 in
  let total_score :=
    (((0.4 * hierarchy_score) + (0.3 * uncertainty_score) + (0.3 * coverage_score)) * 100)%float in
  Ok (round total_score 1, round combined_uncertainty 2).

(** The pair the specification writes, from the combined uncertainty
    and the ratio [coverage_pct / 100]. *)
Definition score_from (method : string) (combined_uncertainty ratio : float) : float * float :=
  (round
     (100 * (0.4 * (of_int (rank method) / 5)
             + 0.3 * Py.max 0 (1 - combined_uncertainty / 100)
             + 0.3 * clamp ratio 0 1))%float
     1,
   round combined_uncertainty 2).

(** ** Overflow inside the engine's formulas *)

(** The places of a family's formula where a computed intermediate
    meets a further factor: the product of the first two fields in the
    two three-factor formulas, the attribution ratio in Investments.
    Each is given with the factor it meets. *)
Definition intermediate_products (f : family) (inputs : Inputs) : list (float * float) :=
  let v := field_value inputs in
  match f with
  | Transportation =>
      [((v "distance_km" * v "weight_tonnes")%float, v "transport_factor")]
  | Investments =>
      [(if truthy (v "evic") then (v "outstanding_amount" / v "evic")%float else 0%float,
        v "investee_emissions")]
  | UseOfSoldProducts =>
      [((v "lifetime_years" * v "annual_usage_kwh")%float, v "grid_factor")]
  | BusinessTravel | Generic => []
  end.

(** An intermediate has overflowed to [+inf] and the factor it meets is
    zero. *)
Definition overflow_meets_zero (f : family) (inputs : Inputs) : bool :=
  existsb (fun '(p, z) => is_infinity p && (z =? 0)%float) (intermediate_products f inputs).

(** ** What a call can see besides its arguments *)

(** The state of the running page that outlives a call: the dict the
    module binds to [METHOD_HIERARCHY], the session's table
    ([st.session_state.data], absent before the first run) and the clock
    that [datetime.now()] reads. *)
Record World : Type := mkWorld {
  world_hierarchy : gmap string Z;
  world_session : option (list Page.Row);
  world_clock : Z;
}.

(** What happens in a session, one event after the other: a call of the
    engine, a call of the scorer, or anything else the page does, which
    can store another table and let time pass.  No statement of the page
    assigns to [METHOD_HIERARCHY] or changes the dict: the page reads its
    keys for a widget and the scorer looks a label up. *)
Inductive event : Type :=
| Engine_call (category_name : string) (inputs : Inputs)
| Scorer_call (method : string)
    (activity_uncertainty_pct factor_uncertainty_pct coverage_pct : number)
| Page_step (data : option (list Page.Row)) (now : Z).

(** What an event yields. *)
Inductive outcome : Type :=
| Emissions_result (r : result (float * string))
| Quality_result (r : result (float * float))
| No_result.

(** An event in a world: what it yields and the world it leaves.  The
    bodies of the two functions name their parameters, and the scorer the
    dict; neither assigns to anything that outlives the call. *)
Definition step (libm_pow2 : float -> float) (e : event) (w : World) : outcome * World :=
  match e with
  | Engine_call category_name inputs =>
      (Emissions_result (calculate_emissions category_name inputs), w)
  | Scorer_call method a f c =>
      (Quality_result (calculate_data_quality_num libm_pow2 (world_hierarchy w) method a f c), w)
  | Page_step data now =>
      (No_result, mkWorld (world_hierarchy w) data now)
  end.





(** * Results *)

(** ** Substring match *)

Lemma prefix_app (n h : string) :
  String.prefix n h = true <-> exists post, h = (n ++ post)%string.
Proof.
  revert h. induction n as [|a n IH]; intros [|b h]; simpl.
  - split; [intros _; exists EmptyString; reflexivity | reflexivity].
  - split; [intros _; exists (String b h); reflexivity | reflexivity].
  - split; [discriminate | intros [post H]; discriminate].
  - destruct (Ascii.ascii_dec a b) as [->|Hab].
    + rewrite IH. split; intros [post H]; exists post; [now rewrite H | now injection H].
    + split; [discriminate | intros [post H]; injection H; intros _ E; now destruct Hab].
Qed.

(** [contains] is Python's [in] on strings: the needle sits between a
    prefix and a suffix of the haystack. *)
Lemma contains_spec (n h : string) :
  contains n h = true <-> exists pre post, h = (pre ++ n ++ post)%string.
Proof.
  induction h as [|b h IH]; cbn [contains].
  - rewrite orb_false_r, prefix_app. split.
    + intros [post H]. exists EmptyString, post. exact H.
    + intros [[|c pre] [post H]]; [exists post; exact H | discriminate].
  - rewrite orb_true_iff, prefix_app, IH. split.
    + intros [[post H] | [pre [post H]]].
      * exists EmptyString, post. exact H.
      * exists (String b pre), post. simpl. now rewrite H.
    + intros [[|c pre] [post H]].
      * left. exists post. exact H.
      * right. exists pre, post. now injection H.
Qed.

(** ** Dispatch *)

Lemma getitem_Some (inputs : Inputs) (k : string) (v : float) :
  fields inputs !! k = Some v -> getitem inputs k = Ok v.
Proof. unfold getitem. now intros ->. Qed.

Lemma getitem_None (inputs : Inputs) (k : string) :
  fields inputs !! k = None -> getitem inputs k = Raise (KeyError k).
Proof. unfold getitem. now intros ->. Qed.

(** The guarded quotient of the Investments branch is the table's ratio:
    the guard lets the division through only on a non-zero divisor. *)
Lemma attribution_factor_ratio (outstanding_amount evic : float) :
  (if truthy evic then truediv outstanding_amount evic else Ok 0%float)
  = Ok (if (evic =? 0)%float then 0%float else (outstanding_amount / evic)%float).
Proof.
  unfold truthy, truediv. now destruct (evic =? 0)%float.
Qed.

Lemma calculate_emissions_formula (category_name : string) (inputs : Inputs) :
  calculate_emissions category_name inputs = formula (family_of category_name) inputs.
Proof.
  unfold calculate_emissions, family_of.
  destruct (String.eqb category_name "Business Travel"); [reflexivity|].
  destruct (contains "Transportation" category_name); [reflexivity|].
  destruct (String.eqb category_name "Investments").
  - simpl. destruct (getitem inputs "investee_emissions"); [|reflexivity].
    destruct (getitem inputs "outstanding_amount"); [|reflexivity].
    destruct (getitem inputs "evic"); [|reflexivity].
    simpl. now rewrite attribution_factor_ratio.
  - destruct (String.eqb category_name "Use of Sold Products"); reflexivity.
Qed.

(** No two of the four patterns match one label. *)
Lemma patterns_exclusive (category_name : string) :
  contains "Transportation" category_name = true ->
  String.eqb category_name "Business Travel" = false
  /\ String.eqb category_name "Investments" = false
  /\ String.eqb category_name "Use of Sold Products" = false.
Proof.
  intros H.
  assert (E : forall label, contains "Transportation" label = false ->
                            String.eqb category_name label = false).
  { intros label Hl. destruct (String.eqb_spec category_name label) as [->|]; congruence. }
  repeat split; apply E; reflexivity.
Qed.

(** C2. For every category label, [calculate_emissions] computes the
    formula of the family the table's precedence order selects (exact
    "Business Travel", then a label containing "Transportation", then exact
    "Investments", then exact "Use of Sold Products", then the default);
    trying the label equalities before the substring match selects the same
    family, because a label containing "Transportation" equals none of the
    three exact labels. *)
Theorem dispatch_precedence (category_name : string) (inputs : Inputs) :
  calculate_emissions category_name inputs = formula (family_of category_name) inputs
  /\ family_of category_name = family_equality_first category_name
  /\ (contains "Transportation" category_name = true ->
      String.eqb category_name "Business Travel" = false
      /\ String.eqb category_name "Investments" = false
      /\ String.eqb category_name "Use of Sold Products" = false).
Proof.
  split; [apply calculate_emissions_formula|].
  split; [|apply patterns_exclusive].
  unfold family_of, family_equality_first.
  destruct (contains "Transportation" category_name) eqn:Hc.
  - destruct (patterns_exclusive _ Hc) as (-> & -> & ->). reflexivity.
  - reflexivity.
Qed.

(** ** The engine's branches *)

(** C8. For every Business Travel record holding the four fields,
    emissions = distance_km * travel_factor + hotel_nights * hotel_factor
    and the method is "Activity-Based"; the record of the specification's
    example gives 187.0 (see [business_travel_example]). *)
Theorem business_travel_emissions
  (inputs : Inputs) (distance_km travel_factor hotel_nights hotel_factor : float) :
  fields inputs !! "distance_km" = Some distance_km ->
  fields inputs !! "travel_factor" = Some travel_factor ->
  fields inputs !! "hotel_nights" = Some hotel_nights ->
  fields inputs !! "hotel_factor" = Some hotel_factor ->
  calculate_emissions "Business Travel" inputs
  = Ok ((distance_km * travel_factor + hotel_nights * hotel_factor)%float, "Activity-Based").
Proof.
  intros Hd Ht Hn Hf. unfold calculate_emissions. simpl.
  rewrite (getitem_Some _ _ _ Hd), (getitem_Some _ _ _ Ht),
    (getitem_Some _ _ _ Hn), (getitem_Some _ _ _ Hf).
  reflexivity.
Qed.

Lemma business_travel_example :
  calculate_emissions "Business Travel" business_travel_record
  = Ok (187%float, "Activity-Based").
Proof.
  rewrite (business_travel_emissions business_travel_record 1000 0.158 2 14.5)
    by (vm_compute; reflexivity).
  vm_compute. reflexivity.
Defined.

(** C3. For every Investments record holding the three fields, the result
    is investee_emissions times the attribution ratio, the ratio being
    outstanding_amount / evic, and 0 when evic is zero; the call returns (no
    [ZeroDivisionError]) with method "PCAF Financed Emissions".  The record
    of the specification's example gives 0 (see [investments_example]). *)
Theorem investments_attribution
  (inputs : Inputs) (investee_emissions outstanding_amount evic : float) :
  fields inputs !! "investee_emissions" = Some investee_emissions ->
  fields inputs !! "outstanding_amount" = Some outstanding_amount ->
  fields inputs !! "evic" = Some evic ->
  calculate_emissions "Investments" inputs
  = Ok ((investee_emissions
         * (if (evic =? 0)%float then 0 else outstanding_amount / evic))%float,
        "PCAF Financed Emissions").
Proof.
  intros Hi Ho He. unfold calculate_emissions. simpl.
  rewrite (getitem_Some _ _ _ Hi), (getitem_Some _ _ _ Ho), (getitem_Some _ _ _ He).
  simpl. rewrite attribution_factor_ratio. reflexivity.
Qed.

Lemma investments_example :
  calculate_emissions "Investments" investments_record
  = Ok (0%float, "PCAF Financed Emissions").
Proof.
  rewrite (investments_attribution investments_record 1000 50 0)
    by (vm_compute; reflexivity).
  vm_compute. reflexivity.
Defined.

(** C5. For every label that is none of the three exact labels and does
    not contain "Transportation", and for every record, the call returns
    quantity * generic_factor, each read as 0 when absent, with the
    record's method label, "Average-Data" when absent; it does not raise. *)
Theorem default_branch (category_name : string) (inputs : Inputs) :
  category_name <> "Business Travel" ->
  ~ (exists pre post, category_name = (pre ++ "Transportation" ++ post)%string) ->
  category_name <> "Investments" ->
  category_name <> "Use of Sold Products" ->
  calculate_emissions category_name inputs
  = Ok ((default 0%float (fields inputs !! "quantity")
         * default 0%float (fields inputs !! "generic_factor"))%float,
        default "Average-Data" (method inputs)).
Proof.
  intros Hb Ht Hi Hu. unfold calculate_emissions.
  apply String.eqb_neq in Hb, Hi, Hu. rewrite Hb, Hi, Hu.
  rewrite <- contains_spec in Ht. apply not_true_is_false in Ht. rewrite Ht.
  reflexivity.
Qed.

Lemma default_branch_example :
  calculate_emissions "Franchises" (mkInputs ∅ None) = Ok (0%float, "Average-Data").
Proof.
  rewrite (default_branch "Franchises" (mkInputs ∅ None)).
  - vm_compute. reflexivity.
  - discriminate.
  - rewrite <- contains_spec. vm_compute. discriminate.
  - discriminate.
  - discriminate.
Defined.

(** The specification's Transportation example: 100 km, 2 tonnes, factor
    0.122 give the float nearest to 24.4. *)
Example transportation_example :
  calculate_emissions "Upstream Transportation & Distribution"
    (mkInputs
       (<["distance_km" := 100%float]>
        (<["weight_tonnes" := 2%float]>
        (<["transport_factor" := 0.122%float]> ∅)))
       None)
  = Ok (24.4%float, "Activity-Based").
Proof. vm_compute. reflexivity. Qed.

(** ** Missing fields *)

Lemma first_missing_cons (inputs : Inputs) (k : string) (keys : list string) :
  first_missing inputs (k :: keys)
  = match fields inputs !! k with
    | None => Some k
    | Some _ => first_missing inputs keys
    end.
Proof.
  unfold first_missing. simpl.
  destruct (fields inputs !! k) eqn:E.
  - rewrite bool_decide_eq_false_2 by discriminate. reflexivity.
  - rewrite bool_decide_eq_true_2 by reflexivity. reflexivity.
Qed.

Lemma first_missing_exists (inputs : Inputs) (keys : list string) :
  (exists k, In k keys /\ fields inputs !! k = None) ->
  exists k, first_missing inputs keys = Some k.
Proof.
  induction keys as [|k0 keys IH]; intros [k [Hin Hk]]; [destruct Hin|].
  rewrite first_missing_cons. destruct (fields inputs !! k0) eqn:E; [|eauto].
  apply IH. destruct Hin as [->|Hin]; [congruence | eauto].
Qed.

Lemma first_missing_sound (inputs : Inputs) (keys : list string) (k : string) :
  first_missing inputs keys = Some k -> In k keys /\ fields inputs !! k = None.
Proof.
  unfold first_missing. intros H. apply find_some in H as [Hin Hk].
  split; [exact Hin | now apply bool_decide_eq_true in Hk].
Qed.

(** A family's formula raises [KeyError] on the first field it reads and
    does not find. *)
Lemma formula_first_missing (f : family) (inputs : Inputs) (k : string) :
  first_missing inputs (required_fields f) = Some k ->
  formula f inputs = Raise (KeyError k).
Proof.
  destruct f; simpl required_fields; intros H; simpl formula; unfold getitem;
    repeat (rewrite first_missing_cons in H;
            match type of H with
            | context [fields inputs !! ?key] => destruct (fields inputs !! key)
            end;
            simpl; [ | now injection H as <- ]);
    discriminate H.
Qed.

(** The error a missing field raises carries the field's name and nothing
    of the category: two categories raise the same error on the same
    record, so no reading of the error gives the category back. *)
Lemma keyerror_omits_category :
  ~ (exists category_of : exn -> string,
       forall category_name inputs e,
         family_of category_name <> Generic ->
         calculate_emissions category_name inputs = Raise e ->
         category_of e = category_name).
Proof.
  intros [category_of H].
  assert (H1 : category_of (KeyError "distance_km") = "Business Travel").
  { apply (H _ (mkInputs ∅ None)); [vm_compute; discriminate | vm_compute; reflexivity]. }
  assert (H2 : category_of (KeyError "distance_km")
               = "Upstream Transportation & Distribution").
  { apply (H _ (mkInputs ∅ None)); [vm_compute; discriminate | vm_compute; reflexivity]. }
  rewrite H1 in H2. discriminate H2.
Qed.

(** C4 (amended). For every label of one of the four non-default families
    and every record lacking a field the family's formula reads, the call
    raises [KeyError] carrying the name of the first such field in the
    order the formula reads them; nothing is substituted for it.  The error
    does not name the category. *)
Theorem missing_field_raises (category_name : string) (inputs : Inputs) :
  family_of category_name <> Generic ->
  (exists k, In k (required_fields (family_of category_name))
             /\ fields inputs !! k = None) ->
  exists k,
    calculate_emissions category_name inputs = Raise (KeyError k)
    /\ first_missing inputs (required_fields (family_of category_name)) = Some k
    /\ In k (required_fields (family_of category_name))
    /\ fields inputs !! k = None.
Proof.
  intros _ Hmiss. destruct (first_missing_exists _ _ Hmiss) as [k Hk].
  exists k. rewrite calculate_emissions_formula.
  split; [now apply formula_first_missing|].
  split; [exact Hk | now apply first_missing_sound].
Qed.

Lemma missing_field_raises_example :
  exists k,
    calculate_emissions "Investments"
      (mkInputs (<["investee_emissions" := 1000%float]> ∅) None) = Raise (KeyError k)
    /\ first_missing (mkInputs (<["investee_emissions" := 1000%float]> ∅) None)
         (required_fields (family_of "Investments")) = Some k
    /\ In k (required_fields (family_of "Investments"))
    /\ fields (mkInputs (<["investee_emissions" := 1000%float]> ∅) None) !! k = None.
Proof.
  apply (missing_field_raises "Investments").
  - vm_compute. discriminate.
  - exists "evic". split; [vm_compute; tauto | vm_compute; reflexivity].
Defined.

(** ** Binary64 arithmetic: signs, rounding, monotonicity *)

Module Rounding.

(** *** Signs of float results *)

Lemma binary_round_aux_nonneg (m e : Z) (l : location) :
  SFnonneg (binary_round_aux prec emax false m e l) = true.
Proof.
  unfold binary_round_aux.
  destruct (shr_fexp prec emax m e l) as [mrs e'].
  destruct (shr_fexp prec emax _ e' loc_Exact) as [mrs' e''].
  destruct (shr_m mrs'); [reflexivity | | reflexivity].
  destruct (e'' <=? emax - prec)%Z; reflexivity.
Qed.

Lemma SFmul_nonneg (x y : spec_float) :
  SFnonneg x = true -> SFnonneg y = true -> SFnonneg (SF64mul x y) = true.
Proof.
  destruct x as [[]|[]| |[] mx ex], y as [[]|[]| |[] my ey];
    try discriminate; intros _ _; try reflexivity; apply binary_round_aux_nonneg.
Qed.

Lemma SFmul_self_nonneg (x : spec_float) : SFnonneg (SF64mul x x) = true.
Proof.
  destruct x as [[]|[]| |[] mx ex]; try reflexivity; apply binary_round_aux_nonneg.
Qed.

Lemma binary_normalize_nonneg (m e : Z) :
  (0 <= m)%Z -> SFnonneg (binary_normalize prec emax m e false) = true.
Proof.
  intros Hm. destruct m as [|p|p]; [reflexivity | | lia].
  unfold binary_normalize, binary_round.
  destruct (shl_align _ _ _) as [mz ez]. apply binary_round_aux_nonneg.
Qed.

Lemma SFadd_nonneg (x y : spec_float) :
  SFnonneg x = true -> SFnonneg y = true -> SFnonneg (SF64add x y) = true.
Proof.
  destruct x as [[]|[]| |[] mx ex], y as [[]|[]| |[] my ey];
    try discriminate; intros _ _; try reflexivity.
  unfold SF64add, SFadd, cond_Zopp. apply binary_normalize_nonneg. lia.
Qed.

Lemma SFdiv_nonneg (x y : spec_float) :
  SFnonneg x = true -> SFnonneg y = true -> SFeqb y (S754_zero false) = false ->
  SFnonneg (SF64div x y) = true.
Proof.
  destruct x as [[]|[]| |[] mx ex], y as [[]|[]| |[] my ey];
    try discriminate; intros _ _ _; try reflexivity.
  unfold SF64div, SFdiv.
  destruct (SFdiv_core_binary prec emax (Z.pos mx) ex (Z.pos my) ey) as [[mz ez] lz].
  apply binary_round_aux_nonneg.
Qed.

Lemma SFsqrt_nonneg (x : spec_float) : SFnonneg (SF64sqrt x) = true.
Proof.
  destruct x as [[]|[]| |[] mx ex]; try reflexivity.
  unfold SF64sqrt, SFsqrt.
  destruct (SFsqrt_core_binary prec emax (Z.pos mx) ex) as [[mz ez] lz].
  apply binary_round_aux_nonneg.
Qed.

Lemma Prim2SF_zero : Prim2SF 0 = S754_zero false.
Proof. reflexivity. Qed.

Lemma nonneg_not_ltb (x : float) : nonneg_or_nan x = true -> (x <? 0)%float = false.
Proof.
  unfold nonneg_or_nan. rewrite FloatAxioms.ltb_spec, Prim2SF_zero.
  destruct (Prim2SF x) as [[]|[]| |[] m e]; try discriminate; reflexivity.
Qed.

Lemma leb_nonneg (x : float) : (0 <=? x)%float = true -> nonneg_or_nan x = true.
Proof.
  unfold nonneg_or_nan. rewrite FloatAxioms.leb_spec, Prim2SF_zero.
  destruct (Prim2SF x) as [[]|[]| |[] m e]; try discriminate; reflexivity.
Qed.

Lemma is_nan_spec (x : float) : is_nan x = true <-> Prim2SF x = S754_nan.
Proof.
  unfold is_nan. rewrite FloatAxioms.eqb_spec.
  destruct (Prim2SF x) as [[]|[]| |[] m e]; unfold SFeqb; simpl;
    try (split; discriminate); try (split; reflexivity).
  all: rewrite Z.compare_refl, Pos.compare_cont_refl; simpl; split; discriminate.
Qed.

Lemma nonneg_cases (x : float) :
  nonneg_or_nan x = true -> (0 <=? x)%float = true \/ is_nan x = true.
Proof.
  unfold nonneg_or_nan. rewrite is_nan_spec, FloatAxioms.leb_spec, Prim2SF_zero.
  destruct (Prim2SF x) as [[]|[]| |[] m e]; try discriminate; intros _;
    (left; reflexivity) || (right; reflexivity).
Qed.

Lemma mul_nonneg (x y : float) :
  nonneg_or_nan x = true -> nonneg_or_nan y = true -> nonneg_or_nan (x * y) = true.
Proof. unfold nonneg_or_nan. rewrite mul_spec. apply SFmul_nonneg. Qed.

Lemma mul_self_nonneg (x : float) : nonneg_or_nan (x * x) = true.
Proof. unfold nonneg_or_nan. rewrite mul_spec. apply SFmul_self_nonneg. Qed.

Lemma add_nonneg (x y : float) :
  nonneg_or_nan x = true -> nonneg_or_nan y = true -> nonneg_or_nan (x + y) = true.
Proof. unfold nonneg_or_nan. rewrite add_spec. apply SFadd_nonneg. Qed.

Lemma div_nonneg (x y : float) :
  nonneg_or_nan x = true -> nonneg_or_nan y = true -> (y =? 0)%float = false ->
  nonneg_or_nan (x / y) = true.
Proof.
  unfold nonneg_or_nan. rewrite div_spec, FloatAxioms.eqb_spec, Prim2SF_zero. apply SFdiv_nonneg.
Qed.

Lemma mul_comm (x y : float) : (x * y = y * x)%float.
Proof.
  apply Prim2SF_inj. rewrite !mul_spec.
  destruct (Prim2SF x) as [sx|sx| |sx mx ex], (Prim2SF y) as [sy|sy| |sy my ey];
    simpl; try reflexivity; try (now rewrite xorb_comm).
  now rewrite xorb_comm, Pos.mul_comm, Z.add_comm.
Qed.

Local Open Scope R_scope.

(** *** Rounding to nearest *)

Lemma bpow_pos (e : Z) : 0 < bpow e.
Proof. apply powerRZ_lt. lra. Qed.

Lemma bpow_add (a b : Z) : bpow (a + b) = bpow a * bpow b.
Proof. apply powerRZ_add. lra. Qed.

Lemma bpow_0 : bpow 0 = 1.
Proof. reflexivity. Qed.

Lemma bpow_1 : bpow 1 = 2.
Proof. unfold bpow. simpl. lra. Qed.

Lemma bpow_succ (e : Z) : bpow (e + 1) = 2 * bpow e.
Proof. rewrite bpow_add, bpow_1. lra. Qed.

Lemma bpow_IZR (n : Z) : (0 <= n)%Z -> bpow n = IZR (2 ^ n).
Proof.
  intros Hn. destruct n as [|p|p]; [reflexivity | | lia].
  unfold bpow. simpl powerRZ. rewrite pow_IZR. now rewrite positive_nat_Z.
Qed.

Lemma bpow_ge_1 (n : Z) : (0 <= n)%Z -> 1 <= bpow n.
Proof.
  intros Hn. rewrite bpow_IZR by assumption. apply IZR_le.
  assert (0 < 2 ^ n)%Z by (apply Z.pow_pos_nonneg; lia). lia.
Qed.

Lemma bpow_le (a b : Z) : (a <= b)%Z -> bpow a <= bpow b.
Proof.
  intros H. replace b with (a + (b - a))%Z by lia. rewrite bpow_add.
  assert (Ha := bpow_pos a). assert (Hb := bpow_ge_1 (b - a) ltac:(lia)). nra.
Qed.

Lemma bpow_lt (a b : Z) : (a < b)%Z -> bpow a < bpow b.
Proof.
  intros H. assert (Hs := bpow_le (a + 1) b ltac:(lia)).
  rewrite bpow_succ in Hs. assert (Ha := bpow_pos a). lra.
Qed.

Lemma bpow_lt_inv (a b : Z) : bpow a < bpow b -> (a < b)%Z.
Proof.
  intros H. destruct (Z_lt_le_dec a b) as [|Hle]; [assumption|].
  apply bpow_le in Hle. lra.
Qed.

Lemma bpow_le_inv (a b : Z) : bpow a <= bpow b -> (a <= b)%Z.
Proof.
  intros H. destruct (Z_le_gt_dec a b) as [|Hgt]; [assumption|].
  assert (Hlt := bpow_lt b a ltac:(lia)). lra.
Qed.

Lemma F2R_bpow (n e : Z) : (0 <= n)%Z -> F2R (2 ^ n) e = bpow (n + e).
Proof. intros Hn. unfold F2R. now rewrite bpow_add, (bpow_IZR n). Qed.

Lemma F2R_le (m1 m2 e : Z) : (m1 <= m2)%Z -> F2R m1 e <= F2R m2 e.
Proof.
  intros H. unfold F2R. apply IZR_le in H. assert (He := bpow_pos e). nra.
Qed.

Lemma F2R_lt_inv (m1 m2 e : Z) : F2R m1 e < F2R m2 e -> (m1 < m2)%Z.
Proof.
  intros H. destruct (Z_lt_le_dec m1 m2) as [|Hle]; [assumption|].
  apply (F2R_le _ _ e) in Hle. lra.
Qed.

Lemma F2R_shift (m e k : Z) : (0 <= k)%Z -> F2R (m * 2 ^ k) (e - k) = F2R m e.
Proof.
  intros Hk. unfold F2R. rewrite mult_IZR, <- (bpow_IZR k) by assumption.
  replace e with ((e - k) + k)%Z at 2 by lia. rewrite (bpow_add (e - k) k). lra.
Qed.

(** *** Binary digits *)

Lemma digits2_size (p : positive) : digits2_pos p = Pos.size p.
Proof. induction p; simpl; congruence. Qed.

Lemma digits2_bounds (p : positive) :
  (2 ^ (Z.pos (digits2_pos p) - 1) <= Z.pos p < 2 ^ Z.pos (digits2_pos p))%Z.
Proof.
  rewrite digits2_size. split.
  - assert (H := Pos.size_le p).
    assert (E : (2 ^ Z.pos (Pos.size p) = 2 * 2 ^ (Z.pos (Pos.size p) - 1))%Z).
    { rewrite <- Z.pow_succ_r by lia. f_equal. lia. }
    assert (H' : (2 ^ Z.pos (Pos.size p) <= Z.pos p~0)%Z).
    { rewrite <- Pos2Z.inj_pow. now apply Pos2Z.pos_le_pos. }
    lia.
  - rewrite <- Pos2Z.inj_pow. apply Pos2Z.pos_lt_pos, Pos.size_gt.
Qed.

Lemma Zdigits2_bounds (m : Z) :
  (0 < m)%Z ->
  (0 < Zdigits2 m)%Z /\ (2 ^ (Zdigits2 m - 1) <= m < 2 ^ Zdigits2 m)%Z.
Proof.
  destruct m as [|p|p]; try lia. intros _. simpl. split; [lia | apply digits2_bounds].
Qed.

Lemma Zdigits2_unique (m k : Z) :
  (2 ^ (k - 1) <= m < 2 ^ k)%Z -> (0 < k)%Z -> Zdigits2 m = k.
Proof.
  intros [Hlo Hhi] Hk.
  assert (Hm : (0 < m)%Z).
  { assert (0 < 2 ^ (k - 1))%Z by (apply Z.pow_pos_nonneg; lia). lia. }
  destruct (Zdigits2_bounds m Hm) as [Hd [Hdlo Hdhi]].
  assert (k - 1 < Zdigits2 m)%Z.
  { apply (Z.pow_lt_mono_r_iff 2); lia. }
  assert (Zdigits2 m - 1 < k)%Z.
  { apply (Z.pow_lt_mono_r_iff 2); lia. }
  lia.
Qed.

Lemma F2R_digits_bounds (m e : Z) :
  (0 < m)%Z -> bpow (Zdigits2 m + e - 1) <= F2R m e < bpow (Zdigits2 m + e).
Proof.
  intros Hm. destruct (Zdigits2_bounds m Hm) as [Hd [Hlo Hhi]].
  replace (Zdigits2 m + e - 1)%Z with ((Zdigits2 m - 1) + e)%Z by lia.
  rewrite <- !F2R_bpow by lia. unfold F2R.
  apply IZR_le in Hlo. apply IZR_lt in Hhi. assert (He := bpow_pos e). nra.
Qed.

(** *** Locations *)

Lemma located_bounds (v : R) (m e : Z) (l : location) :
  located v m e l -> F2R m e <= v < F2R (m + 1) e.
Proof.
  unfold located, F2R. rewrite plus_IZR. assert (He := bpow_pos e).
  destruct l as [|[]]; intros H; nra.
Qed.

Lemma loc_of_shr_record_of_loc (m : Z) (l : location) :
  loc_of_shr_record (shr_record_of_loc m l) = l.
Proof. destruct l as [|[]]; reflexivity. Qed.

Lemma shr_m_record_of_loc (m : Z) (l : location) : shr_m (shr_record_of_loc m l) = m.
Proof. destruct l as [|[]]; reflexivity. Qed.

(** One step to the right keeps the place of [v] and halves the mantissa. *)
Lemma shr_1_located (v : R) (mrs : shr_record) (e : Z) :
  (0 <= shr_m mrs)%Z ->
  located v (shr_m mrs) e (loc_of_shr_record mrs) ->
  located v (shr_m (shr_1 mrs)) (e + 1) (loc_of_shr_record (shr_1 mrs))
  /\ (0 <= shr_m (shr_1 mrs))%Z.
Proof.
  destruct mrs as [m r s]. simpl shr_m. intros Hm.
  assert (He := bpow_pos e).
  destruct m as [|[p|p|]|p]; try lia;
    destruct r, s; simpl; unfold located, F2R; rewrite bpow_succ;
    try rewrite (Pos2Z.inj_xI p); try rewrite (Pos2Z.inj_xO p);
    rewrite ?plus_IZR, ?mult_IZR; intros H; (split; [nra | lia]).
Qed.

Lemma iter_pos_nat {A : Type} (f : A -> A) (p : positive) (x : A) :
  SpecFloat.iter_pos f p x = Nat.iter (Pos.to_nat p) f x.
Proof.
  revert x. induction p as [p IH|p IH|]; intros x.
  - cbn [SpecFloat.iter_pos].
    rewrite !IH, Pos2Nat.inj_xI, <- Nat.iter_succ_r, <- Nat.iter_add.
    f_equal. lia.
  - cbn [SpecFloat.iter_pos].
    rewrite !IH, Pos2Nat.inj_xO, <- Nat.iter_add. f_equal. lia.
  - reflexivity.
Qed.

Lemma shr_iter_located (v : R) (k : nat) (mrs : shr_record) (e : Z) :
  (0 <= shr_m mrs)%Z ->
  located v (shr_m mrs) e (loc_of_shr_record mrs) ->
  located v (shr_m (Nat.iter k shr_1 mrs)) (e + Z.of_nat k)
    (loc_of_shr_record (Nat.iter k shr_1 mrs))
  /\ (0 <= shr_m (Nat.iter k shr_1 mrs))%Z.
Proof.
  intros Hm Hl. induction k as [|k [IHl IHm]].
  - simpl. now rewrite Z.add_0_r.
  - simpl Nat.iter. replace (e + Z.of_nat (S k))%Z with (e + Z.of_nat k + 1)%Z by lia.
    now apply shr_1_located.
Qed.

(** [shr] by [n] places: the exponent grows by [n] when [n] is positive. *)
Lemma shr_located (v : R) (m e n : Z) (l : location) :
  (0 <= m)%Z -> located v m e l ->
  let '(mrs, e') := shr (shr_record_of_loc m l) e n in
  located v (shr_m mrs) e' (loc_of_shr_record mrs)
  /\ (0 <= shr_m mrs)%Z /\ e' = (e + Z.max n 0)%Z.
Proof.
  intros Hm Hl. unfold shr. destruct n as [|p|p].
  - rewrite loc_of_shr_record_of_loc, shr_m_record_of_loc. repeat split; auto; lia.
  - rewrite iter_pos_nat.
    destruct (shr_iter_located v (Pos.to_nat p) (shr_record_of_loc m l) e) as [H1 H2].
    + now rewrite shr_m_record_of_loc.
    + now rewrite loc_of_shr_record_of_loc, shr_m_record_of_loc.
    + rewrite positive_nat_Z in H1. repeat split; auto; lia.
  - rewrite loc_of_shr_record_of_loc, shr_m_record_of_loc. repeat split; auto; lia.
Qed.

(** *** The canonical exponent *)

Lemma fexp_spec (d : Z) : fexp prec emax d = Z.max (d - 53) (-1074).
Proof. reflexivity. Qed.

Lemma fexp_le (d1 d2 : Z) : (d1 <= d2)%Z -> (fexp prec emax d1 <= fexp prec emax d2)%Z.
Proof. rewrite !fexp_spec. lia. Qed.

Lemma binary_round_aux_finish (s : bool) (m e : Z) (l : location) :
  binary_round_aux prec emax s m e l
  = let '(mrs, e') := shr_fexp prec emax m e l in
    finish s (round_nearest_even (shr_m mrs) (loc_of_shr_record mrs)) e'.
Proof.
  unfold binary_round_aux, finish. now destruct (shr_fexp prec emax m e l).
Qed.

Lemma shr_fexp_canon (v : R) (m e : Z) (l : location) :
  (0 <= m)%Z -> located v m e l ->
  (e <= fexp prec emax (Zdigits2 m + e))%Z ->
  let '(mrs, e') := shr_fexp prec emax m e l in
  canon v (shr_m mrs) e' (loc_of_shr_record mrs).
Proof.
  intros Hm Hl He. unfold shr_fexp.
  assert (H := shr_located v m e (fexp prec emax (Zdigits2 m + e) - e) l Hm Hl).
  destruct (shr (shr_record_of_loc m l) e (fexp prec emax (Zdigits2 m + e) - e))
    as [mrs e'].
  destruct H as (H1 & H2 & H3).
  split; [assumption|]. split; [assumption|].
  exists (Zdigits2 m + e)%Z. split; [lia|].
  apply located_bounds in Hl. destruct Hl as [Hlo Hhi].
  destruct (Z.eq_dec m 0%Z) as [->|Hnz].
  - simpl Zdigits2 in *. rewrite Z.add_0_l in *. split.
    + unfold F2R in Hhi. simpl in Hhi. lra.
    + right. rewrite fexp_spec in He. lia.
  - destruct (F2R_digits_bounds m e ltac:(lia)) as [Hdlo Hdhi]. split.
    + destruct (Zdigits2_bounds m ltac:(lia)) as [_ [_ Hd]].
      assert (Hle : F2R (m + 1) e <= F2R (2 ^ Zdigits2 m) e) by (apply F2R_le; lia).
      rewrite F2R_bpow in Hle; [lra|].
      destruct (Zdigits2_bounds m ltac:(lia)); lia.
    + left. lra.
Qed.

Lemma round_nearest_even_cases (m : Z) (l : location) :
  round_nearest_even m l = m \/ round_nearest_even m l = (m + 1)%Z.
Proof. destruct l as [|[]]; simpl; auto. destruct (Z.even m); auto. Qed.

Lemma shr_fexp_noshift (n e : Z) :
  fexp prec emax (Zdigits2 n + e) = e ->
  shr_fexp prec emax n e loc_Exact = (Build_shr_record n false false, e).
Proof. intros H. unfold shr_fexp. rewrite H, Z.sub_diag. reflexivity. Qed.

Lemma finish_noshift (s : bool) (n e : Z) :
  fexp prec emax (Zdigits2 n + e) = e ->
  finish s n e
  = match n with
    | Z0 => S754_zero s
    | Z.pos m => if (e <=? emax - prec)%Z then S754_finite s m e else S754_infinity s
    | Z.neg _ => S754_nan
    end.
Proof. intros H. unfold finish. now rewrite shr_fexp_noshift. Qed.

Lemma finish_value (s : bool) (n e : Z) :
  (0 <= n)%Z -> fexp prec emax (Zdigits2 n + e) = e ->
  valid_binary (finish s n e) = true
  /\ B2R (finish s n e) = signR s * Rmin (F2R n e) (bpow emax)
  /\ has_sign s (finish s n e).
Proof.
  intros Hn He. rewrite (finish_noshift s n e He).
  assert (Hmax := bpow_pos emax).
  destruct n as [|p|p]; [| |lia].
  - simpl. unfold F2R. simpl IZR. rewrite Rmult_0_l, Rmin_left by lra.
    repeat split. lra.
  - destruct (F2R_digits_bounds (Z.pos p) e ltac:(lia)) as [Hlo Hhi].
    destruct (Zdigits2_bounds (Z.pos p) ltac:(lia)) as [Hd _].
    rewrite fexp_spec in He.
    change (emax - prec)%Z with 971%Z.
    destruct (Z.leb_spec e 971) as [Hle|Hgt].
    + split; [|split; [|reflexivity]].
      * unfold SpecFloat.valid_binary, SpecFloat.bounded, SpecFloat.canonical_mantissa.
        change (Z.pos (digits2_pos p)) with (Zdigits2 (Z.pos p)).
        rewrite fexp_spec.
        apply andb_true_intro. split; [apply Z.eqb_eq; lia | apply Z.leb_le; exact Hle].
      * assert (Hb : bpow (Zdigits2 (Z.pos p) + e) <= bpow emax).
        { apply bpow_le. change emax with 1024%Z. lia. }
        rewrite Rmin_left by lra.
        cbn [B2R]. unfold F2R, signR. destruct s; cbn [cond_Zopp].
        -- change (Z.neg p) with (- Z.pos p)%Z. rewrite opp_IZR. lra.
        -- lra.
    + split; [reflexivity|]. split; [|reflexivity].
      assert (Hb : bpow emax <= bpow (Zdigits2 (Z.pos p) + e - 1)).
      { apply bpow_le. change emax with 1024%Z. lia. }
      rewrite Rmin_right by lra.
      cbn [B2R]. unfold signR. destruct s; lra.
Qed.

Lemma finish_carry (s : bool) (e : Z) :
  (-1074 <= e)%Z -> finish s (2 ^ 53) e = finish s (2 ^ 52) (e + 1).
Proof.
  intros He.
  rewrite (finish_noshift s (2 ^ 52) (e + 1)).
  2:{ rewrite fexp_spec. change (Zdigits2 (2 ^ 52)) with 53%Z. lia. }
  unfold finish, shr_fexp. change (Zdigits2 (2 ^ 53)) with 54%Z.
  replace (fexp prec emax (54 + e) - e)%Z with 1%Z by (rewrite fexp_spec; lia).
  reflexivity.
Qed.

(** The rounded mantissa at the canonical exponent gives a valid float
    whose value is the rounded value, capped at [2^emax]. *)
Lemma finish_spec (s : bool) (v : R) (m e : Z) (l : location) :
  canon v m e l ->
  valid_binary (finish s (round_nearest_even m l) e) = true
  /\ B2R (finish s (round_nearest_even m l) e)
     = signR s * Rmin (F2R (round_nearest_even m l) e) (bpow emax)
  /\ has_sign s (finish s (round_nearest_even m l) e).
Proof.
  intros (Hm & Hl & d & He & Hvd & Hd).
  destruct (located_bounds _ _ _ _ Hl) as [Hlo Hhi].
  assert (Hn := round_nearest_even_cases m l).
  set (n := round_nearest_even m l) in *.
  rewrite fexp_spec in He.
  destruct (Z_le_gt_dec d e) as [Hde|Hde].
  - (* below the smallest positive float *)
    assert (Hm0 : m = 0%Z).
    { assert (F2R m e < F2R 1 e); [|apply F2R_lt_inv in H; lia].
      assert (Hb := bpow_le d e Hde). unfold F2R at 2. simpl IZR. lra. }
    apply finish_value; [lia|]. rewrite fexp_spec.
    assert (Hdn : (0 <= Zdigits2 n <= 1)%Z) by (destruct Hn as [->| ->]; subst m; simpl; lia).
    lia.
  - assert (Hlow : bpow (d - 1) <= v) by (destruct Hd; [assumption | lia]).
    assert (Hmhi : (m < 2 ^ (d - e))%Z).
    { apply (F2R_lt_inv _ _ e). rewrite F2R_bpow by lia.
      replace (d - e + e)%Z with d by lia. lra. }
    assert (Hmlo : (2 ^ (d - 1 - e) <= m)%Z).
    { assert (H : (2 ^ (d - 1 - e) < m + 1)%Z); [|lia].
      apply (F2R_lt_inv _ _ e). rewrite F2R_bpow by lia.
      replace (d - 1 - e + e)%Z with (d - 1)%Z by lia. lra. }
    assert (Hpow : (2 ^ (d - e) = 2 * 2 ^ (d - 1 - e))%Z).
    { rewrite <- Z.pow_succ_r by lia. f_equal. lia. }
    destruct (Z_lt_le_dec n (2 ^ (d - e))) as [Hlt|Hge].
    + apply finish_value; [lia|]. rewrite fexp_spec.
      rewrite (Zdigits2_unique n (d - e)); [lia | | lia].
      replace (d - e - 1)%Z with (d - 1 - e)%Z by lia. lia.
    + assert (Hneq : n = (2 ^ (d - e))%Z) by lia.
      destruct (Z_le_gt_dec (-1074) (d - 53)) as [Hnorm|Hsub].
      * assert (Ee : e = (d - 53)%Z) by lia.
        replace (d - e)%Z with 53%Z in Hneq by lia. rewrite Hneq.
        rewrite finish_carry by lia.
        replace (F2R (2 ^ 53) e) with (F2R (2 ^ 52) (e + 1)).
        2:{ unfold F2R. rewrite bpow_succ. change (2 ^ 53)%Z with (2 * 2 ^ 52)%Z.
            rewrite mult_IZR. lra. }
        apply finish_value; [lia|]. rewrite fexp_spec.
        change (Zdigits2 (2 ^ 52)) with 53%Z. lia.
      * apply finish_value; [lia|]. rewrite fexp_spec.
        rewrite (Zdigits2_unique n (d - e + 1)); [lia | | lia].
        replace (d - e + 1 - 1)%Z with (d - e)%Z by lia.
        rewrite Hneq. split; [lia|].
        assert (E : (2 ^ (d - e + 1) = 2 * 2 ^ (d - e))%Z).
        { rewrite <- Z.pow_succ_r by lia. f_equal. }
        assert (0 < 2 ^ (d - e))%Z by (apply Z.pow_pos_nonneg; lia). lia.
Qed.

Lemma binary_round_aux_rounds (s : bool) (v : R) (m e : Z) (l : location) :
  (0 <= m)%Z -> located v m e l ->
  (e <= fexp prec emax (Zdigits2 m + e))%Z ->
  valid_binary (binary_round_aux prec emax s m e l) = true
  /\ has_sign s (binary_round_aux prec emax s m e l)
  /\ exists r, rounds v r /\ B2R (binary_round_aux prec emax s m e l) = signR s * r.
Proof.
  intros Hm Hl He. rewrite binary_round_aux_finish.
  assert (H := shr_fexp_canon v m e l Hm Hl He).
  destruct (shr_fexp prec emax m e l) as [mrs e'].
  destruct (finish_spec s _ _ _ _ H) as (Hv & Hb & Hs).
  split; [assumption|]. split; [assumption|].
  eexists. split; [|exact Hb].
  exists (shr_m mrs), e', (loc_of_shr_record mrs). now split.
Qed.

Lemma round_nearest_even_mono (v1 v2 : R) (m e : Z) (l1 l2 : location) :
  located v1 m e l1 -> located v2 m e l2 -> v1 <= v2 ->
  (round_nearest_even m l1 <= round_nearest_even m l2)%Z.
Proof.
  assert (He := bpow_pos e).
  destruct l1 as [|[]], l2 as [|[]]; unfold located, F2R; rewrite ?plus_IZR;
    simpl round_nearest_even; intros H1 H2 Hv;
    try destruct (Z.even m); try lia; exfalso; nra.
Qed.

Lemma canon_mono (v1 v2 : R) (m1 e1 m2 e2 : Z) (l1 l2 : location) :
  canon v1 m1 e1 l1 -> canon v2 m2 e2 l2 -> v1 <= v2 ->
  F2R (round_nearest_even m1 l1) e1 <= F2R (round_nearest_even m2 l2) e2.
Proof.
  intros (Hm1 & Hl1 & d1 & He1 & Hv1 & Hd1) (Hm2 & Hl2 & d2 & He2 & Hv2 & Hd2) Hv.
  destruct (located_bounds _ _ _ _ Hl1) as [Hlo1 Hhi1].
  destruct (located_bounds _ _ _ _ Hl2) as [Hlo2 Hhi2].
  assert (Hn1 := round_nearest_even_cases m1 l1).
  assert (Hn2 := round_nearest_even_cases m2 l2).
  rewrite fexp_spec in He1, He2.
  destruct (Z.lt_total e1 e2) as [Hlt|[Heq|Hgt]].
  - (* the second value sits in a higher binade *)
    assert (Hlow2 : bpow (d2 - 1) <= v2) by (destruct Hd2; [assumption | lia]).
    assert (Hm2lo : (2 ^ (d2 - 1 - e2) <= m2)%Z).
    { assert (H : (2 ^ (d2 - 1 - e2) < m2 + 1)%Z); [|lia].
      apply (F2R_lt_inv _ _ e2). rewrite F2R_bpow by lia.
      replace (d2 - 1 - e2 + e2)%Z with (d2 - 1)%Z by lia. lra. }
    assert (H2 : bpow (d2 - 1) <= F2R (round_nearest_even m2 l2) e2).
    { replace (d2 - 1)%Z with (d2 - 1 - e2 + e2)%Z by lia.
      rewrite <- F2R_bpow by lia. apply F2R_le. lia. }
    assert (H1 : F2R (round_nearest_even m1 l1) e1 <= bpow (d2 - 1)); [|lra].
    destruct (Z_le_gt_dec d1 e1) as [Hde|Hde].
    + assert (Hm0 : m1 = 0%Z).
      { assert (F2R m1 e1 < F2R 1 e1); [|apply F2R_lt_inv in H; lia].
        assert (Hb := bpow_le d1 e1 Hde). unfold F2R at 2. simpl IZR. lra. }
      apply Rle_trans with (F2R 1 e1); [apply F2R_le; lia|].
      unfold F2R. simpl IZR. rewrite Rmult_1_l. apply bpow_le. lia.
    + assert (Hm1hi : (m1 < 2 ^ (d1 - e1))%Z).
      { apply (F2R_lt_inv _ _ e1). rewrite F2R_bpow by lia.
        replace (d1 - e1 + e1)%Z with d1 by lia. lra. }
      apply Rle_trans with (F2R (2 ^ (d1 - e1)) e1); [apply F2R_le; lia|].
      rewrite F2R_bpow by lia. apply bpow_le. lia.
  - clear He2. subst e2.
    assert (Hm : (m1 <= m2)%Z).
    { assert (H : (m1 < m2 + 1)%Z); [|lia]. apply (F2R_lt_inv _ _ e1). lra. }
    apply F2R_le.
    destruct (Z.eq_dec m1 m2) as [->|Hne]; [|lia].
    now apply (round_nearest_even_mono v1 v2 m2 e1).
  - exfalso. destruct Hd1 as [Hlow1|Hd1]; [|lia].
    assert (Hb := bpow_le d2 (d1 - 1) ltac:(lia)). lra.
Qed.

Lemma rounds_mono (v1 v2 r1 r2 : R) :
  rounds v1 r1 -> rounds v2 r2 -> v1 <= v2 -> r1 <= r2.
Proof.
  intros (m1 & e1 & l1 & H1 & ->) (m2 & e2 & l2 & H2 & ->) Hv.
  assert (H := canon_mono _ _ _ _ _ _ _ _ H1 H2 Hv).
  apply Rle_min_compat_r. exact H.
Qed.

Lemma rounds_unique (v r1 r2 : R) : rounds v r1 -> rounds v r2 -> r1 = r2.
Proof.
  intros H1 H2. apply Rle_antisym; eapply rounds_mono; eauto; lra.
Qed.

Lemma rounds_nonneg (v r : R) : rounds v r -> 0 <= r.
Proof.
  intros (m & e & l & (Hm & _) & ->).
  assert (Hn := round_nearest_even_cases m l).
  assert (He := bpow_pos e). assert (Hx := bpow_pos emax).
  apply Rmin_glb; [|lra]. unfold F2R.
  assert (0 <= IZR (round_nearest_even m l)) by (apply IZR_le; lia). nra.
Qed.

(** *** Comparison and value *)

Lemma B2R_finite (s : bool) (m : positive) (e : Z) :
  B2R (S754_finite s m e) = signR s * F2R (Z.pos m) e.
Proof.
  cbn [B2R]. unfold F2R, signR. destruct s; cbn [cond_Zopp]; [|lra].
  change (- Z.pos m)%Z with (Z.neg m). change (Z.neg m) with (- Z.pos m)%Z.
  rewrite opp_IZR. lra.
Qed.

Lemma canonical_digits (m : positive) (e : Z) :
  canonical_mantissa prec emax m e = true ->
  (Zdigits2 (Z.pos m) <= 53)%Z /\ (-1074 <= e)%Z
  /\ ((-1074 < e)%Z -> Zdigits2 (Z.pos m) = 53%Z).
Proof.
  unfold canonical_mantissa. intros H. apply Z.eqb_eq in H.
  change (Z.pos (digits2_pos m)) with (Zdigits2 (Z.pos m)) in H.
  rewrite fexp_spec in H. lia.
Qed.

Lemma valid_finite_bounds (s : bool) (m : positive) (e : Z) :
  valid_binary (S754_finite s m e) = true ->
  0 < F2R (Z.pos m) e < bpow emax.
Proof.
  unfold SpecFloat.valid_binary, bounded. intros H.
  apply andb_prop in H as [Hc Hb]. apply Z.leb_le in Hb.
  change (emax - prec)%Z with 971%Z in Hb.
  destruct (canonical_digits m e Hc) as (Hd & _ & _).
  destruct (F2R_digits_bounds (Z.pos m) e ltac:(lia)) as [Hlo Hhi].
  assert (Hp := bpow_pos (Zdigits2 (Z.pos m) + e - 1)).
  assert (Hb' : bpow (Zdigits2 (Z.pos m) + e) <= bpow emax).
  { apply bpow_le. change emax with 1024%Z. lia. }
  lra.
Qed.

Lemma canonical_lt (m1 m2 : positive) (e1 e2 : Z) :
  canonical_mantissa prec emax m1 e1 = true ->
  canonical_mantissa prec emax m2 e2 = true ->
  (e1 < e2)%Z -> F2R (Z.pos m1) e1 < F2R (Z.pos m2) e2.
Proof.
  intros H1 H2 He.
  destruct (canonical_digits m1 e1 H1) as (Hd1 & He1 & _).
  destruct (canonical_digits m2 e2 H2) as (_ & _ & Hd2).
  destruct (F2R_digits_bounds (Z.pos m1) e1 ltac:(lia)) as [_ Hhi].
  destruct (F2R_digits_bounds (Z.pos m2) e2 ltac:(lia)) as [Hlo _].
  assert (Hb : bpow (Zdigits2 (Z.pos m1) + e1) <= bpow (Zdigits2 (Z.pos m2) + e2 - 1)).
  { apply bpow_le. rewrite Hd2 by lia. lia. }
  lra.
Qed.

Lemma compare_pos_finite (m1 m2 : positive) (e1 e2 : Z) :
  canonical_mantissa prec emax m1 e1 = true ->
  canonical_mantissa prec emax m2 e2 = true ->
  cmp_spec
    (Some match (e1 ?= e2)%Z with
          | Lt => Lt
          | Gt => Gt
          | Eq => Pos.compare_cont Eq m1 m2
          end)
    (F2R (Z.pos m1) e1) (F2R (Z.pos m2) e2).
Proof.
  intros H1 H2. destruct (Z.compare_spec e1 e2) as [->|Hlt|Hgt].
  - change (Pos.compare_cont Eq m1 m2) with (m1 ?= m2)%positive.
    assert (He := bpow_pos e2). unfold F2R.
    destruct (Pos.compare_spec m1 m2) as [->|Hm|Hm]; simpl.
    + reflexivity.
    + apply Pos2Z.pos_lt_pos, IZR_lt in Hm. nra.
    + apply Pos2Z.pos_lt_pos, IZR_lt in Hm. nra.
  - simpl. now apply canonical_lt.
  - simpl. now apply canonical_lt.
Qed.

Lemma cmp_spec_opp (c : comparison) (a b : R) :
  cmp_spec (Some c) a b -> cmp_spec (Some (CompOpp c)) (- a) (- b).
Proof. destruct c; simpl; lra. Qed.

Lemma SFcompare_B2R (x y : spec_float) :
  valid_binary x = true -> valid_binary y = true ->
  cmp_spec (SFcompare x y) (B2R x) (B2R y).
Proof.
  intros Hx Hy. assert (Hmax := bpow_pos emax).
  destruct x as [sx|sx| |sx mx ex], y as [sy|sy| |sy my ey]; try exact I;
    try (pose proof (valid_finite_bounds _ _ _ Hx));
    try (pose proof (valid_finite_bounds _ _ _ Hy));
    rewrite ?B2R_finite; unfold SFcompare.
  9:{ unfold SpecFloat.valid_binary, bounded in Hx, Hy.
      apply andb_prop in Hx as [Hcx _]. apply andb_prop in Hy as [Hcy _].
      assert (Hc := compare_pos_finite mx my ex ey Hcx Hcy).
      destruct sx, sy; unfold signR.
      - apply cmp_spec_opp in Hc.
        replace (-1 * F2R (Z.pos mx) ex) with (- F2R (Z.pos mx) ex) by lra.
        replace (-1 * F2R (Z.pos my) ey) with (- F2R (Z.pos my) ey) by lra.
        destruct (ex ?= ey)%Z; exact Hc.
      - cbn [cmp_spec]. lra.
      - cbn [cmp_spec]. lra.
      - rewrite !Rmult_1_l. exact Hc. }
  all: try destruct sx; try destruct sy; unfold signR; cbn [cmp_spec B2R]; lra.
Qed.

Lemma SFcompare_None (x y : spec_float) :
  SFcompare x y = None <-> x = S754_nan \/ y = S754_nan.
Proof.
  destruct x as [sx|sx| |sx mx ex], y as [sy|sy| |sy my ey]; simpl;
    split; try discriminate; try tauto;
    try (intros [H|H]; discriminate H);
    try (destruct sx; discriminate); try (destruct sy; discriminate).
Qed.

Lemma ltb_FR (x y : float) :
  is_nan x = false -> is_nan y = false ->
  ((x <? y)%float = true <-> FR x < FR y).
Proof.
  intros Hx Hy. rewrite FloatAxioms.ltb_spec. unfold SFltb, FR.
  assert (H := SFcompare_B2R _ _ (Prim2SF_valid x) (Prim2SF_valid y)).
  destruct (SFcompare (Prim2SF x) (Prim2SF y)) as [[]|] eqn:E; simpl in H.
  - split; [discriminate | lra].
  - tauto.
  - split; [discriminate | lra].
  - apply SFcompare_None in E. rewrite <- !is_nan_spec in E.
    destruct E; congruence.
Qed.

Lemma leb_FR (x y : float) :
  is_nan x = false -> is_nan y = false ->
  ((x <=? y)%float = true <-> FR x <= FR y).
Proof.
  intros Hx Hy. rewrite FloatAxioms.leb_spec. unfold SFleb, FR.
  assert (H := SFcompare_B2R _ _ (Prim2SF_valid x) (Prim2SF_valid y)).
  destruct (SFcompare (Prim2SF x) (Prim2SF y)) as [[]|] eqn:E; simpl in H.
  - split; [lra | reflexivity].
  - split; [lra | reflexivity].
  - split; [discriminate | lra].
  - apply SFcompare_None in E. rewrite <- !is_nan_spec in E.
    destruct E; congruence.
Qed.

Lemma leb_not_nan (x y : float) :
  (x <=? y)%float = true -> is_nan x = false /\ is_nan y = false.
Proof.
  rewrite FloatAxioms.leb_spec. unfold SFleb. intros H.
  destruct (is_nan x) eqn:Ex; [apply is_nan_spec in Ex; rewrite Ex in H; discriminate|].
  destruct (is_nan y) eqn:Ey; [apply is_nan_spec in Ey; rewrite Ey in H|auto].
  destruct (Prim2SF x); discriminate.
Qed.

Lemma ltb_not_nan (x y : float) :
  (x <? y)%float = true -> is_nan x = false /\ is_nan y = false.
Proof.
  rewrite FloatAxioms.ltb_spec. unfold SFltb. intros H.
  destruct (is_nan x) eqn:Ex; [apply is_nan_spec in Ex; rewrite Ex in H; discriminate|].
  destruct (is_nan y) eqn:Ey; [apply is_nan_spec in Ey; rewrite Ey in H|auto].
  destruct (Prim2SF x); discriminate.
Qed.

(** *** The operations round their exact results *)

Lemma binary_round_aux_rounded (s : bool) (v : R) (m e : Z) (l : location) :
  (0 <= m)%Z -> located v m e l ->
  (e <= fexp prec emax (Zdigits2 m + e))%Z ->
  rounded_to s v (binary_round_aux prec emax s m e l).
Proof. apply binary_round_aux_rounds. Qed.

Lemma Zdigits2_mul_pow2 (m k : Z) :
  (0 < m)%Z -> (0 <= k)%Z -> Zdigits2 (m * 2 ^ k) = (Zdigits2 m + k)%Z.
Proof.
  intros Hm Hk. destruct (Zdigits2_bounds m Hm) as [Hd [Hlo Hhi]].
  assert (Hp : (0 < 2 ^ k)%Z) by (apply Z.pow_pos_nonneg; lia).
  apply Zdigits2_unique; [|lia].
  replace (Zdigits2 m + k - 1)%Z with ((Zdigits2 m - 1) + k)%Z by lia.
  rewrite !Z.pow_add_r by lia. nia.
Qed.

Lemma iter_xO_pow2 (m d : positive) :
  Z.pos (Pos.iter xO m d) = (Z.pos m * 2 ^ Z.pos d)%Z.
Proof.
  change (Pos.iter xO m d) with (shift_pos d m).
  rewrite shift_pos_correct. change (Z.pow_pos 2 d) with (2 ^ Z.pos d)%Z. lia.
Qed.

(** Aligning to a lower exponent keeps the value. *)
Lemma shl_align_spec (m : positive) (e e' : Z) :
  let '(m', e'') := shl_align m e e' in
  F2R (Z.pos m') e'' = F2R (Z.pos m) e
  /\ e'' = Z.min e e'
  /\ Z.pos m' = (Z.pos m * 2 ^ (e - e''))%Z.
Proof.
  unfold shl_align. destruct (e' - e)%Z as [|d|d] eqn:E.
  - repeat split; [lia|]. rewrite Z.sub_diag. simpl. lia.
  - repeat split; [lia|]. rewrite Z.sub_diag. simpl. lia.
  - assert (Ed : (e - e' = Z.pos d)%Z) by lia.
    rewrite iter_xO_pow2, Ed. split; [|split; [lia | reflexivity]].
    rewrite <- Ed. rewrite <- (F2R_shift (Z.pos m) e (e - e')) by lia.
    f_equal. lia.
Qed.

Lemma binary_round_rounded (s : bool) (m : positive) (e : Z) :
  rounded_to s (F2R (Z.pos m) e) (binary_round prec emax s m e).
Proof.
  unfold binary_round.
  assert (H := shl_align_spec m e (fexp prec emax (Z.pos (digits2_pos m) + e))).
  change (Z.pos (digits2_pos m)) with (Zdigits2 (Z.pos m)) in *.
  destruct (shl_align m e _) as [mz ez]. destruct H as (Hv & He & Hm).
  apply binary_round_aux_rounded; [lia | symmetry; exact Hv |].
  rewrite Hm, Zdigits2_mul_pow2 by lia.
  replace (Zdigits2 (Z.pos m) + (e - ez) + ez)%Z with (Zdigits2 (Z.pos m) + e)%Z by lia.
  lia.
Qed.

Lemma binary_normalize_rounded (m e : Z) :
  (0 < m)%Z -> rounded_to false (F2R m e) (binary_normalize prec emax m e false).
Proof.
  intros Hm. destruct m as [|p|p]; try lia. apply binary_round_rounded.
Qed.

Lemma binary_normalize_neg (m e : Z) :
  (m < 0)%Z -> rounded_to true (F2R (- m) e) (binary_normalize prec emax m e false).
Proof.
  intros Hm. destruct m as [|p|p]; try lia. apply binary_round_rounded.
Qed.

Lemma Zdigits2_mul (m1 m2 : positive) :
  (Zdigits2 (Z.pos m1) + Zdigits2 (Z.pos m2) - 1 <= Zdigits2 (Z.pos (m1 * m2)))%Z.
Proof.
  destruct (Zdigits2_bounds (Z.pos m1) ltac:(lia)) as [Hd1 [Hlo1 _]].
  destruct (Zdigits2_bounds (Z.pos m2) ltac:(lia)) as [Hd2 [Hlo2 _]].
  destruct (Zdigits2_bounds (Z.pos (m1 * m2)) ltac:(lia)) as [Hd [_ Hhi]].
  assert (H : (Zdigits2 (Z.pos m1) - 1 + (Zdigits2 (Z.pos m2) - 1)
               < Zdigits2 (Z.pos (m1 * m2)))%Z); [|lia].
  apply (Z.pow_lt_mono_r_iff 2); [lia | lia |].
  rewrite Z.pow_add_r by lia. rewrite Pos2Z.inj_mul in Hhi.
  assert (0 < 2 ^ (Zdigits2 (Z.pos m1) - 1))%Z by (apply Z.pow_pos_nonneg; lia).
  assert (0 < 2 ^ (Zdigits2 (Z.pos m2) - 1))%Z by (apply Z.pow_pos_nonneg; lia).
  apply Z.le_lt_trans with (Z.pos m1 * Z.pos m2)%Z; [|exact Hhi].
  apply Z.mul_le_mono_nonneg; lia.
Qed.

Lemma SFmul_rounded (sx sy : bool) (mx my : positive) (ex ey : Z) :
  canonical_mantissa prec emax mx ex = true ->
  canonical_mantissa prec emax my ey = true ->
  rounded_to (xorb sx sy) (F2R (Z.pos mx) ex * F2R (Z.pos my) ey)
    (SF64mul (S754_finite sx mx ex) (S754_finite sy my ey)).
Proof.
  intros Hx Hy. unfold SF64mul, SFmul.
  destruct (canonical_digits mx ex Hx) as (Hdx & Hex & Hnx).
  destruct (canonical_digits my ey Hy) as (Hdy & Hey & Hny).
  destruct (Zdigits2_bounds (Z.pos mx) ltac:(lia)) as [Hpx _].
  destruct (Zdigits2_bounds (Z.pos my) ltac:(lia)) as [Hpy _].
  assert (Hd := Zdigits2_mul mx my).
  apply binary_round_aux_rounded; [lia | |].
  - unfold located, F2R. rewrite Pos2Z.inj_mul, mult_IZR, bpow_add. lra.
  - rewrite fexp_spec. lia.
Qed.

Lemma SFadd_rounded (mx my : positive) (ex ey : Z) :
  rounded_to false (F2R (Z.pos mx) ex + F2R (Z.pos my) ey)
    (SF64add (S754_finite false mx ex) (S754_finite false my ey)).
Proof.
  unfold SF64add, SFadd, cond_Zopp.
  assert (Hx := shl_align_spec mx ex (Z.min ex ey)).
  assert (Hy := shl_align_spec my ey (Z.min ex ey)).
  destruct (shl_align mx ex _) as [mx' ex']. destruct (shl_align my ey _) as [my' ey'].
  destruct Hx as (Hvx & Hex & _). destruct Hy as (Hvy & Hey & _).
  cbn [fst].
  replace (F2R (Z.pos mx) ex + F2R (Z.pos my) ey)
    with (F2R (Z.pos mx' + Z.pos my') (Z.min ex ey)).
  - apply binary_normalize_rounded. lia.
  - rewrite <- Hvx, <- Hvy.
    replace ex' with (Z.min ex ey) by lia. replace ey' with (Z.min ex ey) by lia.
    unfold F2R. rewrite plus_IZR. lra.
Qed.

Lemma SFsub_finite (mx my : positive) (ex ey : Z) :
  let r := SF64sub (S754_finite false mx ex) (S754_finite false my ey) in
  let delta := F2R (Z.pos mx) ex - F2R (Z.pos my) ey in
  (0 < delta -> rounded_to false delta r)
  /\ (delta = 0 -> r = S754_zero false)
  /\ (delta < 0 -> rounded_to true (- delta) r).
Proof.
  unfold SF64sub, SFsub, cond_Zopp.
  assert (Hx := shl_align_spec mx ex (Z.min ex ey)).
  assert (Hy := shl_align_spec my ey (Z.min ex ey)).
  destruct (shl_align mx ex _) as [mx' ex']. destruct (shl_align my ey _) as [my' ey'].
  destruct Hx as (Hvx & Hex & _). destruct Hy as (Hvy & Hey & _).
  cbn [fst]. cbv zeta.
  assert (Hd : F2R (Z.pos mx) ex - F2R (Z.pos my) ey
               = F2R (Z.pos mx' - Z.pos my') (Z.min ex ey)).
  { rewrite <- Hvx, <- Hvy.
    replace ex' with (Z.min ex ey) by lia. replace ey' with (Z.min ex ey) by lia.
    unfold F2R. rewrite minus_IZR. lra. }
  rewrite Hd. set (M := (Z.pos mx' - Z.pos my')%Z).
  assert (He := bpow_pos (Z.min ex ey)).
  split; [|split]; intros H.
  - apply binary_normalize_rounded.
    apply lt_IZR. unfold F2R in H. nra.
  - assert (HM : M = 0%Z).
    { apply eq_IZR. unfold F2R in H. nra. }
    now rewrite HM.
  - replace (- F2R M (Z.min ex ey)) with (F2R (- M) (Z.min ex ey)).
    + apply binary_normalize_neg. apply lt_IZR. unfold F2R in H. nra.
    + unfold F2R. rewrite opp_IZR. lra.
Qed.

Lemma new_location_located (m2 q r e : Z) (v : R) :
  (0 < m2)%Z -> (0 <= r < m2)%Z ->
  v = (IZR q + IZR r / IZR m2) * bpow e ->
  located v q e (new_location m2 r).
Proof.
  intros Hm2 Hr ->. assert (He := bpow_pos e).
  assert (HM : 0 < IZR m2) by (apply IZR_lt; lia).
  set (t := IZR r / IZR m2).
  assert (Ht : t * IZR m2 = IZR r) by (unfold t; field; lra).
  unfold new_location, new_location_even, new_location_odd.
  assert (Hexact : r = 0%Z -> located ((IZR q + t) * bpow e) q e loc_Exact).
  { intros E. unfold located, F2R. rewrite E in Ht. simpl in Ht.
    assert (t = 0) by nra. subst t. nra. }
  assert (Hlt : (0 < r)%Z -> (2 * r < m2)%Z ->
                located ((IZR q + t) * bpow e) q e (loc_Inexact Lt)).
  { intros H0 H1. apply IZR_lt in H0, H1. rewrite mult_IZR in H1.
    unfold located, F2R. assert (0 < t) by nra. assert (t < / 2) by nra. nra. }
  assert (Hgt : (m2 < 2 * r)%Z ->
                located ((IZR q + t) * bpow e) q e (loc_Inexact Gt)).
  { intros H1. apply IZR_lt in H1. rewrite mult_IZR in H1.
    destruct Hr as [_ Hr]. apply IZR_lt in Hr.
    unfold located, F2R. rewrite plus_IZR.
    assert (/ 2 < t) by nra. assert (t < 1) by nra. nra. }
  destruct (Z.even m2) eqn:Ev; destruct (Z.eqb_spec r 0) as [E|E]; auto.
  - destruct (Z.compare_spec (2 * r) m2) as [Heq|H1|H1].
    + unfold located. apply IZR_eq in Heq. rewrite mult_IZR in Heq.
      assert (t = / 2) by nra. nra.
    + apply Hlt; lia.
    + apply Hgt; lia.
  - assert (Hne : (2 * r <> m2)%Z).
    { intros <-. rewrite Z.even_mul in Ev. discriminate. }
    destruct (Z.compare_spec (2 * r + 1) m2) as [Heq|H1|H1].
    + apply Hlt; lia.
    + apply Hlt; lia.
    + apply Hgt; lia.
Qed.

Lemma SFdiv_core_binary_spec (m1 e1 m2 e2 : Z) :
  (0 < m1)%Z -> (0 < m2)%Z ->
  let '(q, e', l) := SFdiv_core_binary prec emax m1 e1 m2 e2 in
  (0 <= q)%Z
  /\ located (F2R m1 e1 / F2R m2 e2) q e' l
  /\ (e' <= fexp prec emax (Zdigits2 q + e'))%Z.
Proof.
  intros H1 H2. unfold SFdiv_core_binary.
  set (D := (Zdigits2 m1 + e1 - (Zdigits2 m2 + e2))%Z).
  set (e' := Z.min (fexp prec emax D) (e1 - e2)).
  set (s := (e1 - e2 - e')%Z).
  assert (Hs : (0 <= s)%Z) by (unfold s, e'; lia).
  set (m' := match s with Z.pos _ => Z.shiftl m1 s | Z0 => m1 | Z.neg _ => 0%Z end).
  assert (Hm' : m' = (m1 * 2 ^ s)%Z).
  { unfold m'. destruct s as [|p|p]; [lia | | lia].
    apply Z.shiftl_mul_pow2. lia. }
  assert (Hdiv := Z_div_mod m' m2 ltac:(lia)).
  destruct (Z.div_eucl m' m2) as [q r]. destruct Hdiv as [Hqr Hr].
  assert (Hp : (0 < 2 ^ s)%Z) by (apply Z.pow_pos_nonneg; lia).
  assert (Hq : (0 <= q)%Z) by nia.
  split; [exact Hq|]. split.
  - apply new_location_located; [lia | lia |].
    assert (HM2 : 0 < IZR m2) by (apply IZR_lt; lia).
    assert (Hb2 := bpow_pos e2). assert (Hb' := bpow_pos e').
    assert (E : F2R m1 e1 = F2R m' (e2 + e')).
    { rewrite Hm'. rewrite <- (F2R_shift m1 e1 s) by lia. f_equal. unfold s. lia. }
    rewrite E. unfold F2R. rewrite bpow_add, Hqr, plus_IZR, mult_IZR.
    field. split; lra.
  - destruct (Zdigits2_bounds m1 H1) as [Hd1 [Hlo1 _]].
    destruct (Zdigits2_bounds m2 H2) as [Hd2 [_ Hhi2]].
    rewrite fexp_spec.
    destruct (Z_le_gt_dec e' (-1074)) as [Hle|Hgt]; [lia|].
    assert (He' : (e' <= D - 53)%Z).
    { unfold e' in *. rewrite fexp_spec in *. lia. }
    assert (Hsl : (53 - Zdigits2 m1 + Zdigits2 m2 <= s)%Z) by (unfold s, D in *; lia).
    assert (Hq52 : (2 ^ 52 <= q)%Z).
    { assert (Hbig : (2 ^ (52 + Zdigits2 m2) <= m')%Z).
      { rewrite Hm'.
        apply Z.le_trans with (2 ^ (Zdigits2 m1 - 1 + s))%Z;
          [apply Z.pow_le_mono_r; lia|].
        rewrite Z.pow_add_r by lia. apply Z.mul_le_mono_nonneg_r; lia. }
      rewrite Z.pow_add_r in Hbig by lia.
      destruct (Z_le_gt_dec (2 ^ 52) q) as [|Hsmall]; [assumption | exfalso].
      assert (Ha : (m2 * (q + 1) <= m2 * 2 ^ 52)%Z)
        by (apply Z.mul_le_mono_nonneg_l; lia).
      assert (Hb : (m2 * 2 ^ 52 < 2 ^ Zdigits2 m2 * 2 ^ 52)%Z)
        by (apply Z.mul_lt_mono_pos_r; lia).
      lia. }
    destruct (Zdigits2_bounds q ltac:(lia)) as [Hdq [_ Hhiq]].
    assert (52 < Zdigits2 q)%Z.
    { apply (Z.pow_lt_mono_r_iff 2); lia. }
    lia.
Qed.

Lemma SFdiv_rounded (sx sy : bool) (mx my : positive) (ex ey : Z) :
  rounded_to (xorb sx sy) (F2R (Z.pos mx) ex / F2R (Z.pos my) ey)
    (SF64div (S754_finite sx mx ex) (S754_finite sy my ey)).
Proof.
  unfold SF64div, SFdiv.
  assert (H := SFdiv_core_binary_spec (Z.pos mx) ex (Z.pos my) ey ltac:(lia) ltac:(lia)).
  destruct (SFdiv_core_binary prec emax (Z.pos mx) ex (Z.pos my) ey) as [[q e'] l].
  destruct H as (Hq & Hl & He).
  now apply binary_round_aux_rounded.
Qed.

Lemma div2_bounds (a : Z) : (2 * Z.div2 a <= a <= 2 * Z.div2 a + 1)%Z.
Proof.
  assert (H := Z.div2_odd a). destruct (Z.odd a); simpl Z.b2z in H; lia.
Qed.

Lemma SFsqrt_core_binary_spec (m e : Z) :
  (0 < m)%Z ->
  let '(q, e', l) := SFsqrt_core_binary prec emax m e in
  (0 <= q)%Z
  /\ located (sqrt (F2R m e)) q e' l
  /\ (e' <= fexp prec emax (Zdigits2 q + e'))%Z.
Proof.
  intros Hm. unfold SFsqrt_core_binary.
  set (D2 := Z.div2 (Zdigits2 m + e + 1)).
  set (e' := Z.min (fexp prec emax D2) (Z.div2 e)).
  set (s := (e - 2 * e')%Z).
  assert (HD2 := div2_bounds (Zdigits2 m + e + 1)). fold D2 in HD2.
  assert (He2 := div2_bounds e).
  assert (Hs : (0 <= s)%Z) by (unfold s, e'; lia).
  set (m' := match s with Z.pos _ => Z.shiftl m s | Z0 => m | Z.neg _ => 0%Z end).
  assert (Hm' : m' = (m * 2 ^ s)%Z).
  { unfold m'. destruct s as [|p|p]; [lia | | lia].
    apply Z.shiftl_mul_pow2. lia. }
  assert (Hp : (0 < 2 ^ s)%Z) by (apply Z.pow_pos_nonneg; lia).
  assert (Hm'pos : (0 < m')%Z) by nia.
  assert (Hsq := Z.sqrtrem_spec m' ltac:(lia)).
  destruct (Z.sqrtrem m') as [q r]. destruct Hsq as [Hqr Hr].
  assert (Hq : (0 <= q)%Z) by lia.
  split; [exact Hq|]. split.
  - assert (Hb := bpow_pos e').
    assert (E : F2R m e = IZR m' * (bpow e' * bpow e')).
    { rewrite Hm'. rewrite <- (F2R_shift m e s) by lia. unfold F2R.
      rewrite <- bpow_add. do 2 f_equal. unfold s. lia. }
    rewrite E, sqrt_mult, sqrt_square; [| lra | apply IZR_le; lia | nra].
    set (S := sqrt (IZR m')).
    assert (HS0 : 0 <= S) by apply sqrt_pos.
    assert (HSS : S * S = IZR q * IZR q + IZR r).
    { unfold S. rewrite sqrt_sqrt by (apply IZR_le; lia).
      rewrite Hqr, plus_IZR, mult_IZR. reflexivity. }
    assert (HQ : 0 <= IZR q) by (apply IZR_le; lia).
    destruct (Z.eqb_spec r 0) as [Er|Er].
    + unfold located, F2R. rewrite Er in HSS. simpl in HSS.
      assert (S = IZR q) by nra. nra.
    + assert (Hr0 : 0 < IZR r) by (apply IZR_lt; lia).
      destruct (Z.leb_spec r q) as [Hle|Hgt].
      * apply IZR_le in Hle. unfold located, F2R.
        assert (IZR q < S) by nra. assert (S < IZR q + / 2) by nra. nra.
      * assert (Hgt' : IZR q + 1 <= IZR r).
        { rewrite <- plus_IZR. apply IZR_le. lia. }
        assert (Hr2 : IZR r <= 2 * IZR q).
        { rewrite <- mult_IZR. apply IZR_le. lia. }
        unfold located, F2R. rewrite plus_IZR.
        assert (IZR q + / 2 < S) by nra. assert (S < IZR q + 1) by nra. nra.
  - rewrite fexp_spec.
    destruct (Z_le_gt_dec e' (-1074)) as [Hle|Hgt]; [lia|].
    assert (He' : (e' <= D2 - 53)%Z).
    { unfold e' in *. rewrite fexp_spec in *. lia. }
    set (t := (D2 - e' - 1)%Z).
    assert (Ht : (52 <= t)%Z) by (unfold t; lia).
    destruct (Zdigits2_bounds m Hm) as [Hd [Hlo _]].
    assert (Hbig : (2 ^ t * 2 ^ t <= m')%Z).
    { rewrite <- Z.pow_add_r by lia. rewrite Hm'.
      apply Z.le_trans with (2 ^ (Zdigits2 m - 1 + s))%Z;
        [apply Z.pow_le_mono_r; unfold t, s; lia|].
      rewrite Z.pow_add_r by lia. apply Z.mul_le_mono_nonneg_r; lia. }
    assert (Hqt : (2 ^ t <= q)%Z).
    { destruct (Z_le_gt_dec (2 ^ t) q) as [|Hsmall]; [assumption | exfalso].
      assert ((q + 1) * (q + 1) <= 2 ^ t * 2 ^ t)%Z
        by (apply Z.mul_le_mono_nonneg; lia).
      lia. }
    assert (Hpt : (0 < 2 ^ t)%Z) by (apply Z.pow_pos_nonneg; lia).
    destruct (Zdigits2_bounds q ltac:(lia)) as [Hdq [_ Hhiq]].
    assert (t < Zdigits2 q)%Z.
    { apply (Z.pow_lt_mono_r_iff 2); lia. }
    unfold t in *. lia.
Qed.

Lemma SFsqrt_rounded (mx : positive) (ex : Z) :
  rounded_to false (sqrt (F2R (Z.pos mx) ex))
    (SF64sqrt (S754_finite false mx ex)).
Proof.
  unfold SF64sqrt, SFsqrt.
  assert (H := SFsqrt_core_binary_spec (Z.pos mx) ex ltac:(lia)).
  destruct (SFsqrt_core_binary prec emax (Z.pos mx) ex) as [[q e'] l].
  destruct H as (Hq & Hl & He).
  now apply binary_round_aux_rounded.
Qed.

(** *** Primitive floats: values of non-negative results *)

Lemma rounds_0 : rounds 0 0.
Proof.
  exists 0%Z, (-1074)%Z, loc_Exact. split.
  - split; [lia|]. split; [unfold located, F2R; simpl; lra|].
    exists (-1074)%Z. split; [reflexivity|]. split; [apply bpow_pos | right; lia].
  - simpl round_nearest_even. unfold F2R. simpl IZR. rewrite Rmult_0_l.
    symmetry. apply Rmin_left. apply Rlt_le, bpow_pos.
Qed.

Lemma rounds_exact (m : positive) (e : Z) :
  valid_binary (S754_finite false m e) = true ->
  rounds (F2R (Z.pos m) e) (F2R (Z.pos m) e).
Proof.
  intros Hv. destruct (valid_finite_bounds _ _ _ Hv) as [H0 Hmax].
  unfold SpecFloat.valid_binary, bounded in Hv. apply andb_prop in Hv as [Hc _].
  exists (Z.pos m), e, loc_Exact. split.
  - split; [lia|]. split; [reflexivity|].
    exists (Zdigits2 (Z.pos m) + e)%Z.
    destruct (F2R_digits_bounds (Z.pos m) e ltac:(lia)) as [Hlo Hhi].
    split; [|split; [exact Hhi | left; exact Hlo]].
    unfold canonical_mantissa in Hc. apply Z.eqb_eq in Hc. symmetry. exact Hc.
  - simpl round_nearest_even. symmetry. apply Rmin_left. lra.
Qed.

Lemma Prim2SF_infinity : Prim2SF infinity = S754_infinity false.
Proof. reflexivity. Qed.

Lemma nonneg_split (x : float) :
  (0 <=? x)%float = true -> finite_nonneg x \/ x = infinity.
Proof.
  rewrite FloatAxioms.leb_spec, Prim2SF_zero. unfold finite_nonneg.
  destruct (Prim2SF x) as [s|[]| |[] m e] eqn:E; try discriminate; intros _; auto.
  right. apply Prim2SF_inj. now rewrite E.
Qed.

Lemma finite_pos_nonneg (x : float) : finite_pos x -> finite_nonneg x.
Proof. unfold finite_pos, finite_nonneg. destruct (Prim2SF x) as [|[]| |[] m e]; tauto. Qed.

Lemma finite_nonneg_facts (x : float) :
  finite_nonneg x ->
  is_nan x = false /\ (0 <=? x)%float = true /\ 0 <= FR x < bpow emax.
Proof.
  unfold finite_nonneg, FR. intros H.
  assert (Hv := Prim2SF_valid x). assert (Hmax := bpow_pos emax).
  rewrite FloatAxioms.leb_spec, Prim2SF_zero.
  destruct (is_nan x) eqn:En.
  { apply is_nan_spec in En. rewrite En in H. destruct H. }
  destruct (Prim2SF x) as [s|[]| |[] m e]; try destruct H.
  - repeat split; cbn [B2R]; lra.
  - destruct (valid_finite_bounds _ _ _ Hv). rewrite B2R_finite. unfold signR.
    repeat split; lra.
Qed.

Lemma finite_pos_facts (x : float) : finite_pos x -> 0 < FR x < bpow emax.
Proof.
  unfold finite_pos, FR. intros H. assert (Hv := Prim2SF_valid x).
  destruct (Prim2SF x) as [s|[]| |[] m e]; try destruct H.
  destruct (valid_finite_bounds _ _ _ Hv). rewrite B2R_finite. unfold signR. lra.
Qed.

Lemma FR_le_max (x : float) : - bpow emax <= FR x <= bpow emax.
Proof.
  unfold FR. assert (Hv := Prim2SF_valid x). assert (Hmax := bpow_pos emax).
  destruct (Prim2SF x) as [s|[]| |s m e]; cbn [B2R]; try lra.
  destruct (valid_finite_bounds _ _ _ Hv).
  change (F2R (cond_Zopp s (Z.pos m)) e) with (B2R (S754_finite s m e)).
  rewrite B2R_finite. unfold signR. destruct s; lra.
Qed.

Lemma FR_infinity : FR infinity = bpow emax.
Proof. reflexivity. Qed.

Lemma leb_infinity (x : float) : is_nan x = false -> (x <=? infinity)%float = true.
Proof.
  intros Hx. apply leb_FR; [assumption | reflexivity |].
  rewrite FR_infinity. apply FR_le_max.
Qed.

Lemma nonneg_FR (x : float) : (0 <=? x)%float = true -> 0 <= FR x.
Proof.
  intros H. destruct (leb_not_nan _ _ H) as [_ Hx].
  apply leb_FR in H; [|reflexivity|assumption].
  replace (FR 0) with 0 in H; [exact H|]. unfold FR. rewrite Prim2SF_zero. reflexivity.
Qed.

Lemma rounds_FR (x : float) : finite_nonneg x -> rounds (FR x) (FR x).
Proof.
  unfold finite_nonneg, FR. intros H. assert (Hv := Prim2SF_valid x).
  destruct (Prim2SF x) as [s|[]| |[] m e]; try destruct H.
  - apply rounds_0.
  - rewrite B2R_finite. unfold signR. rewrite Rmult_1_l. now apply rounds_exact.
Qed.

(** Below a finite non-negative float there are only finite ones. *)
Lemma le_finite_nonneg (x y : float) :
  (0 <=? x)%float = true -> (x <=? y)%float = true -> finite_nonneg y ->
  finite_nonneg x.
Proof.
  intros H0 Hxy Hy. destruct (nonneg_split x H0) as [Hfin | ->]; [assumption|].
  destruct (finite_nonneg_facts y Hy) as (Hn & _ & _ & Hlt).
  apply leb_FR in Hxy; [|reflexivity|assumption].
  rewrite FR_infinity in Hxy. lra.
Qed.

Lemma rounded_to_result (v : R) (r : float) :
  rounded_to false v (Prim2SF r) -> result_rounds v r.
Proof.
  intros (Hv & Hs & rho & Hr & Hb). unfold result_rounds, FR.
  rewrite Hb. unfold signR. rewrite Rmult_1_l. split; [|exact Hr].
  rewrite FloatAxioms.leb_spec, Prim2SF_zero.
  destruct (Prim2SF r) as [s|s| |s m e]; simpl in Hs; try contradiction; subst;
    reflexivity.
Qed.

Lemma result_rounds_zero (v : R) (r : float) (s : bool) :
  v = 0 -> Prim2SF r = S754_zero s -> result_rounds v r.
Proof.
  intros -> E. unfold result_rounds, FR.
  rewrite FloatAxioms.leb_spec, Prim2SF_zero, E. split; [reflexivity | apply rounds_0].
Qed.

Tactic Notation "float_shape" constr(x) ident(s) ident(m) ident(e) :=
  let E := fresh "E" x in
  let V := fresh "V" x in
  assert (V := Prim2SF_valid x);
  unfold finite_nonneg, finite_pos, FR in *;
  destruct (Prim2SF x) as [s|[]| |[] m e] eqn:E;
  try match goal with H : False |- _ => destruct H end.

Lemma valid_canonical (s : bool) (m : positive) (e : Z) :
  valid_binary (S754_finite s m e) = true -> canonical_mantissa prec emax m e = true.
Proof.
  unfold SpecFloat.valid_binary, bounded. intros H. now apply andb_prop in H as [H _].
Qed.

Lemma mul_value (x y : float) :
  finite_nonneg x -> finite_nonneg y -> result_rounds (FR x * FR y) (x * y).
Proof.
  intros Hx Hy.
  assert (Hm := mul_spec x y).
  float_shape x sx mx ex; float_shape y sy my ey.
  - eapply result_rounds_zero; [|exact Hm]. cbn [B2R]. lra.
  - eapply result_rounds_zero; [|exact Hm]. cbn [B2R]. lra.
  - eapply result_rounds_zero; [|exact Hm]. cbn [B2R]. lra.
  - apply rounded_to_result. rewrite Hm, !B2R_finite. unfold signR. rewrite !Rmult_1_l.
    apply (SFmul_rounded false false); now apply valid_canonical with false.
Qed.

Lemma add_value (x y : float) :
  finite_nonneg x -> finite_nonneg y -> result_rounds (FR x + FR y) (x + y).
Proof.
  intros Hx Hy.
  assert (Ha := add_spec x y).
  float_shape x sx mx ex; float_shape y sy my ey.
  - eapply (result_rounds_zero _ _ (if Bool.eqb sx sy then sx else false));
      [cbn [B2R]; lra|].
    rewrite Ha. now destruct sx, sy.
  - split.
    + rewrite FloatAxioms.leb_spec, Prim2SF_zero, Ha. reflexivity.
    + unfold FR. rewrite Ha. cbn [SF64add SFadd]. rewrite B2R_finite. unfold signR.
      cbn [B2R]. rewrite Rplus_0_l, Rmult_1_l. now apply rounds_exact.
  - split.
    + rewrite FloatAxioms.leb_spec, Prim2SF_zero, Ha. reflexivity.
    + unfold FR. rewrite Ha. cbn [SF64add SFadd]. rewrite B2R_finite. unfold signR.
      cbn [B2R]. rewrite Rplus_0_r, Rmult_1_l. now apply rounds_exact.
  - apply rounded_to_result. rewrite Ha, !B2R_finite. unfold signR. rewrite !Rmult_1_l.
    apply SFadd_rounded.
Qed.

Lemma div_value (x c : float) :
  finite_nonneg x -> finite_pos c -> result_rounds (FR x / FR c) (x / c).
Proof.
  intros Hx Hc.
  assert (Hd := div_spec x c).
  float_shape x sx mx ex; float_shape c sc mc ec.
  - eapply result_rounds_zero; [|exact Hd]. cbn [B2R]. lra.
  - apply rounded_to_result. rewrite Hd, !B2R_finite. unfold signR. rewrite !Rmult_1_l.
    apply (SFdiv_rounded false false).
Qed.

Lemma sqrt_value (x : float) :
  finite_nonneg x -> result_rounds (sqrt (FR x)) (PrimFloat.sqrt x).
Proof.
  intros Hx.
  assert (Hs := sqrt_spec x).
  float_shape x sx mx ex.
  - eapply result_rounds_zero; [|exact Hs]. cbn [B2R]. apply sqrt_0.
  - apply rounded_to_result. rewrite Hs, !B2R_finite. unfold signR. rewrite !Rmult_1_l.
    apply SFsqrt_rounded.
Qed.

(** *** Monotone operations on non-negative floats *)

Lemma result_rounds_mono (v1 v2 : R) (r1 r2 : float) :
  result_rounds v1 r1 -> result_rounds v2 r2 -> v1 <= v2 ->
  (r1 <=? r2)%float = true.
Proof.
  intros [H1 Hr1] [H2 Hr2] Hv.
  destruct (leb_not_nan _ _ H1) as [_ Hn1]. destruct (leb_not_nan _ _ H2) as [_ Hn2].
  apply leb_FR; [assumption | assumption |]. now apply (rounds_mono v1 v2).
Qed.

Lemma leb_trans (x y z : float) :
  (x <=? y)%float = true -> (y <=? z)%float = true -> (x <=? z)%float = true.
Proof.
  intros Hxy Hyz.
  destruct (leb_not_nan _ _ Hxy) as [Hx Hy]. destruct (leb_not_nan _ _ Hyz) as [_ Hz].
  apply leb_FR in Hxy, Hyz; try assumption. apply leb_FR; try assumption. lra.
Qed.

Lemma leb_refl (x : float) : is_nan x = false -> (x <=? x)%float = true.
Proof. intros Hx. apply leb_FR; try assumption. lra. Qed.

Lemma leb_or_ltb (x y : float) :
  is_nan x = false -> is_nan y = false ->
  (x <=? y)%float = true \/ (y <? x)%float = true.
Proof.
  intros Hx Hy. destruct (Rle_or_lt (FR x) (FR y)) as [H|H].
  - left. now apply leb_FR.
  - right. now apply ltb_FR.
Qed.

Lemma ltb_leb_false (x y : float) :
  (x <=? y)%float = true -> (y <? x)%float = false.
Proof.
  intros H. destruct (leb_not_nan _ _ H) as [Hx Hy].
  apply leb_FR in H; try assumption.
  destruct (y <? x)%float eqn:E; [|reflexivity].
  apply ltb_FR in E; try assumption. lra.
Qed.

Lemma finite_nonneg_below (x k : float) :
  (0 <=? x)%float = true -> (x <=? k)%float = true -> is_finite k = true ->
  finite_nonneg x.
Proof.
  intros H0 Hxk Hk. destruct (nonneg_split x H0) as [Hfin | ->]; [assumption|].
  exfalso. destruct (leb_not_nan _ _ Hxk) as [_ Hn].
  apply leb_FR in Hxk; [|reflexivity|assumption]. rewrite FR_infinity in Hxk.
  assert (Hle := FR_le_max k). assert (E : FR k = bpow emax) by lra.
  unfold is_finite, is_infinity in Hk. rewrite Hn in Hk. simpl in Hk.
  apply negb_true_iff in Hk.
  rewrite FloatAxioms.eqb_spec, abs_spec, Prim2SF_infinity in Hk.
  unfold FR in E. assert (Hv := Prim2SF_valid k). assert (Hmax := bpow_pos emax).
  destruct (Prim2SF k) as [s|[]| |s m e]; cbn [B2R] in E; try lra; try discriminate.
  destruct (valid_finite_bounds _ _ _ Hv).
  change (F2R (cond_Zopp s (Z.pos m)) e) with (B2R (S754_finite s m e)) in E.
  rewrite B2R_finite in E. unfold signR in E. destruct s; lra.
Qed.

Lemma mul_mono (x1 x2 y1 y2 : float) :
  (0 <=? x1)%float = true -> (x1 <=? x2)%float = true -> finite_nonneg x2 ->
  (0 <=? y1)%float = true -> (y1 <=? y2)%float = true -> finite_nonneg y2 ->
  (0 <=? x1 * y1)%float = true /\ (x1 * y1 <=? x2 * y2)%float = true.
Proof.
  intros Hx0 Hx Hx2 Hy0 Hy Hy2.
  assert (Hx1 := le_finite_nonneg _ _ Hx0 Hx Hx2).
  assert (Hy1 := le_finite_nonneg _ _ Hy0 Hy Hy2).
  assert (H1 := mul_value x1 y1 Hx1 Hy1). assert (H2 := mul_value x2 y2 Hx2 Hy2).
  split; [apply H1|]. apply (result_rounds_mono _ _ _ _ H1 H2).
  apply nonneg_FR in Hx0, Hy0.
  destruct (leb_not_nan _ _ Hx). destruct (leb_not_nan _ _ Hy).
  apply leb_FR in Hx, Hy; try assumption. nra.
Qed.

Lemma add_mono (x1 x2 y1 y2 : float) :
  (0 <=? x1)%float = true -> (x1 <=? x2)%float = true -> finite_nonneg x2 ->
  (0 <=? y1)%float = true -> (y1 <=? y2)%float = true -> finite_nonneg y2 ->
  (0 <=? x1 + y1)%float = true /\ (x1 + y1 <=? x2 + y2)%float = true.
Proof.
  intros Hx0 Hx Hx2 Hy0 Hy Hy2.
  assert (Hx1 := le_finite_nonneg _ _ Hx0 Hx Hx2).
  assert (Hy1 := le_finite_nonneg _ _ Hy0 Hy Hy2).
  assert (H1 := add_value x1 y1 Hx1 Hy1). assert (H2 := add_value x2 y2 Hx2 Hy2).
  split; [apply H1|]. apply (result_rounds_mono _ _ _ _ H1 H2).
  destruct (leb_not_nan _ _ Hx). destruct (leb_not_nan _ _ Hy).
  apply leb_FR in Hx, Hy; try assumption. lra.
Qed.

Lemma div_mono (x1 x2 c : float) :
  (0 <=? x1)%float = true -> (x1 <=? x2)%float = true -> finite_nonneg x2 ->
  finite_pos c ->
  (0 <=? x1 / c)%float = true /\ (x1 / c <=? x2 / c)%float = true.
Proof.
  intros Hx0 Hx Hx2 Hc.
  assert (Hx1 := le_finite_nonneg _ _ Hx0 Hx Hx2).
  assert (H1 := div_value x1 c Hx1 Hc). assert (H2 := div_value x2 c Hx2 Hc).
  split; [apply H1|]. apply (result_rounds_mono _ _ _ _ H1 H2).
  destruct (leb_not_nan _ _ Hx).
  apply leb_FR in Hx; try assumption.
  destruct (finite_pos_facts c Hc) as [Hc0 _].
  apply Rmult_le_compat_r; [|exact Hx]. apply Rlt_le, Rinv_0_lt_compat, Hc0.
Qed.

Lemma sqrt_mono (x1 x2 : float) :
  (0 <=? x1)%float = true -> (x1 <=? x2)%float = true -> finite_nonneg x2 ->
  (0 <=? PrimFloat.sqrt x1)%float = true
  /\ (PrimFloat.sqrt x1 <=? PrimFloat.sqrt x2)%float = true.
Proof.
  intros Hx0 Hx Hx2.
  assert (Hx1 := le_finite_nonneg _ _ Hx0 Hx Hx2).
  assert (H1 := sqrt_value x1 Hx1). assert (H2 := sqrt_value x2 Hx2).
  split; [apply H1|]. apply (result_rounds_mono _ _ _ _ H1 H2).
  destruct (leb_not_nan _ _ Hx).
  apply leb_FR in Hx; try assumption. now apply sqrt_le_1_alt.
Qed.

(** *** Infinite and NaN operands *)

Lemma is_nan_false_spec (x : float) : is_nan x = false <-> Prim2SF x <> S754_nan.
Proof.
  rewrite <- is_nan_spec. destruct (is_nan x); split; congruence.
Qed.

Lemma nonneg_not_nan (x : float) : (0 <=? x)%float = true -> is_nan x = false.
Proof. intros H. now destruct (leb_not_nan _ _ H). Qed.

Lemma ltb_leb (x y : float) : (x <? y)%float = true -> (x <=? y)%float = true.
Proof.
  intros H. destruct (ltb_not_nan _ _ H) as [Hx Hy].
  apply ltb_FR in H; try assumption. apply leb_FR; try assumption. lra.
Qed.

Lemma infinity_nonneg : (0 <=? infinity)%float = true.
Proof. reflexivity. Qed.

Lemma mul_infinity : (infinity * infinity = infinity)%float.
Proof. reflexivity. Qed.

Lemma add_infinity_l (y : float) :
  (0 <=? y)%float = true -> (infinity + y = infinity)%float.
Proof.
  intros H. apply Prim2SF_inj. rewrite add_spec, Prim2SF_infinity.
  rewrite FloatAxioms.leb_spec, Prim2SF_zero in H.
  destruct (Prim2SF y) as [s|[]| |[] m e]; try discriminate; reflexivity.
Qed.

Lemma add_infinity_r (x : float) :
  (0 <=? x)%float = true -> (x + infinity = infinity)%float.
Proof.
  intros H. apply Prim2SF_inj. rewrite add_spec, Prim2SF_infinity.
  rewrite FloatAxioms.leb_spec, Prim2SF_zero in H.
  destruct (Prim2SF x) as [s|[]| |[] m e]; try discriminate; reflexivity.
Qed.

Lemma div_infinity (c : float) : finite_pos c -> (infinity / c = infinity)%float.
Proof.
  intros H. apply Prim2SF_inj. rewrite div_spec, Prim2SF_infinity.
  unfold finite_pos in H.
  destruct (Prim2SF c) as [s|[]| |[] m e]; try destruct H; reflexivity.
Qed.

Lemma sqrt_infinity : PrimFloat.sqrt infinity = infinity.
Proof. reflexivity. Qed.

Lemma sub_infinity (x : float) :
  finite_nonneg x -> (0 <? x - infinity)%float = false.
Proof.
  intros H. rewrite FloatAxioms.ltb_spec, sub_spec, Prim2SF_zero, Prim2SF_infinity.
  unfold finite_nonneg in H.
  destruct (Prim2SF x) as [s|[]| |[] m e]; try destruct H; reflexivity.
Qed.

Lemma add_nan_r (x y : float) : is_nan y = true -> is_nan (x + y) = true.
Proof.
  rewrite !is_nan_spec, add_spec. intros ->. now destruct (Prim2SF x).
Qed.

Lemma add_nan_l (x y : float) : is_nan x = true -> is_nan (x + y) = true.
Proof. rewrite !is_nan_spec, add_spec. now intros ->. Qed.

Lemma mul_nan_r (x y : float) : is_nan y = true -> is_nan (x * y) = true.
Proof.
  rewrite !is_nan_spec, mul_spec. intros ->. now destruct (Prim2SF x).
Qed.

Lemma ltb_nan_l (x y : float) : is_nan x = true -> (x <? y)%float = false.
Proof. rewrite is_nan_spec, FloatAxioms.ltb_spec. now intros ->. Qed.

Lemma ltb_nan_r (x y : float) : is_nan y = true -> (x <? y)%float = false.
Proof.
  rewrite is_nan_spec, FloatAxioms.ltb_spec. intros ->. unfold SFltb.
  now destruct (Prim2SF x).
Qed.

Lemma round_nan (x : float) (ndigits : Z) : is_nan x = true -> round x ndigits = x.
Proof. rewrite is_nan_spec. unfold round. now intros ->. Qed.

Lemma sqrt_nan (x : float) : is_nan x = true -> is_nan (PrimFloat.sqrt x) = true.
Proof. rewrite !is_nan_spec, sqrt_spec. now intros ->. Qed.

Lemma div_nan (x c : float) : is_nan x = true -> is_nan (x / c) = true.
Proof. rewrite !is_nan_spec, div_spec. now intros ->. Qed.

Lemma sub_nan (x y : float) : is_nan y = true -> (0 <? x - y)%float = false.
Proof.
  rewrite is_nan_spec, FloatAxioms.ltb_spec, sub_spec. intros ->.
  now destruct (Prim2SF x).
Qed.

(** The same monotonicity with [+inf] allowed. *)
Lemma square_mono (a1 a2 : float) :
  (0 <=? a1)%float = true -> (a1 <=? a2)%float = true ->
  (0 <=? a1 * a1)%float = true /\ (a1 * a1 <=? a2 * a2)%float = true.
Proof.
  intros H0 H.
  assert (H2 : (0 <=? a2)%float = true) by (apply (leb_trans _ a1); assumption).
  destruct (nonneg_split a2 H2) as [Hf | ->].
  - now apply mul_mono.
  - rewrite mul_infinity.
    assert (Hn : (0 <=? a1 * a1)%float = true).
    { destruct (nonneg_split a1 H0) as [Hf | ->]; [|reflexivity].
      apply (mul_value a1 a1 Hf Hf). }
    split; [exact Hn|]. apply leb_infinity. now apply nonneg_not_nan.
Qed.

Lemma add_nonneg_leb (x y : float) :
  (0 <=? x)%float = true -> (0 <=? y)%float = true -> (0 <=? x + y)%float = true.
Proof.
  intros Hx Hy.
  destruct (nonneg_split x Hx) as [Hfx | ->];
    [|rewrite add_infinity_l by assumption; reflexivity].
  destruct (nonneg_split y Hy) as [Hfy | ->];
    [|rewrite add_infinity_r by assumption; reflexivity].
  apply (add_value x y Hfx Hfy).
Qed.

Lemma add_mono_l (x1 x2 y : float) :
  (0 <=? x1)%float = true -> (x1 <=? x2)%float = true -> (0 <=? y)%float = true ->
  (x1 + y <=? x2 + y)%float = true.
Proof.
  intros H0 H Hy.
  assert (H2 : (0 <=? x2)%float = true) by (apply (leb_trans _ x1); assumption).
  assert (Hn := nonneg_not_nan _ (add_nonneg_leb x1 y H0 Hy)).
  destruct (nonneg_split y Hy) as [Hfy | ->].
  - destruct (nonneg_split x2 H2) as [Hf | ->].
    + apply add_mono; try assumption. now apply leb_refl, nonneg_not_nan.
    + rewrite add_infinity_l by assumption. now apply leb_infinity.
  - rewrite (add_infinity_r x2) by assumption. now apply leb_infinity.
Qed.

Lemma add_mono_r (x y1 y2 : float) :
  (0 <=? x)%float = true -> (0 <=? y1)%float = true -> (y1 <=? y2)%float = true ->
  (x + y1 <=? x + y2)%float = true.
Proof.
  intros Hx H0 H.
  assert (H2 : (0 <=? y2)%float = true) by (apply (leb_trans _ y1); assumption).
  assert (Hn := nonneg_not_nan _ (add_nonneg_leb x y1 Hx H0)).
  destruct (nonneg_split x Hx) as [Hfx | ->].
  - destruct (nonneg_split y2 H2) as [Hf | ->].
    + apply add_mono; try assumption. now apply leb_refl, nonneg_not_nan.
    + rewrite add_infinity_r by assumption. now apply leb_infinity.
  - rewrite (add_infinity_l y2) by assumption. now apply leb_infinity.
Qed.

Lemma sqrt_mono_nonneg (x1 x2 : float) :
  (0 <=? x1)%float = true -> (x1 <=? x2)%float = true ->
  (0 <=? PrimFloat.sqrt x1)%float = true
  /\ (PrimFloat.sqrt x1 <=? PrimFloat.sqrt x2)%float = true.
Proof.
  intros H0 H.
  assert (H2 : (0 <=? x2)%float = true) by (apply (leb_trans _ x1); assumption).
  destruct (nonneg_split x2 H2) as [Hf | ->].
  - now apply sqrt_mono.
  - rewrite sqrt_infinity.
    assert (Hn : (0 <=? PrimFloat.sqrt x1)%float = true).
    { destruct (nonneg_split x1 H0) as [Hf | ->]; [|reflexivity].
      apply (sqrt_value x1 Hf). }
    split; [exact Hn|]. apply leb_infinity. now apply nonneg_not_nan.
Qed.

Lemma div_mono_nonneg (x1 x2 c : float) :
  (0 <=? x1)%float = true -> (x1 <=? x2)%float = true -> finite_pos c ->
  (0 <=? x1 / c)%float = true /\ (x1 / c <=? x2 / c)%float = true.
Proof.
  intros H0 H Hc.
  assert (H2 : (0 <=? x2)%float = true) by (apply (leb_trans _ x1); assumption).
  destruct (nonneg_split x2 H2) as [Hf | ->].
  - now apply div_mono.
  - rewrite (div_infinity c Hc).
    assert (Hn : (0 <=? x1 / c)%float = true).
    { destruct (nonneg_split x1 H0) as [Hf | ->].
      - apply (div_value x1 c Hf Hc).
      - now rewrite div_infinity. }
    split; [exact Hn|]. apply leb_infinity. now apply nonneg_not_nan.
Qed.

(** *** Subtraction from a finite float, [max] and [min] *)

Lemma negative_not_pos (x : spec_float) :
  has_sign true x -> SFltb (S754_zero false) x = false.
Proof. destruct x as [s|s| |s m e]; simpl; try contradiction; now intros ->. Qed.

Lemma sub_value (x z : float) :
  finite_nonneg x -> finite_nonneg z ->
  (0 < FR x - FR z -> result_rounds (FR x - FR z) (x - z))
  /\ (FR x - FR z <= 0 -> (0 <? x - z)%float = false).
Proof.
  intros Hx Hz.
  assert (Hs := sub_spec x z).
  rewrite FloatAxioms.ltb_spec, Prim2SF_zero, Hs.
  float_shape x sx mx ex; float_shape z sz mz ez; cbn [B2R cond_Zopp] in *.
  - split; [lra|]. intros _. now destruct sx, sz.
  - split.
    + destruct (valid_finite_bounds _ _ _ Vz). lra.
    + reflexivity.
  - split; [|destruct (valid_finite_bounds _ _ _ Vx); lra].
    intros _. split.
    + rewrite FloatAxioms.leb_spec, Prim2SF_zero, Hs. reflexivity.
    + unfold FR. rewrite Hs. cbn [SF64sub SFsub]. rewrite Rminus_0_r.
      rewrite B2R_finite. unfold signR. rewrite Rmult_1_l. now apply rounds_exact.
  - destruct (SFsub_finite mx mz ex ez) as (Hpos & Hzero & Hneg).
    split.
    + intros H. apply rounded_to_result. rewrite Hs. now apply Hpos.
    + intros [H|H].
      * destruct (Hneg H) as (_ & Hsg & _). now apply negative_not_pos.
      * now rewrite (Hzero H).
Qed.

Lemma max0_nonneg (y : float) : (0 <=? Py.max 0 y)%float = true.
Proof.
  unfold Py.max. destruct (0 <? y)%float eqn:E; [now apply ltb_leb | reflexivity].
Qed.

Lemma max0_mono (y1 y2 : float) :
  (y1 <=? y2)%float = true -> (Py.max 0 y1 <=? Py.max 0 y2)%float = true.
Proof.
  intros H. destruct (leb_not_nan _ _ H) as [H1 H2]. unfold Py.max.
  destruct (0 <? y1)%float eqn:E1; destruct (0 <? y2)%float eqn:E2.
  - exact H.
  - exfalso. apply leb_FR in H; try assumption.
    apply ltb_FR in E1; [|reflexivity|assumption].
    destruct (leb_or_ltb y2 0 H2 eq_refl) as [Hle|Hlt]; [|congruence].
    apply leb_FR in Hle; [|assumption|reflexivity]. lra.
  - now apply ltb_leb.
  - reflexivity.
Qed.

(** [max(0, x - z)] falls as [z] grows. *)
Lemma max0_sub_anti (x z1 z2 : float) :
  finite_nonneg x ->
  (0 <=? z1)%float = true -> (z1 <=? z2)%float = true ->
  (Py.max 0 (x - z2) <=? Py.max 0 (x - z1))%float = true.
Proof.
  intros Hx H0 H.
  assert (H2 : (0 <=? z2)%float = true) by (apply (leb_trans _ z1); assumption).
  assert (Hzero : forall z, (0 <? x - z)%float = false ->
                            (Py.max 0 (x - z) <=? Py.max 0 (x - z1))%float = true).
  { intros z E. unfold Py.max at 1. rewrite E. apply max0_nonneg. }
  destruct (nonneg_split z2 H2) as [Hf2 | ->]; [|now apply Hzero, sub_infinity].
  assert (Hf1 := le_finite_nonneg _ _ H0 H Hf2).
  destruct (sub_value x z2 Hx Hf2) as [Hpos2 Hneg2].
  destruct (sub_value x z1 Hx Hf1) as [Hpos1 _].
  destruct (leb_not_nan _ _ H). apply leb_FR in H; try assumption.
  destruct (Rle_or_lt (FR x - FR z2) 0) as [Hle|Hlt]; [now apply Hzero, Hneg2|].
  apply max0_mono.
  apply (result_rounds_mono (FR x - FR z2) (FR x - FR z1)); [auto | apply Hpos1; lra | lra].
Qed.

Lemma max0_sub_nan (x z : float) : is_nan z = true -> Py.max 0 (x - z) = 0%float.
Proof. intros H. unfold Py.max. now rewrite sub_nan. Qed.

Lemma bpow_opp (e : Z) : bpow (- e) = / bpow e.
Proof.
  assert (H := bpow_add (- e) e). replace (- e + e)%Z with 0%Z in H by lia.
  rewrite bpow_0 in H. assert (Hp := bpow_pos e).
  apply Rmult_eq_reg_r with (bpow e); [|lra]. rewrite <- H. field. lra.
Qed.

Lemma FR_0 : FR 0 = 0.
Proof. unfold FR. now rewrite Prim2SF_zero. Qed.

Lemma FR_1 : FR 1 = 1.
Proof.
  unfold FR. change (Prim2SF 1) with (S754_finite false 4503599627370496 (-52)).
  rewrite B2R_finite. unfold signR, F2R.
  change (-52)%Z with (Z.opp 52). rewrite bpow_opp, (bpow_IZR 52) by lia.
  change (2 ^ 52)%Z with 4503599627370496%Z. field.
Qed.

(** [clamp] keeps a non-NaN float within the bounds and is monotone. *)
Lemma clamp_01_FR (x : float) :
  is_nan x = false ->
  is_nan (clamp x 0 1) = false /\ FR (clamp x 0 1) = Rmin (Rmax (FR x) 0) 1.
Proof.
  intros Hx. unfold clamp.
  destruct (x <? 0)%float eqn:E0.
  { apply ltb_FR in E0; [|assumption|reflexivity]. rewrite FR_0 in *.
    split; [reflexivity|]. unfold Rmin, Rmax. repeat destruct (Rle_dec _ _); lra. }
  destruct (1 <? x)%float eqn:E1.
  { apply ltb_FR in E1; [|reflexivity|assumption]. rewrite FR_1 in *.
    split; [reflexivity|]. unfold Rmin, Rmax. repeat destruct (Rle_dec _ _); lra. }
  destruct (leb_or_ltb 0 x eq_refl Hx) as [H|H]; [|congruence].
  destruct (leb_or_ltb x 1 Hx eq_refl) as [H'|H']; [|congruence].
  apply leb_FR in H, H'; try assumption; try reflexivity.
  rewrite FR_0 in H. rewrite FR_1 in H'.
  split; [assumption|]. unfold Rmin, Rmax. repeat destruct (Rle_dec _ _); lra.
Qed.

Lemma clamp_01_spec (x : float) :
  is_nan x = false ->
  (0 <=? clamp x 0 1)%float = true /\ (clamp x 0 1 <=? 1)%float = true.
Proof.
  intros Hx. destruct (clamp_01_FR x Hx) as [Hn E].
  split; (apply leb_FR; [assumption || reflexivity | assumption || reflexivity |]);
    rewrite E, ?FR_0, ?FR_1; unfold Rmin, Rmax; repeat destruct (Rle_dec _ _); lra.
Qed.

Lemma clamp_01_mono (x1 x2 : float) :
  (x1 <=? x2)%float = true -> (clamp x1 0 1 <=? clamp x2 0 1)%float = true.
Proof.
  intros H. destruct (leb_not_nan _ _ H) as [H1 H2].
  destruct (clamp_01_FR x1 H1) as [Hn1 E1]. destruct (clamp_01_FR x2 H2) as [Hn2 E2].
  apply leb_FR in H; try assumption.
  apply leb_FR; try assumption. rewrite E1, E2.
  unfold Rmin, Rmax; repeat destruct (Rle_dec _ _); lra.
Qed.

(** A quotient by a positive finite float keeps the order and is NaN only
    on a NaN dividend. *)
Lemma div_negative (x c : float) :
  (x <? 0)%float = true -> finite_pos c ->
  is_nan (x / c) = false /\ FR (x / c) <= 0.
Proof.
  intros Hx Hc. rewrite FloatAxioms.ltb_spec, Prim2SF_zero in Hx.
  assert (Hd := div_spec x c). assert (Hmax := bpow_pos emax).
  rewrite is_nan_false_spec. unfold FR. rewrite Hd. unfold finite_pos in Hc.
  destruct (Prim2SF c) as [s|[]| |[] mc ec]; try contradiction.
  destruct (Prim2SF x) as [s|[]| |[] mx ex]; try discriminate.
  - cbn [SF64div SFdiv xorb B2R]. split; [discriminate | lra].
  - destruct (SFdiv_rounded true false mx mc ex ec) as (_ & Hs & r & Hr & Hb).
    cbn [xorb] in *. split.
    + intros E. rewrite E in Hs. exact Hs.
    + rewrite Hb. apply rounds_nonneg in Hr. unfold signR. lra.
Qed.

Lemma div_clamp_mono (c1 c2 k : float) :
  (c1 <=? c2)%float = true -> finite_pos k ->
  (clamp (c1 / k) 0 1 <=? clamp (c2 / k) 0 1)%float = true.
Proof.
  intros H Hk. destruct (leb_not_nan _ _ H) as [H1 H2].
  destruct (leb_or_ltb 0 c1 eq_refl H1) as [Hpos|Hneg].
  - apply clamp_01_mono. now apply div_mono_nonneg.
  - destruct (div_negative c1 k Hneg Hk) as [Hn Hle].
    assert (Hn2 : is_nan (c2 / k) = false).
    { destruct (leb_or_ltb 0 c2 eq_refl H2) as [Hp2|Hn2].
      - apply nonneg_not_nan.
        now destruct (div_mono_nonneg c2 c2 k Hp2 (leb_refl _ H2) Hk).
      - now apply div_negative. }
    destruct (clamp_01_FR _ Hn) as [Hc1 E1]. destruct (clamp_01_FR _ Hn2) as [Hc2 E2].
    apply leb_FR; try assumption. rewrite E1, E2.
    unfold Rmin, Rmax; repeat destruct (Rle_dec _ _); lra.
Qed.

(** *** Python's [round] *)

Local Open Scope Z_scope.

Lemma round_half_even_exact (a den : Z) : 0 < den -> round_half_even (a * den) den = a.
Proof.
  intros Hd. unfold round_half_even.
  rewrite Z.mod_mul by lia. rewrite Z.div_mul by lia.
  assert (E : (2 * 0 ?= den) = Lt) by (apply Z.compare_lt_iff; lia).
  rewrite E. reflexivity.
Qed.

Lemma round_half_even_scale (c num den : Z) :
  0 < c -> 0 < den -> round_half_even (c * num) (c * den) = round_half_even num den.
Proof.
  intros Hc Hd. unfold round_half_even.
  rewrite Z.div_mul_cancel_l by lia. rewrite Z.mul_mod_distr_l by lia.
  assert (E : (2 * (c * (num mod den)) ?= c * den) = (2 * (num mod den) ?= den)).
  { set (r := num mod den).
    destruct (Z.compare_spec (2 * r) den) as [H|H|H].
    - apply Z.compare_eq_iff. nia.
    - apply Z.compare_lt_iff. nia.
    - apply Z.compare_gt_iff. nia. }
  rewrite E. reflexivity.
Qed.

Lemma round_half_even_mono (a b den : Z) :
  0 < den -> a <= b -> round_half_even a den <= round_half_even b den.
Proof.
  intros Hd Hab. unfold round_half_even.
  assert (Hq := Z.div_le_mono a b den Hd Hab).
  assert (Ha := Z.div_mod a den ltac:(lia)). assert (Hb := Z.div_mod b den ltac:(lia)).
  assert (Ra := Z.mod_pos_bound a den Hd). assert (Rb := Z.mod_pos_bound b den Hd).
  destruct (Z.eq_dec (a / den) (b / den)) as [E|E].
  - rewrite E in *. assert (a mod den <= b mod den) by lia.
    destruct (Z.compare_spec (2 * (a mod den)) den);
      destruct (Z.compare_spec (2 * (b mod den)) den);
      destruct (Z.even (b / den)); lia.
  - destruct (Z.compare_spec (2 * (a mod den)) den);
      destruct (Z.compare_spec (2 * (b mod den)) den);
      destruct (Z.even (a / den)); destruct (Z.even (b / den)); lia.
Qed.

Lemma round_half_even_nonneg (a den : Z) : 0 < den -> 0 <= a -> 0 <= round_half_even a den.
Proof.
  intros Hd Ha. rewrite <- (round_half_even_exact 0 den Hd).
  apply round_half_even_mono; lia.
Qed.

(** [decimal_digits] rounds the exact value [m * 2^e * 10^ndigits]: over a
    common power-of-two denominator it is one [round_half_even]. *)
Lemma decimal_digits_scaled (m : positive) (e ndigits E : Z) :
  0 <= E -> 0 <= e + E ->
  decimal_digits m e ndigits
  = round_half_even (Z.pos m * 2 ^ (e + E) * 10 ^ ndigits) (2 ^ E).
Proof.
  intros HE He.
  assert (Hp : 0 < 2 ^ E) by (apply Z.pow_pos_nonneg; lia).
  unfold decimal_digits. destruct e as [|p|p].
  - rewrite Z.add_0_l, Z.pow_0_r, Z.mul_1_r.
    replace (Z.pos m * 2 ^ E * 10 ^ ndigits) with (Z.pos m * 10 ^ ndigits * 2 ^ E) by ring.
    now rewrite round_half_even_exact.
  - rewrite Z.pow_add_r by lia.
    replace (Z.pos m * (2 ^ Z.pos p * 2 ^ E) * 10 ^ ndigits)
      with (Z.pos m * 2 ^ Z.pos p * 10 ^ ndigits * 2 ^ E) by ring.
    now rewrite round_half_even_exact.
  - assert (Hq : 0 < 2 ^ (Z.neg p + E)) by (apply Z.pow_pos_nonneg; lia).
    assert (Hr : 0 < 2 ^ Z.pos p) by (apply Z.pow_pos_nonneg; lia).
    replace (2 ^ E) with (2 ^ (Z.neg p + E) * 2 ^ Z.pos p).
    2:{ rewrite <- Z.pow_add_r by lia. f_equal. lia. }
    replace (Z.pos m * 2 ^ (Z.neg p + E) * 10 ^ ndigits)
      with (2 ^ (Z.neg p + E) * (Z.pos m * 10 ^ ndigits)) by ring.
    now rewrite round_half_even_scale.
Qed.

Local Close Scope Z_scope.

Lemma F2R_le_inv (m1 m2 e : Z) : F2R m1 e <= F2R m2 e -> (m1 <= m2)%Z.
Proof.
  intros H. destruct (Z_le_gt_dec m1 m2) as [|Hgt]; [assumption|].
  assert (Hlt : F2R m2 e < F2R m1 e); [|lra].
  unfold F2R. assert (He := bpow_pos e). apply Z.gt_lt, IZR_lt in Hgt. nra.
Qed.

Lemma decimal_digits_mono (m1 m2 : positive) (e1 e2 ndigits : Z) :
  (0 <= ndigits)%Z -> F2R (Z.pos m1) e1 <= F2R (Z.pos m2) e2 ->
  (0 <= decimal_digits m1 e1 ndigits <= decimal_digits m2 e2 ndigits)%Z.
Proof.
  intros Hn H.
  set (E := Z.max 0 (Z.max (- e1) (- e2))).
  assert (HE : (0 <= E)%Z) by (unfold E; lia).
  assert (H1 : (0 <= e1 + E)%Z) by (unfold E; lia).
  assert (H2 : (0 <= e2 + E)%Z) by (unfold E; lia).
  rewrite (decimal_digits_scaled m1 e1 ndigits E HE H1).
  rewrite (decimal_digits_scaled m2 e2 ndigits E HE H2).
  assert (Hp : (0 < 2 ^ E)%Z) by (apply Z.pow_pos_nonneg; lia).
  assert (Hp1 : (0 < 2 ^ (e1 + E))%Z) by (apply Z.pow_pos_nonneg; lia).
  assert (Ht : (0 < 10 ^ ndigits)%Z) by (apply Z.pow_pos_nonneg; lia).
  assert (Hm : (Z.pos m1 * 2 ^ (e1 + E) <= Z.pos m2 * 2 ^ (e2 + E))%Z).
  { apply (F2R_le_inv _ _ (- E)).
    replace (- E)%Z with (e1 - (e1 + E))%Z at 1 by lia.
    replace (- E)%Z with (e2 - (e2 + E))%Z by lia.
    now rewrite !F2R_shift by lia. }
  split.
  - apply round_half_even_nonneg; [assumption|]. apply Z.mul_nonneg_nonneg; lia.
  - apply round_half_even_mono; [assumption|]. apply Z.mul_le_mono_nonneg_r; lia.
Qed.

Lemma round_value (x : float) (ndigits : Z) :
  finite_pos x -> (0 <= ndigits)%Z ->
  result_rounds (IZR (decimal_of x ndigits) / IZR (10 ^ ndigits)) (round x ndigits).
Proof.
  intros Hx Hn. unfold round, decimal_of.
  assert (Ht : (0 < 10 ^ ndigits)%Z) by (apply Z.pow_pos_nonneg; lia).
  float_shape x sx mx ex.
  destruct (decimal_digits_mono mx mx ex ex ndigits Hn (Rle_refl _)) as [Hk _].
  destruct (decimal_digits mx ex ndigits) as [|k|k]; [| |lia].
  - apply (result_rounds_zero _ _ false); [|reflexivity].
    unfold Rdiv. simpl IZR. apply Rmult_0_l.
  - apply rounded_to_result.
    assert (Hr := SFdiv_rounded false false k (Z.to_pos (10 ^ ndigits)) 0 0).
    cbn [xorb] in Hr. rewrite Prim2SF_SF2Prim by apply Hr.
    unfold F2R in Hr. rewrite bpow_0, !Rmult_1_r, Z2Pos.id in Hr by assumption.
    exact Hr.
Qed.

Lemma finite_pos_F2R (x : float) :
  finite_pos x ->
  exists m e, Prim2SF x = S754_finite false m e /\ FR x = F2R (Z.pos m) e.
Proof.
  intros Hx. float_shape x sx mx ex. exists mx, ex. split; [reflexivity|].
  rewrite B2R_finite. unfold signR. lra.
Qed.

Lemma round_mono (x1 x2 : float) (ndigits : Z) :
  finite_pos x1 -> finite_pos x2 -> (x1 <=? x2)%float = true -> (0 <= ndigits)%Z ->
  (0 <=? round x1 ndigits)%float = true
  /\ (round x1 ndigits <=? round x2 ndigits)%float = true.
Proof.
  intros H1 H2 H Hn.
  assert (R1 := round_value x1 ndigits H1 Hn). assert (R2 := round_value x2 ndigits H2 Hn).
  split; [apply R1|]. apply (result_rounds_mono _ _ _ _ R1 R2).
  destruct (leb_not_nan _ _ H). apply leb_FR in H; try assumption.
  destruct (finite_pos_F2R x1 H1) as (m1 & e1 & E1 & F1).
  destruct (finite_pos_F2R x2 H2) as (m2 & e2 & E2 & F2).
  unfold decimal_of. rewrite E1, E2. rewrite F1, F2 in H.
  destruct (decimal_digits_mono m1 m2 e1 e2 ndigits Hn H) as [_ Hk].
  assert (Ht : (0 < 10 ^ ndigits)%Z) by (apply Z.pow_pos_nonneg; lia).
  apply IZR_lt in Ht. apply IZR_le in Hk.
  apply Rmult_le_compat_r; [|exact Hk]. apply Rlt_le, Rinv_0_lt_compat, Ht.
Qed.

End Rounding.

Import Rounding.

(** ** The scorer against the specification's formula *)

Lemma rank_table (method : string) :
  default 1%Z (METHOD_HIERARCHY !! method) = rank method.
Proof.
  unfold METHOD_HIERARCHY, rank.
  repeat match goal with
    | |- context [String.eqb method ?label] =>
        destruct (String.eqb_spec method label) as [->|?];
        [reflexivity | rewrite lookup_insert_ne by congruence]
    end.
  reflexivity.
Qed.

Lemma truediv_100 (x : float) : truediv x 100 = Ok (x / 100)%float.
Proof. reflexivity. Qed.

Lemma min_max_clamp (c : float) : Py.min (Py.max c 0) 1 = clamp c 0 1.
Proof.
  unfold Py.min, Py.max, clamp. destruct (c <? 0)%float; reflexivity.
Qed.

Lemma math_sqrt_sum_squares (a f : float) :
  math_sqrt (a * a + f * f) = Ok (PrimFloat.sqrt (a * a + f * f)).
Proof.
  unfold math_sqrt.
  rewrite nonneg_not_ltb; [reflexivity|].
  apply add_nonneg; apply mul_self_nonneg.
Qed.

(** The scorer computes the specification's pair, unless a square
    overflows. *)
Lemma calculate_data_quality_spec (method : string) (a f c : float) :
  calculate_data_quality method a f c
  = if raises (pow2 a) || raises (pow2 f) then Raise OverflowError
    else Ok (score_spec method a f c).
Proof.
  unfold calculate_data_quality, pow2.
  destruct (is_finite a && is_infinity (a * a)); [reflexivity|].
  destruct (is_finite f && is_infinity (f * f)); [reflexivity|].
  cbn [bind raises orb].
  rewrite math_sqrt_sum_squares. cbn [bind].
  rewrite !truediv_100. cbn [bind].
  rewrite min_max_clamp, rank_table.
  unfold score_spec, quality_score_spec, combined_uncertainty_spec, int_truediv.
  change (of_int 5) with 5%float.
  now rewrite (mul_comm 100).
Qed.

(** The scorer on the specification's examples, and a combined
    uncertainty above 100. *)
Example score_activity_based :
  calculate_data_quality "Activity-Based" 20 15 85 = Ok (80%float, 25%float).
Proof. vm_compute. reflexivity. Qed.

Example score_unknown_method :
  calculate_data_quality "Unknown-Method" 0 0 100 = Ok (68%float, 0%float).
Proof. vm_compute. reflexivity. Qed.

Example combined_uncertainty_unclamped :
  calculate_data_quality "Proxy Estimate" 100 100 0 = Ok (8%float, 141.42%float).
Proof. vm_compute. reflexivity. Qed.

(** ** Well-formed results *)

Lemma In_hierarchy_result (m : string) : In m hierarchy_labels -> In m result_labels.
Proof. intros H. apply in_or_app. now left. Qed.

(** The default branch hands back whatever label the caller supplied, and
    non-negative fields can give NaN emissions. *)
Lemma emissions_not_well_formed :
  (calculate_emissions "Franchises" (mkInputs ∅ (Some "Custom")) = Ok (0%float, "Custom")
   /\ ~ In "Custom" result_labels)
  /\ (exists e m,
        calculate_emissions "Upstream Transportation & Distribution"
          transport_overflow_record = Ok (e, m)
        /\ is_nan e = true).
Proof.
  split; [split|].
  - vm_compute. reflexivity.
  - vm_compute. intuition discriminate.
  - eexists; eexists. split; vm_compute; reflexivity.
Qed.

(** ** Monotonicity and range of the quality score *)

Lemma within_finite (x1 x2 k : float) :
  within x1 x2 k -> finite_nonneg x1 /\ finite_nonneg x2 /\ finite_nonneg k.
Proof.
  intros (H0 & H12 & H2k & Hk).
  assert (H02 : (0 <=? x2)%float = true) by (apply (leb_trans _ x1); assumption).
  assert (H0k : (0 <=? k)%float = true) by (apply (leb_trans _ x2); assumption).
  assert (Hfk : finite_nonneg k).
  { apply (finite_nonneg_below k k); try assumption. now apply leb_refl, nonneg_not_nan. }
  assert (Hf2 : finite_nonneg x2) by now apply (finite_nonneg_below x2 k).
  split; [|now split]. now apply (le_finite_nonneg x1 x2).
Qed.

Lemma within_mul (x1 x2 kx y1 y2 ky : float) :
  within x1 x2 kx -> within y1 y2 ky -> is_finite (kx * ky) = true ->
  within (x1 * y1) (x2 * y2) (kx * ky).
Proof.
  intros Hx Hy Hk.
  destruct (within_finite _ _ _ Hx) as (Fx1 & Fx2 & Fkx).
  destruct (within_finite _ _ _ Hy) as (Fy1 & Fy2 & Fky).
  destruct Hx as (Hx0 & Hx12 & Hx2k & _). destruct Hy as (Hy0 & Hy12 & Hy2k & _).
  assert (Hx02 : (0 <=? x2)%float = true) by (apply (leb_trans _ x1); assumption).
  assert (Hy02 : (0 <=? y2)%float = true) by (apply (leb_trans _ y1); assumption).
  destruct (mul_mono x1 x2 y1 y2) as [A B]; try assumption.
  destruct (mul_mono x2 kx y2 ky) as [_ C]; try assumption.
  repeat split; assumption.
Qed.

Lemma within_add (x1 x2 kx y1 y2 ky : float) :
  within x1 x2 kx -> within y1 y2 ky -> is_finite (kx + ky) = true ->
  within (x1 + y1) (x2 + y2) (kx + ky).
Proof.
  intros Hx Hy Hk.
  destruct (within_finite _ _ _ Hx) as (Fx1 & Fx2 & Fkx).
  destruct (within_finite _ _ _ Hy) as (Fy1 & Fy2 & Fky).
  destruct Hx as (Hx0 & Hx12 & Hx2k & _). destruct Hy as (Hy0 & Hy12 & Hy2k & _).
  assert (Hx02 : (0 <=? x2)%float = true) by (apply (leb_trans _ x1); assumption).
  assert (Hy02 : (0 <=? y2)%float = true) by (apply (leb_trans _ y1); assumption).
  destruct (add_mono x1 x2 y1 y2) as [A B]; try assumption.
  destruct (add_mono x2 kx y2 ky) as [_ C]; try assumption.
  repeat split; assumption.
Qed.

Lemma within_const (k : float) :
  (0 <=? k)%float = true -> is_finite k = true -> within k k k.
Proof.
  intros H0 Hk. assert (Hn := nonneg_not_nan k H0).
  repeat split; try assumption; now apply leb_refl.
Qed.

Lemma within_total (h1 h2 u1 u2 cs1 cs2 : float) :
  within h1 h2 1 -> within u1 u2 1 -> within cs1 cs2 1 ->
  within (total h1 u1 cs1) (total h2 u2 cs2) (total 1 1 1).
Proof.
  intros Hh Hu Hc. unfold total.
  apply within_mul; [now apply within_const | | reflexivity].
  apply within_add; [| | reflexivity].
  - apply within_add; [| | reflexivity].
    + apply within_mul; [now apply within_const | exact Hh | reflexivity].
    + apply within_mul; [now apply within_const | exact Hu | reflexivity].
  - apply within_mul; [now apply within_const | exact Hc | reflexivity].
Qed.

Lemma finite_pos_between (x k1 k2 : float) :
  (0 <? k1)%float = true -> (k1 <=? x)%float = true -> (x <=? k2)%float = true ->
  is_finite k2 = true -> finite_pos x.
Proof.
  intros Hk1 H1 H2 Hf.
  assert (H0 : (0 <=? x)%float = true) by (apply (leb_trans _ k1); [now apply ltb_leb|assumption]).
  assert (Hfx := finite_nonneg_below x k2 H0 H2 Hf).
  destruct (leb_not_nan _ _ H1) as [Hn1 Hnx].
  apply ltb_FR in Hk1; [|reflexivity|assumption]. apply leb_FR in H1; try assumption.
  rewrite FR_0 in Hk1.
  unfold finite_nonneg, finite_pos, FR in *.
  destruct (Prim2SF x) as [s|[]| |[] m e]; try contradiction; [|exact I].
  cbn [B2R] in H1. lra.
Qed.

(** The rounded total for sub-scores within their ranges. *)
Lemma rounded_total_mono (h1 h2 u1 u2 cs1 cs2 : float) :
  (0.2 <=? h1)%float = true -> within h1 h2 1 -> within u1 u2 1 -> within cs1 cs2 1 ->
  (8 <=? round (total h1 u1 cs1) 1)%float = true
  /\ (round (total h1 u1 cs1) 1 <=? round (total h2 u2 cs2) 1)%float = true
  /\ (round (total h2 u2 cs2) 1 <=? 100)%float = true.
Proof.
  intros Hlow Hh Hu Hc.
  assert (Hh' : within 0.2 h1 1).
  { destruct Hh as (? & ? & ? & ?). repeat split; try assumption; try reflexivity.
    apply (leb_trans _ h2); assumption. }
  assert (Hu' : within 0 u1 1).
  { destruct Hu as (? & ? & ? & ?). repeat split; try assumption; try reflexivity.
    apply (leb_trans _ u2); assumption. }
  assert (Hc' : within 0 cs1 1).
  { destruct Hc as (? & ? & ? & ?). repeat split; try assumption; try reflexivity.
    apply (leb_trans _ cs2); assumption. }
  destruct (within_total _ _ _ _ _ _ Hh' Hu' Hc') as (_ & Lo & _).
  destruct (within_total _ _ _ _ _ _ Hh Hu Hc) as (_ & Mid & Hi & Fin).
  assert (P0 : (0 <? total 0.2 0 0)%float = true) by reflexivity.
  assert (F1 : finite_pos (total h1 u1 cs1)).
  { apply (finite_pos_between (total h1 u1 cs1) (total 0.2 0 0) (total 1 1 1) P0 Lo);
      [|exact Fin].
    apply (leb_trans _ (total h2 u2 cs2)); assumption. }
  assert (F2 : finite_pos (total h2 u2 cs2)).
  { apply (finite_pos_between (total h2 u2 cs2) (total 0.2 0 0) (total 1 1 1) P0);
      [|exact Hi|exact Fin].
    apply (leb_trans _ (total h1 u1 cs1)); assumption. }
  assert (Fmin : finite_pos (total 0.2 0 0)) by exact I.
  assert (Fmax : finite_pos (total 1 1 1)) by exact I.
  destruct (round_mono (total 0.2 0 0) (total h1 u1 cs1) 1 Fmin F1 Lo ltac:(lia)) as [_ R1].
  destruct (round_mono _ _ 1 F1 F2 Mid ltac:(lia)) as [_ R2].
  destruct (round_mono (total h2 u2 cs2) (total 1 1 1) 1 F2 Fmax Hi ltac:(lia)) as [_ R3].
  split; [|split]; [|exact R2|].
  - apply (leb_trans _ (round (total 0.2 0 0) 1)); [reflexivity | exact R1].
  - apply (leb_trans _ (round (total 1 1 1) 1)); [exact R3 | reflexivity].
Qed.

Lemma finite_pos_100 : finite_pos 100.
Proof. exact I. Qed.

Lemma finite_nonneg_1 : finite_nonneg 1.
Proof. exact I. Qed.

Lemma uncertainty_score_nan (cu : float) :
  is_nan cu = true -> uncertainty_score cu = 0%float.
Proof. intros H. apply max0_sub_nan. now apply div_nan. Qed.

Lemma uncertainty_score_anti (cu1 cu2 : float) :
  (0 <=? cu1)%float = true -> (cu1 <=? cu2)%float = true ->
  (uncertainty_score cu2 <=? uncertainty_score cu1)%float = true.
Proof.
  intros H0 H. unfold uncertainty_score.
  destruct (div_mono_nonneg cu1 cu2 100 H0 H finite_pos_100) as [A B].
  now apply max0_sub_anti.
Qed.

Lemma uncertainty_score_range (cu : float) :
  nonneg_or_nan cu = true -> within (uncertainty_score cu) (uncertainty_score cu) 1.
Proof.
  intros H.
  assert (L : (0 <=? uncertainty_score cu)%float = true) by apply max0_nonneg.
  assert (N := nonneg_not_nan _ L).
  repeat split; try assumption; [now apply leb_refl|].
  destruct (nonneg_cases cu H) as [Hpos|Hnan].
  - apply (leb_trans _ (uncertainty_score 0)); [|reflexivity].
    apply uncertainty_score_anti; [reflexivity | exact Hpos].
  - now rewrite uncertainty_score_nan.
Qed.

Lemma combined_nonneg (a f : float) :
  nonneg_or_nan (combined_uncertainty_spec a f) = true.
Proof.
  unfold combined_uncertainty_spec, nonneg_or_nan. rewrite sqrt_spec.
  apply SFsqrt_nonneg.
Qed.

Lemma uncertainty_score_within (cu1 cu2 : float) :
  (0 <=? cu1)%float = true /\ (cu1 <=? cu2)%float = true
  \/ is_nan cu1 = true /\ is_nan cu2 = true ->
  within (uncertainty_score cu2) (uncertainty_score cu1) 1.
Proof.
  intros H.
  assert (L : (0 <=? uncertainty_score cu2)%float = true) by apply max0_nonneg.
  split; [exact L|]. split.
  - destruct H as [[H0 H]|[H1 H2]].
    + now apply uncertainty_score_anti.
    + rewrite !uncertainty_score_nan by assumption. reflexivity.
  - apply uncertainty_score_range.
    destruct H as [[H0 H]|[H1 H2]]; [now apply leb_nonneg|].
    unfold nonneg_or_nan. apply is_nan_spec in H1. now rewrite H1.
Qed.

Lemma div_not_nan (c k : float) :
  is_nan c = false -> finite_pos k -> is_nan (c / k) = false.
Proof.
  intros Hc Hk. destruct (leb_or_ltb 0 c eq_refl Hc) as [Hp|Hn].
  - apply nonneg_not_nan. now destruct (div_mono_nonneg c c k Hp (leb_refl _ Hc) Hk).
  - now apply div_negative.
Qed.

Lemma coverage_score_within (c1 c2 : float) :
  (c1 <=? c2)%float = true -> within (coverage_score c1) (coverage_score c2) 1.
Proof.
  intros H. destruct (leb_not_nan _ _ H) as [H1 H2]. unfold coverage_score.
  destruct (clamp_01_spec _ (div_not_nan c1 100 H1 finite_pos_100)) as [L1 _].
  destruct (clamp_01_spec _ (div_not_nan c2 100 H2 finite_pos_100)) as [_ U2].
  repeat split; try assumption. now apply div_clamp_mono, finite_pos_100.
Qed.

(** The hierarchy sub-score lies between 1/5 and 1. *)
Lemma hierarchy_score_within (method : string) :
  (0.2 <=? of_int (rank method) / 5)%float = true
  /\ within (of_int (rank method) / 5) (of_int (rank method) / 5) 1.
Proof.
  unfold rank.
  repeat match goal with
    | |- context [String.eqb method ?label] => destruct (String.eqb method label)
    end; (split; [reflexivity | repeat split; reflexivity]).
Qed.

Lemma quality_score_total (method : string) (a f c : float) :
  quality_score_spec method a f c
  = round (total (of_int (rank method) / 5)
             (uncertainty_score (combined_uncertainty_spec a f))
             (coverage_score c)) 1.
Proof. reflexivity. Qed.

(** A NaN coverage makes the score NaN. *)
Lemma quality_score_nan (method : string) (a f c : float) :
  is_nan c = true -> is_nan (quality_score_spec method a f c) = true.
Proof.
  intros Hc. unfold quality_score_spec.
  assert (Hq : is_nan (c / 100) = true) by now apply div_nan.
  assert (Hcl : is_nan (clamp (c / 100) 0 1) = true).
  { unfold clamp. now rewrite ltb_nan_l, ltb_nan_r. }
  rewrite round_nan; now apply mul_nan_r, add_nan_r, mul_nan_r.
Qed.

Lemma calculate_data_quality_Ok (method : string) (a f c q u : float) :
  calculate_data_quality method a f c = Ok (q, u) ->
  q = quality_score_spec method a f c.
Proof.
  rewrite calculate_data_quality_spec. destruct (raises (pow2 a) || raises (pow2 f)); [discriminate|].
  unfold score_spec. now intros [= <- <-].
Qed.

(** C10. For every method label, every pair of uncertainty inputs and
    every coverage that is a number (negative and out-of-range values
    included), a returned quality score lies in [8, 100]; the call returns
    unless squaring an uncertainty input overflows. *)
Theorem quality_score_range (method : string) (a f c : float) :
  is_nan c = false ->
  match calculate_data_quality method a f c with
  | Ok (q, _) => (8 <=? q)%float = true /\ (q <=? 100)%float = true
  | Raise e => e = OverflowError /\ raises (pow2 a) || raises (pow2 f) = true
  end.
Proof.
  intros Hc. rewrite calculate_data_quality_spec.
  destruct (raises (pow2 a) || raises (pow2 f)); [now split|].
  unfold score_spec. rewrite quality_score_total.
  destruct (hierarchy_score_within method) as [Hlow Hh].
  destruct (rounded_total_mono _ _ _ _ _ _ Hlow Hh
              (uncertainty_score_range _ (combined_nonneg a f))
              (coverage_score_within c c (leb_refl c Hc))) as (L & _ & U).
  now split.
Qed.

Lemma quality_score_range_example :
  calculate_data_quality "no such method" 300 (-400) (-5) = Ok (8%float, 500%float)
  /\ (8 <=? 8)%float = true /\ (8 <=? 100)%float = true.
Proof.
  split; [vm_compute; reflexivity|].
  exact (quality_score_range "no such method" 300 (-400) (-5) eq_refl).
Defined.

(** ** The engine: what a result depends on *)

(** X1. A result of [calculate_emissions] depends only on the fields the
    matched family's branch reads: two records that agree on those fields
    (and, in the default branch, on the method label) give the same
    result, whatever else they hold.  The four specific families ignore
    a supplied method label. *)
Theorem emissions_depend_on_fields_read
  (category_name : string) (inputs1 inputs2 : Inputs) :
  (forall k, In k (fields_read (family_of category_name)) ->
             fields inputs1 !! k = fields inputs2 !! k) ->
  (family_of category_name = Generic -> method inputs1 = method inputs2) ->
  calculate_emissions category_name inputs1 = calculate_emissions category_name inputs2.
Proof.
  intros Hk Hm. rewrite !calculate_emissions_formula.
  destruct (family_of category_name); unfold formula, getitem;
    cbn [fields_read required_fields] in Hk;
    repeat match goal with
    | |- context [fields inputs1 !! ?k] =>
        rewrite (Hk k) by (cbn; tauto)
    end; try reflexivity.
  now rewrite Hm.
Qed.

Lemma emissions_depend_on_fields_read_example :
  calculate_emissions "Business Travel" business_travel_record_extended
  = calculate_emissions "Business Travel" business_travel_record.
Proof.
  apply (emissions_depend_on_fields_read "Business Travel").
  - intros k Hk. cbn in Hk.
    destruct Hk as [<-|[<-|[<-|[<-|[]]]]]; vm_compute; reflexivity.
  - vm_compute. discriminate.
Defined.

(** ** The engine on growing activity *)

Lemma finite_nonneg_of (x : float) :
  (0 <=? x)%float = true -> is_finite x = true -> finite_nonneg x.
Proof.
  intros H F. apply (finite_nonneg_below x x); try assumption.
  now apply leb_refl, nonneg_not_nan.
Qed.

(** Sums of non-negative floats, [+inf] included, grow with their terms. *)
Lemma add_mono_any (x1 x2 y1 y2 : float) :
  (0 <=? x1)%float = true -> (x1 <=? x2)%float = true ->
  (0 <=? y1)%float = true -> (y1 <=? y2)%float = true ->
  (0 <=? x1 + y1)%float = true /\ (x1 + y1 <=? x2 + y2)%float = true.
Proof.
  intros Hx0 Hx Hy0 Hy. split; [now apply add_nonneg_leb|].
  apply (leb_trans _ (x2 + y1)).
  - now apply add_mono_l.
  - apply add_mono_r; try assumption. now apply (leb_trans _ x1).
Qed.

Lemma mul_infinity_finite (y : float) :
  finite_nonneg y -> is_nan (infinity * y) = false -> (infinity * y = infinity)%float.
Proof.
  intros Hy Hn. apply Prim2SF_inj. rewrite is_nan_false_spec in Hn.
  rewrite mul_spec, Prim2SF_infinity in *. unfold finite_nonneg in Hy.
  destruct (Prim2SF y) as [s|[]| |[] m e]; try destruct Hy; try reflexivity;
    now destruct Hn.
Qed.

Lemma mul_nonneg_leb (x y : float) :
  (0 <=? x)%float = true -> (0 <=? y)%float = true -> is_nan (x * y) = false ->
  (0 <=? x * y)%float = true.
Proof.
  intros Hx Hy Hn.
  destruct (nonneg_cases (x * y)) as [H|H]; [|exact H|congruence].
  apply mul_nonneg; now apply leb_nonneg.
Qed.

(** Products of non-negative floats grow with their factors, also when
    the first factor has overflowed, as long as no product is NaN. *)
Lemma mul_mono_ext (x1 x2 y1 y2 : float) :
  (0 <=? x1)%float = true -> (x1 <=? x2)%float = true ->
  (0 <=? y1)%float = true -> (y1 <=? y2)%float = true -> finite_nonneg y2 ->
  is_nan (x1 * y1) = false -> is_nan (x2 * y2) = false ->
  (0 <=? x1 * y1)%float = true /\ (x1 * y1 <=? x2 * y2)%float = true.
Proof.
  intros Hx0 Hx Hy0 Hy Hy2 Hn1 Hn2.
  assert (H2 : (0 <=? x2)%float = true) by (apply (leb_trans _ x1); assumption).
  destruct (nonneg_split x2 H2) as [Hf | ->].
  - now apply mul_mono.
  - rewrite mul_infinity_finite by assumption.
    split; [now apply mul_nonneg_leb | now apply leb_infinity].
Qed.

Lemma field_grows_values (inputs1 inputs2 : Inputs) (k : string) (v1 v2 : float) :
  field_grows inputs1 inputs2 k ->
  fields inputs1 !! k = Some v1 -> fields inputs2 !! k = Some v2 ->
  (0 <=? v1)%float = true /\ (v1 <=? v2)%float = true /\ finite_nonneg v2.
Proof.
  unfold field_grows, field_value. intros G E1 E2. rewrite E1, E2 in G.
  cbn [default] in G. destruct G as (H0 & H & F).
  repeat split; try assumption.
  apply finite_nonneg_of; [|assumption]. now apply (leb_trans _ v1).
Qed.

(** X2. In every family but Investments the emissions do not decrease
    when the fields the branch reads grow: if each of them is
    non-negative and finite in both records and not smaller in the
    second, and neither result is NaN (an overflowed product met a zero
    factor), the first emissions are at least zero and at most the
    second. *)
Theorem emissions_never_decrease
  (category_name : string) (inputs1 inputs2 : Inputs) (e1 e2 : float) (m1 m2 : string) :
  family_of category_name <> Investments ->
  (forall k, In k (fields_read (family_of category_name)) ->
             field_grows inputs1 inputs2 k) ->
  calculate_emissions category_name inputs1 = Ok (e1, m1) ->
  calculate_emissions category_name inputs2 = Ok (e2, m2) ->
  is_nan e1 = false -> is_nan e2 = false ->
  (0 <=? e1)%float = true /\ (e1 <=? e2)%float = true.
Proof.
  intros Hfam Hg. rewrite !calculate_emissions_formula.
  destruct (family_of category_name); [| | now destruct Hfam | |];
    cbn [fields_read required_fields] in Hg; unfold formula, getitem.
  - (* Business Travel *)
    assert (Gd := Hg "distance_km"). assert (Gt := Hg "travel_factor").
    assert (Gn := Hg "hotel_nights"). assert (Gh := Hg "hotel_factor").
    destruct (fields inputs1 !! "distance_km") as [d1|] eqn:D1; [|discriminate].
    destruct (fields inputs1 !! "travel_factor") as [t1|] eqn:T1; [|discriminate].
    destruct (fields inputs1 !! "hotel_nights") as [n1|] eqn:N1; [|discriminate].
    destruct (fields inputs1 !! "hotel_factor") as [h1|] eqn:H1; [|discriminate].
    destruct (fields inputs2 !! "distance_km") as [d2|] eqn:D2; [|discriminate].
    destruct (fields inputs2 !! "travel_factor") as [t2|] eqn:T2; [|discriminate].
    destruct (fields inputs2 !! "hotel_nights") as [n2|] eqn:N2; [|discriminate].
    destruct (fields inputs2 !! "hotel_factor") as [h2|] eqn:H2; [|discriminate].
    cbn [Py.bind]. intros [= <- _] [= <- _] _ _.
    destruct (field_grows_values _ _ _ d1 d2 (Gd ltac:(cbn; tauto)) D1 D2) as (? & ? & ?).
    destruct (field_grows_values _ _ _ t1 t2 (Gt ltac:(cbn; tauto)) T1 T2) as (? & ? & ?).
    destruct (field_grows_values _ _ _ n1 n2 (Gn ltac:(cbn; tauto)) N1 N2) as (? & ? & ?).
    destruct (field_grows_values _ _ _ h1 h2 (Gh ltac:(cbn; tauto)) H1 H2) as (? & ? & ?).
    destruct (mul_mono d1 d2 t1 t2) as [? ?]; try assumption.
    destruct (mul_mono n1 n2 h1 h2) as [? ?]; try assumption.
    now apply add_mono_any.
  - (* Transportation *)
    assert (Gd := Hg "distance_km"). assert (Gw := Hg "weight_tonnes").
    assert (Gf := Hg "transport_factor").
    destruct (fields inputs1 !! "distance_km") as [d1|] eqn:D1; [|discriminate].
    destruct (fields inputs1 !! "weight_tonnes") as [w1|] eqn:W1; [|discriminate].
    destruct (fields inputs1 !! "transport_factor") as [f1|] eqn:F1; [|discriminate].
    destruct (fields inputs2 !! "distance_km") as [d2|] eqn:D2; [|discriminate].
    destruct (fields inputs2 !! "weight_tonnes") as [w2|] eqn:W2; [|discriminate].
    destruct (fields inputs2 !! "transport_factor") as [f2|] eqn:F2; [|discriminate].
    cbn [Py.bind]. intros [= <- _] [= <- _] Hn1 Hn2.
    destruct (field_grows_values _ _ _ d1 d2 (Gd ltac:(cbn; tauto)) D1 D2) as (? & ? & ?).
    destruct (field_grows_values _ _ _ w1 w2 (Gw ltac:(cbn; tauto)) W1 W2) as (? & ? & ?).
    destruct (field_grows_values _ _ _ f1 f2 (Gf ltac:(cbn; tauto)) F1 F2) as (? & ? & ?).
    destruct (mul_mono d1 d2 w1 w2) as [? ?]; try assumption.
    now apply mul_mono_ext.
  - (* Use of Sold Products *)
    assert (Gd := Hg "lifetime_years"). assert (Gw := Hg "annual_usage_kwh").
    assert (Gf := Hg "grid_factor").
    destruct (fields inputs1 !! "lifetime_years") as [d1|] eqn:D1; [|discriminate].
    destruct (fields inputs1 !! "annual_usage_kwh") as [w1|] eqn:W1; [|discriminate].
    destruct (fields inputs1 !! "grid_factor") as [f1|] eqn:F1; [|discriminate].
    destruct (fields inputs2 !! "lifetime_years") as [d2|] eqn:D2; [|discriminate].
    destruct (fields inputs2 !! "annual_usage_kwh") as [w2|] eqn:W2; [|discriminate].
    destruct (fields inputs2 !! "grid_factor") as [f2|] eqn:F2; [|discriminate].
    cbn [Py.bind]. intros [= <- _] [= <- _] Hn1 Hn2.
    destruct (field_grows_values _ _ _ d1 d2 (Gd ltac:(cbn; tauto)) D1 D2) as (? & ? & ?).
    destruct (field_grows_values _ _ _ w1 w2 (Gw ltac:(cbn; tauto)) W1 W2) as (? & ? & ?).
    destruct (field_grows_values _ _ _ f1 f2 (Gf ltac:(cbn; tauto)) F1 F2) as (? & ? & ?).
    destruct (mul_mono d1 d2 w1 w2) as [? ?]; try assumption.
    now apply mul_mono_ext.
  - (* the default branch *)
    intros [= <- _] [= <- _] _ _.
    destruct (Hg "quantity" ltac:(cbn; tauto)) as (? & ? & ?).
    destruct (Hg "generic_factor" ltac:(cbn; tauto)) as (? & ? & ?).
    unfold field_value in *.
    apply mul_mono; try assumption; apply finite_nonneg_of; try assumption.
    + now apply (leb_trans _ (default 0%float (fields inputs1 !! "quantity"))).
    + now apply (leb_trans _ (default 0%float (fields inputs1 !! "generic_factor"))).
Qed.

Lemma emissions_never_decrease_example :
  calculate_emissions "Business Travel" business_travel_record
  = Ok (187%float, "Activity-Based")
  /\ calculate_emissions "Business Travel" business_travel_record_longer
     = Ok (424%float, "Activity-Based")
  /\ (0 <=? 187)%float = true /\ (187 <=? 424)%float = true.
Proof.
  assert (E1 : calculate_emissions "Business Travel" business_travel_record
               = Ok (187%float, "Activity-Based")) by (vm_compute; reflexivity).
  assert (E2 : calculate_emissions "Business Travel" business_travel_record_longer
               = Ok (424%float, "Activity-Based")) by (vm_compute; reflexivity).
  split; [exact E1|]. split; [exact E2|].
  refine (emissions_never_decrease "Business Travel" business_travel_record
            business_travel_record_longer 187 424 _ _ _ _ E1 E2 eq_refl eq_refl).
  - vm_compute. discriminate.
  - intros k Hk. cbn in Hk.
    destruct Hk as [<-|[<-|[<-|[<-|[]]]]]; vm_compute; repeat split; reflexivity.
Defined.

(** ** The Investments branch: attribution *)

Lemma result_rounds_one : result_rounds 1 1%float.
Proof.
  split; [reflexivity|]. rewrite <- FR_1 at 1. apply rounds_FR, finite_nonneg_1.
Qed.

Lemma result_rounds_self (x : float) : finite_nonneg x -> result_rounds (FR x) x.
Proof.
  intros H. split; [apply (finite_nonneg_facts x H) | now apply rounds_FR].
Qed.

Lemma finite_pos_of (x : float) :
  (0 <=? x)%float = true -> is_finite x = true -> (x =? 0)%float = false ->
  finite_pos x.
Proof.
  intros H F E. assert (Hf := finite_nonneg_of x H F).
  rewrite FloatAxioms.eqb_spec, Prim2SF_zero in E.
  unfold finite_nonneg, finite_pos in *.
  destruct (Prim2SF x) as [s|[]| |[] m e]; try destruct Hf; try exact I;
    discriminate.
Qed.

(** A quotient of non-negative floats is at most 1 when the numerator is
    at most the divisor. *)
Lemma div_le_one (x c : float) :
  (0 <=? x)%float = true -> (x <=? c)%float = true -> finite_pos c ->
  (0 <=? x / c)%float = true /\ (x / c <=? 1)%float = true.
Proof.
  intros H0 H Hc.
  destruct (div_mono x c c H0 H (finite_pos_nonneg c Hc) Hc) as [Hq0 Hq].
  split; [exact Hq0|]. apply (leb_trans _ (c / c)); [exact Hq|].
  apply (result_rounds_mono (FR c / FR c) 1).
  - apply div_value; [now apply finite_pos_nonneg | exact Hc].
  - exact result_rounds_one.
  - destruct (finite_pos_facts c Hc) as [Hp _].
    apply Req_le. field. lra.
Qed.

(** A product by a factor between 0 and 1 does not exceed the other factor. *)
Lemma mul_le_unit (c t : float) :
  finite_nonneg c -> (0 <=? t)%float = true -> (t <=? 1)%float = true ->
  (0 <=? c * t)%float = true /\ (c * t <=? c)%float = true.
Proof.
  intros Hc H0 H1.
  destruct (finite_nonneg_facts c Hc) as (Hn & Hc0 & _).
  destruct (mul_mono c c t 1) as [Hp0 Hp];
    try assumption; [now apply leb_refl | exact finite_nonneg_1 |].
  split; [exact Hp0|]. apply (leb_trans _ (c * 1)); [exact Hp|].
  apply (result_rounds_mono (FR c * FR 1) (FR c)).
  - apply mul_value; [exact Hc | exact finite_nonneg_1].
  - now apply result_rounds_self.
  - rewrite FR_1. lra.
Qed.

(** X3. Financed emissions never exceed the investee's: for non-negative
    finite investee emissions and 0 <= outstanding_amount <= evic, evic
    finite (zero included), the Investments branch returns emissions
    between 0 and investee_emissions. *)
Theorem financed_emissions_bounded
  (inputs : Inputs) (investee_emissions outstanding_amount evic : float) :
  fields inputs !! "investee_emissions" = Some investee_emissions ->
  fields inputs !! "outstanding_amount" = Some outstanding_amount ->
  fields inputs !! "evic" = Some evic ->
  (0 <=? investee_emissions)%float = true -> is_finite investee_emissions = true ->
  (0 <=? outstanding_amount)%float = true ->
  (outstanding_amount <=? evic)%float = true -> is_finite evic = true ->
  exists e,
    calculate_emissions "Investments" inputs = Ok (e, "PCAF Financed Emissions")
    /\ (0 <=? e)%float = true /\ (e <=? investee_emissions)%float = true.
Proof.
  intros Hi Ho He Hi0 Hif Ho0 Hoe Hef.
  unfold calculate_emissions. simpl.
  rewrite (getitem_Some _ _ _ Hi), (getitem_Some _ _ _ Ho), (getitem_Some _ _ _ He).
  cbn [Py.bind]. rewrite attribution_factor_ratio. cbn [Py.bind].
  eexists. split; [reflexivity|].
  assert (Hfi := finite_nonneg_of _ Hi0 Hif).
  assert (He0 : (0 <=? evic)%float = true) by now apply (leb_trans _ outstanding_amount).
  destruct (evic =? 0)%float eqn:Ez.
  - apply mul_le_unit; [assumption | reflexivity | reflexivity].
  - destruct (div_le_one outstanding_amount evic) as [? ?]; try assumption.
    + now apply finite_pos_of.
    + now apply mul_le_unit.
Qed.

Lemma financed_emissions_bounded_example :
  exists e,
    calculate_emissions "Investments" investments_tenth_record
    = Ok (e, "PCAF Financed Emissions")
    /\ (0 <=? e)%float = true /\ (e <=? 1000)%float = true.
Proof.
  apply (financed_emissions_bounded investments_tenth_record 1000 50 500);
    vm_compute; reflexivity.
Defined.

Lemma finite_pos_neq_zero (x : float) : finite_pos x -> (x =? 0)%float = false.
Proof.
  unfold finite_pos. rewrite FloatAxioms.eqb_spec, Prim2SF_zero.
  destruct (Prim2SF x) as [s|[]| |[] m e]; try contradiction; reflexivity.
Qed.

(** A quotient of non-negative floats grows with its numerator and as its
    divisor shrinks. *)
Lemma div_mono_both (x1 x2 c1 c2 : float) :
  (0 <=? x1)%float = true -> (x1 <=? x2)%float = true -> finite_nonneg x2 ->
  finite_pos c2 -> (c2 <=? c1)%float = true -> finite_pos c1 ->
  (0 <=? x1 / c1)%float = true /\ (x1 / c1 <=? x2 / c2)%float = true.
Proof.
  intros H0 H Hx2 Hc2 Hc Hc1.
  assert (Hx1 := le_finite_nonneg _ _ H0 H Hx2).
  assert (R1 := div_value x1 c1 Hx1 Hc1). assert (R2 := div_value x2 c2 Hx2 Hc2).
  split; [apply R1|]. apply (result_rounds_mono _ _ _ _ R1 R2).
  apply nonneg_FR in H0.
  destruct (leb_not_nan _ _ H). destruct (leb_not_nan _ _ Hc).
  apply leb_FR in H, Hc; try assumption.
  destruct (finite_pos_facts c1 Hc1) as [P1 _].
  destruct (finite_pos_facts c2 Hc2) as [P2 _].
  apply Rle_trans with (FR x2 / FR c1)%R.
  - apply Rmult_le_compat_r; [|exact H]. left. now apply Rinv_0_lt_compat.
  - apply Rmult_le_compat_l; [lra|]. now apply Rinv_le_contravar.
Qed.

(** X4. Financed emissions do not decrease when the investee's
    emissions and the outstanding amount grow and the enterprise value
    shrinks, staying positive: between two such Investments records, all
    fields non-negative and finite, the first result is at least zero and
    at most the second, unless one of them is NaN (the attribution ratio
    overflowed and met zero emissions). *)
Theorem financed_emissions_never_decrease
  (inputs1 inputs2 : Inputs) (e1 e2 : float) (m1 m2 : string) :
  field_grows inputs1 inputs2 "investee_emissions" ->
  field_grows inputs1 inputs2 "outstanding_amount" ->
  (0 <? field_value inputs2 "evic")%float = true ->
  (field_value inputs2 "evic" <=? field_value inputs1 "evic")%float = true ->
  is_finite (field_value inputs1 "evic") = true ->
  calculate_emissions "Investments" inputs1 = Ok (e1, m1) ->
  calculate_emissions "Investments" inputs2 = Ok (e2, m2) ->
  is_nan e1 = false -> is_nan e2 = false ->
  (0 <=? e1)%float = true /\ (e1 <=? e2)%float = true.
Proof.
  intros Gi Go Hv2 Hv Hf1. unfold calculate_emissions. simpl. unfold getitem.
  destruct (fields inputs1 !! "investee_emissions") as [i1|] eqn:I1; [|discriminate].
  destruct (fields inputs1 !! "outstanding_amount") as [o1|] eqn:O1; [|discriminate].
  destruct (fields inputs1 !! "evic") as [v1|] eqn:V1; [|discriminate].
  destruct (fields inputs2 !! "investee_emissions") as [i2|] eqn:I2; [|discriminate].
  destruct (fields inputs2 !! "outstanding_amount") as [o2|] eqn:O2; [|discriminate].
  destruct (fields inputs2 !! "evic") as [v2|] eqn:V2; [|discriminate].
  cbn [Py.bind]. rewrite !attribution_factor_ratio. cbn [Py.bind].
  destruct (field_grows_values _ _ _ i1 i2 Gi I1 I2) as (? & ? & ?).
  destruct (field_grows_values _ _ _ o1 o2 Go O1 O2) as (? & ? & ?).
  unfold field_value in Hv2, Hv, Hf1.
  rewrite V2 in Hv2. rewrite V1, V2 in Hv. rewrite V1 in Hf1.
  cbv [default from_option id] in Hv2, Hv, Hf1.
  assert (P2 : finite_pos v2).
  { apply (finite_pos_between v2 v2 v1); try assumption.
    apply leb_refl. now destruct (ltb_not_nan _ _ Hv2). }
  assert (P1 : finite_pos v1).
  { apply (finite_pos_between v1 v2 v1); try assumption.
    apply leb_refl. now destruct (leb_not_nan _ _ Hv). }
  rewrite (finite_pos_neq_zero v1 P1), (finite_pos_neq_zero v2 P2).
  intros [= <- _] [= <- _]. rewrite (mul_comm i1), (mul_comm i2).
  destruct (div_mono_both o1 o2 v1 v2) as [? ?]; try assumption.
  now apply mul_mono_ext.
Qed.

Lemma financed_emissions_never_decrease_example :
  calculate_emissions "Investments" investments_tenth_record
  = Ok (100%float, "PCAF Financed Emissions")
  /\ calculate_emissions "Investments" investments_fifth_record
     = Ok (400%float, "PCAF Financed Emissions")
  /\ (0 <=? 100)%float = true /\ (100 <=? 400)%float = true.
Proof.
  assert (E1 : calculate_emissions "Investments" investments_tenth_record
               = Ok (100%float, "PCAF Financed Emissions")) by (vm_compute; reflexivity).
  assert (E2 : calculate_emissions "Investments" investments_fifth_record
               = Ok (400%float, "PCAF Financed Emissions")) by (vm_compute; reflexivity).
  split; [exact E1|]. split; [exact E2|].
  refine (financed_emissions_never_decrease investments_tenth_record
            investments_fifth_record 100 400 _ _ _ _ _ _ _ E1 E2 eq_refl eq_refl);
    vm_compute; repeat split; reflexivity.
Defined.

(** ** The engine: when it returns *)

(** X5. [calculate_emissions] returns exactly when the record holds
    every field its family requires: a call that returns had them all,
    and a call that raises raises [KeyError] naming a required field the
    record lacks; no other exception leaves the engine. *)
Theorem emissions_return_or_keyerror (category_name : string) (inputs : Inputs) :
  match calculate_emissions category_name inputs with
  | Ok _ =>
      forall k, In k (required_fields (family_of category_name)) ->
                is_Some (fields inputs !! k)
  | Raise e =>
      exists k, e = KeyError k
                /\ In k (required_fields (family_of category_name))
                /\ fields inputs !! k = None
  end.
Proof.
  rewrite calculate_emissions_formula.
  destruct (family_of category_name); unfold formula, getitem;
    cbn [required_fields];
    repeat match goal with
    | |- context [fields inputs !! ?key] =>
        let E := fresh "E" in
        destruct (fields inputs !! key) eqn:E; cbn [Py.bind];
        [| eexists; split; [reflexivity|]; split; [cbn; tauto | assumption]]
    end;
    intros k Hk; cbn in Hk;
    repeat match type of Hk with
    | _ \/ _ => destruct Hk as [<-|Hk]; [eauto|]
    end; try contradiction.
Qed.

(** ** The scorer: symmetries *)

Lemma add_comm (x y : float) : (x + y = y + x)%float.
Proof.
  apply Prim2SF_inj. rewrite !add_spec.
  destruct (Prim2SF x) as [[]|[]| |sx mx ex], (Prim2SF y) as [[]|[]| |sy my ey];
    try reflexivity.
  unfold SF64add, SFadd. now rewrite Z.min_comm, Z.add_comm.
Qed.

Lemma opp_mul_opp (x : float) : (- x * - x = x * x)%float.
Proof.
  apply Prim2SF_inj. rewrite !mul_spec, opp_spec.
  destruct (Prim2SF x) as [[]|[]| |[] m e]; reflexivity.
Qed.

Lemma abs_opp (x : float) : abs (- x) = abs x.
Proof.
  apply Prim2SF_inj. rewrite !abs_spec, opp_spec.
  destruct (Prim2SF x) as [[]|[]| |[] m e]; reflexivity.
Qed.

Lemma is_nan_opp (x : float) : is_nan (- x) = is_nan x.
Proof.
  apply eq_true_iff_eq. rewrite !is_nan_spec, opp_spec.
  destruct (Prim2SF x) as [[]|[]| |[] m e]; simpl; split; congruence.
Qed.

Lemma is_finite_opp (x : float) : is_finite (- x) = is_finite x.
Proof. unfold is_finite, is_infinity. now rewrite is_nan_opp, abs_opp. Qed.

Lemma pow2_opp (x : float) : pow2 (- x) = pow2 x.
Proof. unfold pow2. now rewrite opp_mul_opp, is_finite_opp. Qed.

(** X6. The scorer is symmetric in its two uncertainty inputs: swapping
    them changes neither the result nor whether the call raises. *)
Theorem quality_symmetric_in_uncertainties (method : string) (a f c : float) :
  calculate_data_quality method a f c = calculate_data_quality method f a c.
Proof.
  rewrite !calculate_data_quality_spec, orb_comm.
  unfold score_spec, quality_score_spec, combined_uncertainty_spec.
  now rewrite (add_comm (a * a) (f * f)).
Qed.

(** X7. The scorer ignores the sign of each uncertainty input: negating
    one changes neither the result nor whether the call raises. *)
Theorem quality_ignores_uncertainty_signs (method : string) (a f c : float) :
  calculate_data_quality method (- a) f c = calculate_data_quality method a f c
  /\ calculate_data_quality method a (- f) c = calculate_data_quality method a f c.
Proof.
  rewrite !calculate_data_quality_spec, !pow2_opp.
  unfold score_spec, quality_score_spec, combined_uncertainty_spec.
  now rewrite !opp_mul_opp.
Qed.

(** ** The scorer: saturation *)

Lemma SFcompare_Eq_finite (y : spec_float) (s : bool) (m : positive) (e : Z) :
  SFcompare y (S754_finite s m e) = Some Eq -> y = S754_finite s m e.
Proof.
  destruct y as [sy|sy| |sy my ey]; simpl; try discriminate;
    try (destruct sy; discriminate); try (destruct s; discriminate).
  destruct sy, s; try discriminate;
    destruct (Z.compare_spec ey e) as [->|?|?]; try discriminate;
    change (Pos.compare_cont Eq my m) with (my ?= m)%positive;
    destruct (Pos.compare_spec my m) as [->|?|?]; try discriminate; reflexivity.
Qed.

(** A float that is neither below nor above a positive finite float is
    that float. *)
Lemma FR_inj_pos (x y : float) :
  finite_pos x -> is_nan y = false -> FR y = FR x -> y = x.
Proof.
  intros Hx Hy E. apply Prim2SF_inj.
  assert (H := SFcompare_B2R _ _ (Prim2SF_valid y) (Prim2SF_valid x)).
  unfold FR in E. unfold finite_pos in Hx.
  destruct (Prim2SF x) as [s|[]| |[] m e] eqn:Ex; try contradiction.
  apply SFcompare_Eq_finite.
  destruct (SFcompare (Prim2SF y) (S754_finite false m e)) as [[]|] eqn:Ec;
    cbn [cmp_spec] in H; try lra; try reflexivity.
  apply SFcompare_None in Ec. rewrite <- is_nan_spec in Ec.
  destruct Ec; congruence.
Qed.

Lemma finite_pos_1 : finite_pos 1.
Proof. exact I. Qed.

(** A coverage of 100 or more has the full coverage score. *)
Lemma coverage_score_full (c : float) :
  (100 <=? c)%float = true -> coverage_score c = 1%float.
Proof.
  intros H. unfold coverage_score.
  destruct (div_mono_nonneg 100 c 100 eq_refl H finite_pos_100) as [_ Hq].
  change (100 / 100)%float with 1%float in Hq.
  destruct (leb_not_nan _ _ Hq) as [_ Hn].
  destruct (clamp_01_FR _ Hn) as [Hc E].
  apply FR_inj_pos; [exact finite_pos_1 | exact Hc |].
  apply leb_FR in Hq; [|reflexivity|exact Hn].
  rewrite E, FR_1 in *. unfold Rmin, Rmax. repeat destruct (Rle_dec _ _); lra.
Qed.

(** A zero of either sign. *)
Lemma clamp_nonpos (x : float) :
  (x <=? 0)%float = true -> exists s, Prim2SF (clamp x 0 1) = S754_zero s.
Proof.
  unfold clamp. rewrite FloatAxioms.leb_spec, !FloatAxioms.ltb_spec, Prim2SF_zero.
  change (Prim2SF 1) with (S754_finite false 4503599627370496 (-52)).
  destruct (Prim2SF x) as [s|[]| |[] m e] eqn:Ex; try discriminate; intros _;
    cbn; rewrite ?Ex; eauto.
Qed.

Lemma div_nonpos (c k : float) :
  (c <=? 0)%float = true -> finite_pos k -> (c / k <=? 0)%float = true.
Proof.
  intros H Hk. destruct (leb_not_nan _ _ H) as [Hn _].
  destruct (leb_or_ltb 0 c eq_refl Hn) as [Hp|Hneg].
  - rewrite FloatAxioms.leb_spec, Prim2SF_zero, div_spec in *.
    unfold finite_pos in Hk.
    destruct (Prim2SF k) as [s|[]| |[] mk ek]; try contradiction.
    destruct (Prim2SF c) as [s|[]| |[] m e]; try discriminate; reflexivity.
  - destruct (div_negative c k Hneg Hk) as [Hq Hle].
    apply leb_FR; [exact Hq | reflexivity |]. now rewrite FR_0.
Qed.

Lemma mul_zero_r (k z : float) (s : bool) :
  finite_pos k -> Prim2SF z = S754_zero s -> Prim2SF (k * z) = S754_zero s.
Proof.
  unfold finite_pos. intros Hk Hz. rewrite mul_spec, Hz.
  destruct (Prim2SF k) as [sk|[]| |[] mk ek]; try contradiction. reflexivity.
Qed.

Lemma add_zero_r (x z : float) (s : bool) :
  finite_pos x -> Prim2SF z = S754_zero s -> (x + z = x)%float.
Proof.
  unfold finite_pos. intros Hx Hz. apply Prim2SF_inj. rewrite add_spec, Hz.
  destruct (Prim2SF x) as [sx|[]| |[] mx ex]; try contradiction. reflexivity.
Qed.

(** The weighted method and uncertainty terms: positive and finite. *)
Lemma method_uncertainty_terms_pos (method : string) (cu : float) :
  nonneg_or_nan cu = true ->
  finite_pos (0.4 * (of_int (rank method) / 5) + 0.3 * uncertainty_score cu).
Proof.
  intros Hcu.
  destruct (hierarchy_score_within method) as [Hlo Hh].
  assert (Hu := uncertainty_score_range cu Hcu).
  assert (H4 : within (0.4 * (of_int (rank method) / 5))
                 (0.4 * (of_int (rank method) / 5)) (0.4 * 1)).
  { apply within_mul; [now apply within_const | exact Hh | reflexivity]. }
  assert (H3 : within (0.3 * uncertainty_score cu) (0.3 * uncertainty_score cu) (0.3 * 1)).
  { apply within_mul; [now apply within_const | exact Hu | reflexivity]. }
  destruct (within_add _ _ _ _ _ _ H4 H3 eq_refl) as (_ & _ & Hle & Hfin).
  destruct Hh as (Hh0 & _ & Hh1 & _). destruct H3 as (H30 & _).
  assert (Hhf : finite_nonneg (of_int (rank method) / 5)).
  { now apply (finite_nonneg_below _ 1). }
  destruct (mul_mono 0.4 0.4 0.2 (of_int (rank method) / 5)) as [_ Hm];
    try reflexivity; try assumption; try exact I.
  apply (finite_pos_between _ (0.4 * 0.2 + 0) (0.4 * 1 + 0.3 * 1) eq_refl);
    [|exact Hle|exact Hfin].
  apply add_mono_any; try assumption; reflexivity.
Qed.

(** The total is the same for the two zeros as coverage score. *)
Lemma total_zero_coverage (method : string) (cu cs : float) (s : bool) :
  nonneg_or_nan cu = true -> Prim2SF cs = S754_zero s ->
  total (of_int (rank method) / 5) (uncertainty_score cu) cs
  = total (of_int (rank method) / 5) (uncertainty_score cu) 0.
Proof.
  intros Hcu Hz. unfold total.
  assert (Hp := method_uncertainty_terms_pos method cu Hcu).
  rewrite (add_zero_r _ (0.3 * cs) s Hp) by (now apply mul_zero_r).
  rewrite (add_zero_r _ (0.3 * 0) false Hp) by reflexivity.
  reflexivity.
Qed.

(** X8. Coverage saturates at both ends: every coverage of 100 or more
    ([+inf] included) gives the result of coverage 100, and every coverage
    of 0 or less ([-0.0] and [-inf] included) the result of coverage 0. *)
Theorem coverage_saturates (method : string) (a f c : float) :
  ((100 <=? c)%float = true ->
   calculate_data_quality method a f c = calculate_data_quality method a f 100)
  /\ ((c <=? 0)%float = true ->
      calculate_data_quality method a f c = calculate_data_quality method a f 0).
Proof.
  rewrite !calculate_data_quality_spec. unfold score_spec.
  rewrite !quality_score_total. split; intros H.
  - rewrite (coverage_score_full c H), (coverage_score_full 100 eq_refl). reflexivity.
  - destruct (clamp_nonpos (c / 100) (div_nonpos c 100 H finite_pos_100)) as [s Hs].
    fold (coverage_score c) in Hs.
    rewrite (total_zero_coverage method _ (coverage_score c) s (combined_nonneg a f) Hs).
    rewrite (total_zero_coverage method _ (coverage_score 0) false (combined_nonneg a f))
      by reflexivity.
    reflexivity.
Qed.

Lemma coverage_saturates_example :
  calculate_data_quality "Activity-Based" 20 15 250
  = calculate_data_quality "Activity-Based" 20 15 100
  /\ calculate_data_quality "Activity-Based" 20 15 (-30)
     = calculate_data_quality "Activity-Based" 20 15 0.
Proof.
  split.
  - exact (proj1 (coverage_saturates "Activity-Based" 20 15 250) eq_refl).
  - exact (proj2 (coverage_saturates "Activity-Based" 20 15 (-30)) eq_refl).
Defined.

Lemma max0_nonpos (y : float) :
  (Py.max 0 y <=? 0)%float = true -> Py.max 0 y = 0%float.
Proof.
  unfold Py.max. destruct (0 <? y)%float eqn:E; [|reflexivity].
  intros H. apply ltb_leb_false in H. congruence.
Qed.

(** The combined uncertainty of an activity uncertainty of 100 or more is
    100 or more, or NaN. *)
Lemma combined_at_least_100 (a f : float) :
  (100 <=? a)%float = true ->
  (100 <=? combined_uncertainty_spec a f)%float = true
  \/ is_nan (combined_uncertainty_spec a f) = true.
Proof.
  intros H. unfold combined_uncertainty_spec.
  destruct (square_mono 100 a eq_refl H) as [_ Ha].
  change (100 * 100)%float with 10000%float in Ha.
  destruct (nonneg_cases _ (mul_self_nonneg f)) as [Hf|Hf].
  - left.
    destruct (add_mono_any 10000 (a * a) 0 (f * f)) as [_ Hs];
      try assumption; try reflexivity.
    change (10000 + 0)%float with 10000%float in Hs.
    destruct (sqrt_mono_nonneg 10000 (a * a + f * f) eq_refl Hs) as [_ Hq].
    exact Hq.
  - right. now apply sqrt_nan, add_nan_r.
Qed.

Lemma uncertainty_score_saturated (a f : float) :
  (100 <=? a)%float = true ->
  uncertainty_score (combined_uncertainty_spec a f) = 0%float.
Proof.
  intros H. destruct (combined_at_least_100 a f H) as [Hc|Hc].
  - apply max0_nonpos. fold (uncertainty_score (combined_uncertainty_spec a f)).
    exact (uncertainty_score_anti 100 _ eq_refl Hc).
  - now apply uncertainty_score_nan.
Qed.

(** X9. Uncertainty saturates: when one uncertainty input is 100 or
    more and the call returns, the quality score is the one of activity
    uncertainty 100 with no factor uncertainty, whatever the other input
    is (a NaN included): the uncertainty term contributes nothing. *)
Theorem uncertainty_saturates (method : string) (a f c q u : float) :
  (100 <=? a)%float = true \/ (100 <=? f)%float = true ->
  calculate_data_quality method a f c = Ok (q, u) ->
  calculate_data_quality method 100 0 c = Ok (q, 100%float).
Proof.
  intros H. rewrite !calculate_data_quality_spec.
  destruct (raises (pow2 a) || raises (pow2 f)); [discriminate|].
  intros [= <- _]. cbn [raises pow2 orb]. unfold score_spec.
  rewrite !quality_score_total. f_equal. f_equal.
  - rewrite (uncertainty_score_saturated 100 0 eq_refl).
    destruct H as [H|H].
    + now rewrite (uncertainty_score_saturated a f H).
    + replace (combined_uncertainty_spec a f) with (combined_uncertainty_spec f a)
        by (unfold combined_uncertainty_spec; now rewrite add_comm).
      now rewrite (uncertainty_score_saturated f a H).
Qed.

Lemma uncertainty_saturates_example :
  calculate_data_quality "Activity-Based" 20 300 85 = Ok (57.5%float, 300.67%float)
  /\ calculate_data_quality "Activity-Based" 100 0 85 = Ok (57.5%float, 100%float).
Proof.
  assert (E : calculate_data_quality "Activity-Based" 20 300 85
              = Ok (57.5%float, 300.67%float)) by (vm_compute; reflexivity).
  split; [exact E|].
  exact (uncertainty_saturates "Activity-Based" 20 300 85 57.5 300.67
           (or_intror eq_refl) E).
Defined.

(** ** The scorer: the method hierarchy *)

Lemma rank_cases (method : string) :
  rank method = 1%Z \/ rank method = 2%Z \/ rank method = 3%Z
  \/ rank method = 4%Z \/ rank method = 5%Z.
Proof.
  unfold rank.
  repeat match goal with
    | |- context [String.eqb method ?label] => destruct (String.eqb method label)
    end; tauto.
Qed.

Lemma hierarchy_score_mono (method1 method2 : string) :
  (rank method1 <= rank method2)%Z ->
  (0.2 <=? of_int (rank method1) / 5)%float = true
  /\ within (of_int (rank method1) / 5) (of_int (rank method2) / 5) 1.
Proof.
  intros H.
  destruct (rank_cases method1) as [E1|[E1|[E1|[E1|E1]]]];
    destruct (rank_cases method2) as [E2|[E2|[E2|[E2|E2]]]];
    rewrite E1, E2 in *; try lia;
    (split; [reflexivity | repeat split; reflexivity]).
Qed.

(** X10. The score follows the method hierarchy: between two calls that
    differ only in the method, the method of lower or equal rank (unknown
    labels ranking 1) has the same combined uncertainty and never a higher
    score; for a coverage that is a number its score is at most the
    other's. *)
Theorem quality_monotone_in_method_rank
  (method1 method2 : string) (a f c q1 u1 q2 u2 : float) :
  (default 1 (METHOD_HIERARCHY !! method1)
   <= default 1 (METHOD_HIERARCHY !! method2))%Z ->
  calculate_data_quality method1 a f c = Ok (q1, u1) ->
  calculate_data_quality method2 a f c = Ok (q2, u2) ->
  u1 = u2
  /\ (q2 <? q1)%float = false
  /\ (is_nan c = false -> (q1 <=? q2)%float = true).
Proof.
  rewrite !rank_table. intros Hr E1 E2.
  assert (Hu : u1 = u2).
  { rewrite calculate_data_quality_spec in E1, E2.
    destruct (raises (pow2 a) || raises (pow2 f)); [discriminate|].
    unfold score_spec in *. congruence. }
  apply calculate_data_quality_Ok in E1, E2. subst q1 q2.
  destruct (hierarchy_score_mono method1 method2 Hr) as [Hlow Hh].
  assert (Hnum : is_nan c = false ->
                 (quality_score_spec method1 a f c
                  <=? quality_score_spec method2 a f c)%float = true).
  { intros Hc. rewrite !quality_score_total.
    apply (rounded_total_mono _ _ _ _ _ _ Hlow Hh).
    - apply uncertainty_score_range, combined_nonneg.
    - now apply coverage_score_within, leb_refl. }
  split; [exact Hu|]. split; [|exact Hnum].
  destruct (is_nan c) eqn:Hc; [|now apply ltb_leb_false, Hnum].
  now apply ltb_nan_l, quality_score_nan.
Qed.

Lemma quality_monotone_in_method_rank_example :
  calculate_data_quality "Spend-Based" 20 15 85 = Ok (64%float, 25%float)
  /\ calculate_data_quality "Supplier-Specific" 20 15 85 = Ok (88%float, 25%float)
  /\ (64 <=? 88)%float = true.
Proof.
  assert (E1 : calculate_data_quality "Spend-Based" 20 15 85
               = Ok (64%float, 25%float)) by (vm_compute; reflexivity).
  assert (E2 : calculate_data_quality "Supplier-Specific" 20 15 85
               = Ok (88%float, 25%float)) by (vm_compute; reflexivity).
  split; [exact E1|]. split; [exact E2|].
  refine (proj2 (proj2 (quality_monotone_in_method_rank "Spend-Based"
            "Supplier-Specific" 20 15 85 64 25 88 25 _ E1 E2)) eq_refl).
  vm_compute. discriminate.
Defined.

(** ** The scorer: the combined uncertainty it reports *)

Lemma finite_nonneg_cases (x : float) :
  finite_nonneg x -> (exists s, Prim2SF x = S754_zero s) \/ finite_pos x.
Proof.
  unfold finite_nonneg, finite_pos.
  destruct (Prim2SF x) as [s|[]| |[] m e]; try contradiction; eauto.
Qed.

Lemma round_zero (x : float) (s : bool) (ndigits : Z) :
  Prim2SF x = S754_zero s -> round x ndigits = x.
Proof. unfold round. now intros ->. Qed.

Lemma zero_leb (x y : float) (s : bool) :
  Prim2SF x = S754_zero s -> (0 <=? y)%float = true -> (x <=? y)%float = true.
Proof.
  rewrite !FloatAxioms.leb_spec, Prim2SF_zero. intros ->. unfold SFleb.
  now destruct (Prim2SF y).
Qed.

Lemma finite_pos_ltb (x : float) : finite_pos x -> (0 <? x)%float = true.
Proof.
  unfold finite_pos. rewrite FloatAxioms.ltb_spec, Prim2SF_zero.
  destruct (Prim2SF x) as [s|[]| |[] m e]; try contradiction. reflexivity.
Qed.

(** [round] keeps the sign and the order of non-negative floats, [+inf]
    included. *)
Lemma round_nonneg_leb (x : float) (ndigits : Z) :
  (0 <=? x)%float = true -> (0 <= ndigits)%Z -> (0 <=? round x ndigits)%float = true.
Proof.
  intros H Hn. destruct (nonneg_split x H) as [Hf | ->]; [|reflexivity].
  destruct (finite_nonneg_cases x Hf) as [[s Hs]|Hp].
  - now rewrite (round_zero x s).
  - apply (round_mono x x); try assumption. now apply leb_refl, nonneg_not_nan.
Qed.

Lemma round_mono_nonneg (x1 x2 : float) (ndigits : Z) :
  (0 <=? x1)%float = true -> (x1 <=? x2)%float = true -> (0 <= ndigits)%Z ->
  (0 <=? round x1 ndigits)%float = true
  /\ (round x1 ndigits <=? round x2 ndigits)%float = true.
Proof.
  intros H0 H Hn. split; [now apply round_nonneg_leb|].
  assert (H2 : (0 <=? x2)%float = true) by now apply (leb_trans _ x1).
  destruct (nonneg_split x2 H2) as [Hf2 | ->].
  - assert (Hf1 := le_finite_nonneg _ _ H0 H Hf2).
    destruct (finite_nonneg_cases x1 Hf1) as [[s Hs]|Hp1].
    + rewrite (round_zero x1 s) by assumption.
      apply (zero_leb _ _ s Hs). now apply round_nonneg_leb.
    + apply round_mono; try assumption.
      destruct (finite_nonneg_facts x2 Hf2) as (_ & _ & _ & Hlt).
      apply (finite_pos_between x2 x1 x2); try assumption.
      * now apply finite_pos_ltb.
      * now apply leb_refl, nonneg_not_nan.
      * unfold finite_nonneg in Hf2. unfold is_finite, is_nan, is_infinity.
        rewrite !FloatAxioms.eqb_spec, abs_spec.
        destruct (Prim2SF x2) as [s|[]| |[] m e]; try contradiction; cbn;
          rewrite ?Z.compare_refl, ?Pos.compare_cont_refl; reflexivity.
  - change (round infinity ndigits) with infinity.
    apply leb_infinity, nonneg_not_nan. now apply round_nonneg_leb.
Qed.

(** The rounded combined uncertainty of non-negative inputs is not
    negative and grows with each of them. *)
Lemma combined_rounded_mono (a1 a2 f1 f2 : float) :
  (0 <=? a1)%float = true -> (a1 <=? a2)%float = true ->
  (0 <=? f1)%float = true -> (f1 <=? f2)%float = true ->
  (0 <=? round (combined_uncertainty_spec a1 f1) 2)%float = true
  /\ (round (combined_uncertainty_spec a1 f1) 2
      <=? round (combined_uncertainty_spec a2 f2) 2)%float = true.
Proof.
  intros Ha0 Ha Hf0 Hf. unfold combined_uncertainty_spec.
  destruct (square_mono a1 a2 Ha0 Ha) as [? ?].
  destruct (square_mono f1 f2 Hf0 Hf) as [? ?].
  destruct (add_mono_any (a1 * a1) (a2 * a2) (f1 * f1) (f2 * f2)) as [? ?];
    try assumption.
  destruct (sqrt_mono_nonneg (a1 * a1 + f1 * f1) (a2 * a2 + f2 * f2)) as [? ?];
    try assumption.
  apply round_mono_nonneg; try assumption. lia.
Qed.

(** ** The scorer on the sliders' values *)

Lemma slider_values_spec (n : Z) : (0 <= n <= 100)%Z -> n ∈ slider_values.
Proof. intros H. apply elem_of_seqZ. lia. Qed.

Lemma squares_agree_sliders :
  forallb (fun a => forallb (squares_agree a) slider_values) slider_values = true.
Proof. vm_compute. reflexivity. Qed.

Lemma quotient_agrees_sliders : forallb quotient_agrees slider_values = true.
Proof. vm_compute. reflexivity. Qed.

Lemma squares_agree_spec (a f : Z) :
  (0 <= a <= 100)%Z -> (0 <= f <= 100)%Z ->
  pow2 (of_int a) = Ok (of_int a * of_int a)%float
  /\ pow2 (of_int f) = Ok (of_int f * of_int f)%float
  /\ float_of_int (a ^ 2 + f ^ 2)
     = Ok (of_int a * of_int a + of_int f * of_int f)%float.
Proof.
  intros Ha Hf.
  assert (H := squares_agree_sliders).
  rewrite forallb_forall in H. specialize (H a).
  rewrite forallb_forall in H.
  specialize (H ltac:(apply list_elem_of_In; now apply slider_values_spec) f
                ltac:(apply list_elem_of_In; now apply slider_values_spec)).
  unfold squares_agree in H.
  destruct (float_of_int (a ^ 2 + f ^ 2)) as [s|]; [|discriminate].
  assert (Pa : forall x, pow2 x = Ok (x * x)%float \/ exists e, pow2 x = Raise e).
  { intros x. unfold pow2. destruct (is_finite x && is_infinity (x * x)); eauto. }
  destruct (Pa (of_int a)) as [Ea|[e Ea]]; rewrite Ea in H; [|discriminate].
  destruct (Pa (of_int f)) as [Ef|[e Ef]]; rewrite Ef in H; [|discriminate].
  apply FloatAxioms.Leibniz.eqb_spec in H. subst s. auto.
Qed.

Lemma quotient_agrees_spec (c : Z) :
  (0 <= c <= 100)%Z -> int_div c 100 = Ok (of_int c / 100)%float.
Proof.
  intros Hc. assert (H := quotient_agrees_sliders).
  rewrite forallb_forall in H.
  specialize (H c ltac:(apply list_elem_of_In; now apply slider_values_spec)).
  unfold quotient_agrees in H.
  destruct (int_div c 100) as [q|]; [|discriminate].
  apply FloatAxioms.Leibniz.eqb_spec in H. now subst q.
Qed.

Lemma slider_in_range_sliders : forallb slider_in_range slider_values = true.
Proof. vm_compute. reflexivity. Qed.

Lemma slider_in_range_spec (n : Z) :
  (0 <= n <= 100)%Z ->
  (0 <=? of_int n)%float = true /\ (of_int n <=? 100)%float = true.
Proof.
  intros Hn. assert (H := slider_in_range_sliders).
  rewrite forallb_forall in H.
  specialize (H n ltac:(apply list_elem_of_In; now apply slider_values_spec)).
  unfold slider_in_range in H. now apply andb_prop in H.
Qed.

(** On the sliders' values the call on [int]s is the call on the floats
    they convert to, and that call returns. *)
Lemma calculate_data_quality_int_sliders (method : string) (a f c : Z) :
  (0 <= a <= 100)%Z -> (0 <= f <= 100)%Z -> (0 <= c <= 100)%Z ->
  calculate_data_quality_int method a f c
  = calculate_data_quality method (of_int a) (of_int f) (of_int c)
  /\ calculate_data_quality method (of_int a) (of_int f) (of_int c)
     = Ok (score_spec method (of_int a) (of_int f) (of_int c)).
Proof.
  intros Ha Hf Hc.
  destruct (squares_agree_spec a f Ha Hf) as (Ea & Ef & Es). split.
  - unfold calculate_data_quality_int, calculate_data_quality.
    rewrite Ea, Ef, Es, (quotient_agrees_spec c Hc), truediv_100. reflexivity.
  - rewrite calculate_data_quality_spec, Ea, Ef. reflexivity.
Qed.

(** X12. On the values the page's sliders can give (three [int]s
    between 0 and 100) the scorer called on [int]s returns, and returns
    exactly what it returns on the floats they convert to: the
    [OverflowError] of the power cannot be reached from the sliders. *)
Theorem sliders_score_as_floats (method : string) (a f c : Z) :
  (0 <= a <= 100)%Z -> (0 <= f <= 100)%Z -> (0 <= c <= 100)%Z ->
  calculate_data_quality_int method a f c
  = calculate_data_quality method (of_int a) (of_int f) (of_int c)
  /\ raises (calculate_data_quality_int method a f c) = false.
Proof.
  intros Ha Hf Hc.
  destruct (calculate_data_quality_int_sliders method a f c Ha Hf Hc) as [E E'].
  split; [exact E|]. now rewrite E, E'.
Qed.

Lemma sliders_score_as_floats_example :
  calculate_data_quality_int "Activity-Based" 20 15 85
  = calculate_data_quality "Activity-Based" (of_int 20) (of_int 15) (of_int 85)
  /\ raises (calculate_data_quality_int "Activity-Based" 20 15 85) = false.
Proof. apply (sliders_score_as_floats "Activity-Based" 20 15 85); lia. Defined.

(** The score and the combined uncertainty the sliders can give. *)
Lemma sliders_score_range (method : string) (a f c : Z) :
  (0 <= a <= 100)%Z -> (0 <= f <= 100)%Z -> (0 <= c <= 100)%Z ->
  exists q u,
    calculate_data_quality_int method a f c = Ok (q, u)
    /\ (8 <=? q)%float = true /\ (q <=? 100)%float = true
    /\ (0 <=? u)%float = true /\ (u <=? 141.42)%float = true.
Proof.
  intros Ha Hf Hc.
  destruct (calculate_data_quality_int_sliders method a f c Ha Hf Hc) as [E E'].
  rewrite E, E'. unfold score_spec. eexists; eexists. split; [reflexivity|].
  destruct (slider_in_range_spec a Ha) as [Ha0 Ha1].
  destruct (slider_in_range_spec f Hf) as [Hf0 Hf1].
  destruct (slider_in_range_spec c Hc) as [Hc0 Hc1].
  rewrite quality_score_total.
  destruct (hierarchy_score_within method) as [Hlow Hh].
  destruct (rounded_total_mono _ _ _ _ _ _ Hlow Hh
              (uncertainty_score_range _ (combined_nonneg (of_int a) (of_int f)))
              (coverage_score_within _ _ (leb_refl _ (nonneg_not_nan _ Hc0))))
    as (L & _ & U).
  split; [exact L|]. split; [exact U|].
  exact (combined_rounded_mono _ 100 _ 100 Ha0 Ha1 Hf0 Hf1).
Qed.

(** ** The scorer: the decimals of the score *)

Lemma decimal_of_mono (x1 x2 : float) (ndigits : Z) :
  finite_pos x1 -> finite_pos x2 -> (x1 <=? x2)%float = true -> (0 <= ndigits)%Z ->
  (0 <= decimal_of x1 ndigits <= decimal_of x2 ndigits)%Z.
Proof.
  intros H1 H2 H Hn.
  destruct (leb_not_nan _ _ H). apply leb_FR in H; try assumption.
  destruct (finite_pos_F2R x1 H1) as (m1 & e1 & E1 & F1).
  destruct (finite_pos_F2R x2 H2) as (m2 & e2 & E2 & F2).
  unfold decimal_of. rewrite E1, E2. rewrite F1, F2 in H.
  now apply decimal_digits_mono.
Qed.

(** The weighted total lies between its values at the worst and at the
    best sub-scores. *)
Lemma total_bounds (h u cs : float) :
  (0.2 <=? h)%float = true -> within h h 1 -> within u u 1 -> within cs cs 1 ->
  finite_pos (total h u cs)
  /\ (total 0.2 0 0 <=? total h u cs)%float = true
  /\ (total h u cs <=? total 1 1 1)%float = true.
Proof.
  intros Hlow Hh Hu Hc.
  assert (Hh' : within 0.2 h 1).
  { destruct Hh as (? & ? & ? & ?). repeat split; try assumption; reflexivity. }
  assert (Hu' : within 0 u 1).
  { destruct Hu as (? & ? & ? & ?). repeat split; try assumption; reflexivity. }
  assert (Hc' : within 0 cs 1).
  { destruct Hc as (? & ? & ? & ?). repeat split; try assumption; reflexivity. }
  destruct (within_total _ _ _ _ _ _ Hh' Hu' Hc') as (_ & Lo & _).
  destruct (within_total _ _ _ _ _ _ Hh Hu Hc) as (_ & _ & Hi & Fin).
  split; [|split; assumption].
  now apply (finite_pos_between (total h u cs) (total 0.2 0 0) (total 1 1 1) eq_refl).
Qed.

(** [round(x, 1)] on a positive finite float is the quotient of an [int]
    by 10. *)
Lemma round_1_int_div (x : float) :
  finite_pos x -> (0 < decimal_of x 1)%Z -> is_finite (round x 1) = true ->
  int_div (decimal_of x 1) 10 = Ok (round x 1).
Proof.
  intros Hx Hk Hfin. unfold int_div, round, decimal_of in *.
  float_shape x sx mx ex.
  destruct (decimal_digits mx ex 1) as [|k|k]; try lia.
  cbn [Z.eqb SF_of_int].
  change (Z.to_pos (10 ^ 1)) with 10%positive in *.
  destruct (SFdiv_rounded false false k 10 0 0) as (Hval & _).
  cbn [xorb] in Hval.
  destruct (SF64div (S754_finite false k 0) (S754_finite false 10 0)) as [s|s| |s m e] eqn:Ed;
    try reflexivity.
  exfalso. unfold is_finite, is_infinity, is_nan in Hfin.
  rewrite !FloatAxioms.eqb_spec, abs_spec, Prim2SF_SF2Prim in Hfin by exact Hval.
  destruct s; discriminate.
Qed.

Lemma leb_is_finite (x k1 k2 : float) :
  (0 <? k1)%float = true -> (k1 <=? x)%float = true -> (x <=? k2)%float = true ->
  is_finite k2 = true -> is_finite x = true.
Proof.
  intros H0 H1 H2 Hf. assert (P := finite_pos_between x k1 k2 H0 H1 H2 Hf).
  unfold finite_pos in P. unfold is_finite, is_infinity, is_nan.
  rewrite !FloatAxioms.eqb_spec, abs_spec.
  destruct (Prim2SF x) as [s|[]| |[] m e]; try contradiction; cbn;
    rewrite ?Z.compare_refl, ?Pos.compare_cont_refl; reflexivity.
Qed.

(** X13. A returned quality score has one decimal: for a coverage that
    is a number it is [k / 10] for an [int] [k] between 80 and 1000, so
    8.0, 8.1, ..., 100.0 are the only scores. *)
Theorem score_has_one_decimal (method : string) (a f c q u : float) :
  is_nan c = false ->
  calculate_data_quality method a f c = Ok (q, u) ->
  exists k : Z, (80 <= k <= 1000)%Z /\ int_div k 10 = Ok q.
Proof.
  intros Hc E. apply calculate_data_quality_Ok in E. subst q.
  rewrite quality_score_total.
  destruct (hierarchy_score_within method) as [Hlow Hh].
  assert (Hu := uncertainty_score_range _ (combined_nonneg a f)).
  assert (Hcs := coverage_score_within c c (leb_refl c Hc)).
  destruct (total_bounds _ _ _ Hlow Hh Hu Hcs) as (P & Lo & Hi).
  destruct (rounded_total_mono _ _ _ _ _ _ Hlow Hh Hu Hcs) as (R8 & _ & R100).
  set (x := total (of_int (rank method) / 5)
              (uncertainty_score (combined_uncertainty_spec a f)) (coverage_score c)) in *.
  destruct (decimal_of_mono (total 0.2 0 0) x 1 I P Lo ltac:(lia)) as [_ K1].
  destruct (decimal_of_mono x (total 1 1 1) 1 P I Hi ltac:(lia)) as [_ K2].
  change (decimal_of (total 0.2 0 0) 1) with 80%Z in K1.
  change (decimal_of (total 1 1 1) 1) with 1000%Z in K2.
  exists (decimal_of x 1). split; [lia|].
  apply round_1_int_div; [exact P | lia |].
  now apply (leb_is_finite _ 8 100).
Qed.

Lemma score_has_one_decimal_example :
  calculate_data_quality "Activity-Based" 40 15 85 = Ok (74.7%float, 42.72%float)
  /\ exists k : Z, (80 <= k <= 1000)%Z /\ int_div k 10 = Ok 74.7%float.
Proof.
  assert (E : calculate_data_quality "Activity-Based" 40 15 85
              = Ok (74.7%float, 42.72%float)) by (vm_compute; reflexivity).
  split; [exact E|].
  exact (score_has_one_decimal "Activity-Based" 40 15 85 74.7 42.72 eq_refl E).
Defined.

(** ** The page: a run *)

(** One run: Business Travel on the EPA factors, 1000 km in economy and
    two hotel nights, the sliders at their defaults, Add Entry pressed on
    a fresh session. *)
Example script_business_travel :
  Page.script business_travel_widgets 0 None
  = Page.Done
      [ Page.mkRow 0 "Business Travel" "EPA" "Activity-Based" 187 85 25 80
          business_travel_record ].
Proof. vm_compute. reflexivity. Qed.

(** ** The page: what the form records *)

Lemma getitem_setitem (inputs : Inputs) (k : string) (v : float) :
  getitem (Page.setitem inputs k v) k = Ok v.
Proof. unfold getitem, Page.setitem. cbn [fields]. now rewrite lookup_insert_eq. Qed.

Lemma dict_getitem_Some {A : Type} (d : list (string * A)) (k : string) (v : A) :
  Page.dict_lookup d k = Some v -> Page.dict_getitem d k = Page.Done v.
Proof. unfold Page.dict_getitem. now intros ->. Qed.

Lemma dataset_factors (factor_dataset : string) :
  In factor_dataset (map fst EMISSION_FACTORS) ->
  exists factors source,
    Page.dict_lookup EMISSION_FACTORS factor_dataset = Some factors
    /\ Page.dict_lookup FACTOR_SOURCES factor_dataset = Some source
    /\ In (factor_dataset, factors) EMISSION_FACTORS.
Proof.
  cbn. intros [<-|[<-|[]]]; eexists; eexists; (split; [reflexivity|]);
    (split; [reflexivity|]); cbn; tauto.
Qed.

Ltac page_steps :=
  repeat (cbn [Page.bind Page.lift]; rewrite ?getitem_setitem).

(** The Business Travel branch: the two entries and the two factors looked
    up in the chosen table, 0.0 standing for a factor the table lacks. *)
Lemma data_entry_business_travel
  (w : Page.Widgets) (category factor_dataset : string) (factors : list (string * float)) :
  family_of category = BusinessTravel ->
  Page.dict_lookup EMISSION_FACTORS factor_dataset = Some factors ->
  exists warnings,
    Page.data_entry w category factor_dataset
    = Page.Done
        (mkInputs
           (<["hotel_factor" :=
                Page.dict_get factors "Business Travel - Hotel (kgCO2e/night)" 0%float]>
            (<["hotel_nights" := Page.number_input w "Hotel nights"]>
            (<["travel_factor" :=
                 Page.dict_get factors
                   ("Business Travel - " ++ Page.selectbox w "Travel class"
                    ++ " (kgCO2e/pkm)") 0%float]>
            (<["distance_km" := Page.number_input w "Travel distance (km)"]> ∅))))
           None,
         warnings)
    /\ (warnings = []
        <-> (Page.dict_get factors
               ("Business Travel - " ++ Page.selectbox w "Travel class"
                ++ " (kgCO2e/pkm)") 0 =? 0)%float = false
            /\ (Page.dict_get factors "Business Travel - Hotel (kgCO2e/night)" 0
                =? 0)%float = false).
Proof.
  unfold family_of. intros Hf Hd.
  destruct (String.eqb category "Business Travel") eqn:Hc.
  2:{ repeat match type of Hf with
             | (if ?b then _ else _) = _ => destruct b; try discriminate
             end. }
  unfold Page.data_entry. rewrite Hc, (dict_getitem_Some _ _ _ Hd). page_steps.
  eexists. split; [reflexivity|]. unfold Page.warning.
  destruct (_ =? 0)%float; destruct (_ =? 0)%float; cbn; split;
    try discriminate; try tauto; intros [? ?]; discriminate.
Qed.
(** The Transportation branch: the first key of the chosen table that
    contains "Transport -" names the factor; it must split at " - " for
    the text the branch shows. *)
Lemma data_entry_transportation
  (w : Page.Widgets) (category factor_dataset : string) (factors : list (string * float)) :
  family_of category = Transportation ->
  Page.dict_lookup EMISSION_FACTORS factor_dataset = Some factors ->
  Page.data_entry w category factor_dataset
  = match Page.first_key_containing "Transport -" factors with
    | None =>
        Page.Done
          (mkInputs
             (<["transport_factor" := 0%float]>
              (<["weight_tonnes" := Page.number_input w "Weight transported (tonnes)"]>
              (<["distance_km" := Page.number_input w "Distance (km)"]> ∅)))
             None,
           ["No transport emission factor found for source " ++ factor_dataset
            ++ "; using 0.0"])
    | Some transport_key =>
        Page.bind (Page.list_getitem (Page.split transport_key " - ") 1) (fun _ =>
        Page.Done
          (mkInputs
             (<["transport_factor" := Page.dict_get factors transport_key 0%float]>
              (<["weight_tonnes" := Page.number_input w "Weight transported (tonnes)"]>
              (<["distance_km" := Page.number_input w "Distance (km)"]> ∅)))
             None,
           []))
    end.
Proof.
  unfold family_of. intros Hf Hd.
  destruct (String.eqb category "Business Travel") eqn:Hb; [discriminate|].
  destruct (contains "Transportation" category) eqn:Hc.
  2:{ repeat match type of Hf with
             | (if ?b then _ else _) = _ => destruct b; try discriminate
             end. }
  unfold Page.data_entry. rewrite Hb, Hc, (dict_getitem_Some _ _ _ Hd). page_steps.
  destruct (Page.first_key_containing "Transport -" factors) as [transport_key|].
  - page_steps. destruct (Page.list_getitem _ 1); page_steps; reflexivity.
  - page_steps. reflexivity.
Qed.

Lemma data_entry_investments (w : Page.Widgets) (category factor_dataset : string) :
  family_of category = Investments ->
  Page.data_entry w category factor_dataset
  = Page.Done
      (mkInputs
         (<["evic" := Page.number_input w "Enterprise value including cash (EVIC) (£)"]>
          (<["outstanding_amount" :=
               Page.number_input w "Outstanding amount invested (£)"]>
          (<["investee_emissions" := Page.number_input w "Investee emissions (kgCO2e)"]> ∅)))
         None,
       []).
Proof.
  unfold family_of. intros Hf.
  destruct (String.eqb category "Business Travel") eqn:Hb; [discriminate|].
  destruct (contains "Transportation" category) eqn:Hc; [discriminate|].
  destruct (String.eqb category "Investments") eqn:Hi.
  2:{ destruct (String.eqb category "Use of Sold Products"); discriminate. }
  unfold Page.data_entry. rewrite Hb, Hc, Hi. reflexivity.
Qed.

(** The Use of Sold Products branch: the first key of the chosen table
    that contains "Grid Electricity" names the factor. *)
Lemma data_entry_use_of_sold_products
  (w : Page.Widgets) (category factor_dataset : string) (factors : list (string * float)) :
  family_of category = UseOfSoldProducts ->
  Page.dict_lookup EMISSION_FACTORS factor_dataset = Some factors ->
  Page.data_entry w category factor_dataset
  = match Page.first_key_containing "Grid Electricity" factors with
    | None =>
        Page.Done
          (mkInputs
             (<["grid_factor" := 0%float]>
              (<["annual_usage_kwh" := Page.number_input w "Annual usage (kWh/year)"]>
              (<["lifetime_years" := Page.number_input w "Product lifetime (years)"]> ∅)))
             None,
           ["No grid electricity factor found for source " ++ factor_dataset
            ++ "; using 0.0"])
    | Some grid_key =>
        Page.Done
          (mkInputs
             (<["grid_factor" := Page.dict_get factors grid_key 0%float]>
              (<["annual_usage_kwh" := Page.number_input w "Annual usage (kWh/year)"]>
              (<["lifetime_years" := Page.number_input w "Product lifetime (years)"]> ∅)))
             None,
           [])
    end.
Proof.
  unfold family_of. intros Hf Hd.
  destruct (String.eqb category "Business Travel") eqn:Hb; [discriminate|].
  destruct (contains "Transportation" category) eqn:Hc; [discriminate|].
  destruct (String.eqb category "Investments") eqn:Hi; [discriminate|].
  destruct (String.eqb category "Use of Sold Products") eqn:Hu; [|discriminate].
  unfold Page.data_entry. rewrite Hb, Hc, Hi, Hu, (dict_getitem_Some _ _ _ Hd).
  page_steps.
  destruct (Page.first_key_containing "Grid Electricity" factors) as [grid_key|].
  - page_steps. reflexivity.
  - page_steps. reflexivity.
Qed.

Lemma data_entry_generic (w : Page.Widgets) (category factor_dataset : string) :
  family_of category = Generic ->
  Page.data_entry w category factor_dataset
  = Page.Done
      (mkInputs
         (<["generic_factor" := Page.number_input w "Emission factor (kgCO2e/unit)"]>
          (<["quantity" := Page.number_input w "Activity quantity"]> ∅))
         (Some (Page.selectbox w "Calculation Method")),
       []).
Proof.
  unfold family_of. intros Hf.
  destruct (String.eqb category "Business Travel") eqn:Hb; [discriminate|].
  destruct (contains "Transportation" category) eqn:Hc; [discriminate|].
  destruct (String.eqb category "Investments") eqn:Hi; [discriminate|].
  destruct (String.eqb category "Use of Sold Products") eqn:Hu; [discriminate|].
  unfold Page.data_entry. rewrite Hb, Hc, Hi, Hu. reflexivity.
Qed.

(** *** The shipped factor tables *)

Lemma shipped_transport_key (factor_dataset : string) (factors : list (string * float)) :
  In (factor_dataset, factors) EMISSION_FACTORS ->
  exists transport_key shown,
    Page.first_key_containing "Transport -" factors = Some transport_key
    /\ Page.list_getitem (Page.split transport_key " - ") 1 = Page.Done shown
    /\ (0 <? Page.dict_get factors transport_key 0)%float = true
    /\ is_finite (Page.dict_get factors transport_key 0%float) = true.
Proof.
  cbn. intros [[= <- <-]|[[= <- <-]|[]]]; eexists; eexists;
    repeat split; vm_compute; reflexivity.
Qed.

Lemma shipped_grid_key (factor_dataset : string) (factors : list (string * float)) :
  In (factor_dataset, factors) EMISSION_FACTORS ->
  exists grid_key,
    Page.first_key_containing "Grid Electricity" factors = Some grid_key
    /\ (0 <? Page.dict_get factors grid_key 0)%float = true
    /\ is_finite (Page.dict_get factors grid_key 0%float) = true.
Proof.
  cbn. intros [[= <- <-]|[[= <- <-]|[]]]; eexists;
    repeat split; vm_compute; reflexivity.
Qed.

Lemma shipped_travel_factors
  (factor_dataset travel_class : string) (factors : list (string * float)) :
  In (factor_dataset, factors) EMISSION_FACTORS ->
  In travel_class ["Air Economy"; "Air Business"] ->
  (0 <? Page.dict_get factors
          ("Business Travel - " ++ travel_class ++ " (kgCO2e/pkm)") 0)%float = true
  /\ is_finite (Page.dict_get factors
                  ("Business Travel - " ++ travel_class ++ " (kgCO2e/pkm)") 0%float) = true
  /\ (0 <? Page.dict_get factors "Business Travel - Hotel (kgCO2e/night)" 0)%float = true
  /\ is_finite (Page.dict_get factors "Business Travel - Hotel (kgCO2e/night)" 0%float)
     = true.
Proof.
  cbn. intros [[= <- <-]|[[= <- <-]|[]]] [<-|[<-|[]]];
    repeat split; vm_compute; reflexivity.
Qed.

Lemma ltb_neq_zero (x : float) : (0 <? x)%float = true -> (x =? 0)%float = false.
Proof.
  rewrite FloatAxioms.ltb_spec, FloatAxioms.eqb_spec, Prim2SF_zero.
  destruct (Prim2SF x) as [s|[]| |[] m e]; try discriminate; reflexivity.
Qed.

Ltac lookup_steps :=
  repeat (rewrite lookup_insert_eq || rewrite lookup_insert_ne by discriminate
          || rewrite lookup_empty).

(** *** The form and the engine *)

Lemma is_Some_insert_keys {A : Type} (m : gmap string A) (i j : string) (x : A) :
  is_Some (<[i := x]> m !! j) <-> i = j \/ is_Some (m !! j).
Proof. apply lookup_insert_is_Some'. Qed.

Lemma is_Some_empty {A : Type} (j : string) : is_Some ((∅ : gmap string A) !! j) <-> False.
Proof. rewrite lookup_empty. split; [intros [x H]; discriminate | tauto]. Qed.

(** X14. The form records what the engine reads: for every category
    label (one of the page's or not) and either factor source, the
    sidebar section returns, the record it leaves holds exactly the
    numeric fields the engine's branch for that label reads, it holds a
    method label exactly in the default branch, and [calculate_emissions]
    returns on it. *)
Theorem form_fits_engine (w : Page.Widgets) :
  In (Page.selectbox w "Emission Factor Source") (map fst EMISSION_FACTORS) ->
  exists sb,
    Page.sidebar w = Page.Done sb
    /\ Page.category sb = Page.selectbox w "Select Category"
    /\ (forall k, is_Some (fields (Page.inputs sb) !! k)
                  <-> In k (fields_read (family_of (Page.category sb))))
    /\ (is_Some (method (Page.inputs sb)) <-> family_of (Page.category sb) = Generic)
    /\ exists e m, calculate_emissions (Page.category sb) (Page.inputs sb) = Ok (e, m).
Proof.
  intros Hds. destruct (dataset_factors _ Hds) as (factors & source & Hd & Hs & Hin).
  unfold Page.sidebar. rewrite (dict_getitem_Some _ _ _ Hs). cbn [Page.bind].
  assert (Hend : forall inputs warnings,
             Page.data_entry w (Page.selectbox w "Select Category")
               (Page.selectbox w "Emission Factor Source") = Page.Done (inputs, warnings) ->
             (forall k, is_Some (fields inputs !! k)
                        <-> In k (fields_read
                                    (family_of (Page.selectbox w "Select Category")))) ->
             (is_Some (method inputs)
              <-> family_of (Page.selectbox w "Select Category") = Generic) ->
             (exists e m, formula (family_of (Page.selectbox w "Select Category")) inputs
                          = Ok (e, m)) ->
             exists sb,
               Page.bind
                 (Page.data_entry w (Page.selectbox w "Select Category")
                    (Page.selectbox w "Emission Factor Source"))
                 (fun '(inputs, warnings) =>
                    Page.Done
                      (Page.mkSidebar (Page.selectbox w "Select Category")
                         (Page.selectbox w "Emission Factor Source") inputs warnings
                         (Page.selectbox w "Method hierarchy")
                         (Page.slider w "Activity data uncertainty (%)")
                         (Page.slider w "Emission factor uncertainty (%)")
                         (Page.slider w "Data coverage (%)")
                         (Page.button w "Add Entry"))) = Page.Done sb
               /\ Page.category sb = Page.selectbox w "Select Category"
               /\ (forall k, is_Some (fields (Page.inputs sb) !! k)
                             <-> In k (fields_read (family_of (Page.category sb))))
               /\ (is_Some (method (Page.inputs sb))
                   <-> family_of (Page.category sb) = Generic)
               /\ exists e m,
                    calculate_emissions (Page.category sb) (Page.inputs sb) = Ok (e, m)).
  { intros inputs warnings E Hk Hm He. rewrite E. cbn [Page.bind].
    eexists. split; [reflexivity|]. cbn [Page.category Page.inputs].
    rewrite calculate_emissions_formula. auto. }
  destruct (family_of (Page.selectbox w "Select Category")) eqn:F.
  - destruct (data_entry_business_travel w _ _ factors F Hd) as (warnings & E & _).
    apply (Hend _ _ E); cbn [fields method fields_read required_fields].
    + intros k. rewrite !is_Some_insert_keys, is_Some_empty. cbn. tauto.
    + split; [intros [x H]; discriminate | discriminate].
    + unfold formula, getitem. cbn [fields]. lookup_steps. cbn [Py.bind]. eauto.
  - assert (E := data_entry_transportation w _ _ factors F Hd).
    destruct (shipped_transport_key _ _ Hin) as (tk & shown & Hk & Hsp & _).
    rewrite Hk, Hsp in E. cbn [Page.bind] in E.
    apply (Hend _ _ E); cbn [fields method fields_read required_fields].
    + intros k. rewrite !is_Some_insert_keys, is_Some_empty. cbn. tauto.
    + split; [intros [x H]; discriminate | discriminate].
    + unfold formula, getitem. cbn [fields]. lookup_steps. cbn [Py.bind]. eauto.
  - assert (E := data_entry_investments w _
                   (Page.selectbox w "Emission Factor Source") F).
    apply (Hend _ _ E); cbn [fields method fields_read required_fields].
    + intros k. rewrite !is_Some_insert_keys, is_Some_empty. cbn. tauto.
    + split; [intros [x H]; discriminate | discriminate].
    + unfold formula, getitem. cbn [fields]. lookup_steps. cbn [Py.bind]. eauto.
  - assert (E := data_entry_use_of_sold_products w _ _ factors F Hd).
    destruct (shipped_grid_key _ _ Hin) as (gk & Hk & _).
    rewrite Hk in E.
    apply (Hend _ _ E); cbn [fields method fields_read required_fields].
    + intros k. rewrite !is_Some_insert_keys, is_Some_empty. cbn. tauto.
    + split; [intros [x H]; discriminate | discriminate].
    + unfold formula, getitem. cbn [fields]. lookup_steps. cbn [Py.bind]. eauto.
  - assert (E := data_entry_generic w _
                   (Page.selectbox w "Emission Factor Source") F).
    apply (Hend _ _ E); cbn [fields method fields_read required_fields].
    + intros k. rewrite !is_Some_insert_keys, is_Some_empty. cbn. tauto.
    + split; [reflexivity | eauto].
    + unfold formula. eauto.
Qed.

Lemma form_fits_engine_example :
  exists sb,
    Page.sidebar business_travel_widgets = Page.Done sb
    /\ Page.category sb = "Business Travel"
    /\ (forall k, is_Some (fields (Page.inputs sb) !! k)
                  <-> In k (fields_read (family_of (Page.category sb))))
    /\ (is_Some (method (Page.inputs sb)) <-> family_of (Page.category sb) = Generic)
    /\ exists e m, calculate_emissions (Page.category sb) (Page.inputs sb) = Ok (e, m).
Proof. apply (form_fits_engine business_travel_widgets). cbn. tauto. Defined.

(** *** A run under the widgets' contract *)

Lemma method_option_label (m : string) :
  is_Some (METHOD_HIERARCHY !! m) -> In m hierarchy_labels.
Proof.
  unfold METHOD_HIERARCHY. rewrite !is_Some_insert_keys, is_Some_empty.
  cbn. intuition.
Qed.

(** Non-negative fields give emissions that are not negative: at least
    zero, or NaN. *)
Lemma formula_nonneg (f : family) (inputs : Inputs) (e : float) (m : string) :
  (forall k v, fields inputs !! k = Some v -> (0 <=? v)%float = true) ->
  formula f inputs = Ok (e, m) -> nonneg_or_nan e = true.
Proof.
  intros Hnn. destruct f; unfold formula, getitem;
    repeat match goal with
    | |- context [fields inputs !! ?k] =>
        let v := fresh "v" in let E := fresh "E" in
        destruct (fields inputs !! k) as [v|] eqn:E; cbn [Py.bind default];
        [apply Hnn, leb_nonneg in E | try discriminate]
    end; intros [= <- _]; try reflexivity.
  - apply add_nonneg; now apply mul_nonneg.
  - apply mul_nonneg; [now apply mul_nonneg | assumption].
  - apply mul_nonneg; [assumption|].
    destruct (v1 =? 0)%float eqn:Hz; [reflexivity | now apply div_nonneg].
  - apply mul_nonneg; [now apply mul_nonneg | assumption].
  - now apply mul_nonneg.
  - now apply mul_nonneg.
  - now apply mul_nonneg.
Qed.

Lemma round_nonneg_or_nan (e : float) (ndigits : Z) :
  nonneg_or_nan e = true -> (0 <= ndigits)%Z ->
  (0 <=? round e ndigits)%float = true \/ is_nan (round e ndigits) = true.
Proof.
  intros H Hn. destruct (nonneg_cases e H) as [H0|Hnan].
  - left. now apply round_nonneg_leb.
  - right. now rewrite round_nan.
Qed.

Ltac field_cases H :=
  cbn [fields] in H;
  repeat (apply lookup_insert_Some in H as [[<- <-]|[_ H]]; [|]);
  try (rewrite lookup_empty in H; discriminate H).

(** Under the contract the sidebar section returns, shows no warning, and
    leaves a record the engine accepts: non-negative fields, positive
    finite factors from the chosen table, a method label of the
    hierarchy. *)
Lemma sidebar_under_contract (w : Page.Widgets) :
  Page.contract w ->
  exists inputs,
    Page.sidebar w
    = Page.Done
        (Page.mkSidebar (Page.selectbox w "Select Category")
           (Page.selectbox w "Emission Factor Source") inputs []
           (Page.selectbox w "Method hierarchy")
           (Page.slider w "Activity data uncertainty (%)")
           (Page.slider w "Emission factor uncertainty (%)")
           (Page.slider w "Data coverage (%)")
           (Page.button w "Add Entry"))
    /\ (forall k v, fields inputs !! k = Some v -> (0 <=? v)%float = true)
    /\ (forall k v, In k factor_fields -> fields inputs !! k = Some v ->
                    (0 <? v)%float = true /\ is_finite v = true)
    /\ (forall k v, fields inputs !! k = Some v ->
                    In k factor_fields \/ exists label, v = Page.number_input w label)
    /\ (forall m, method inputs = Some m -> In m hierarchy_labels)
    /\ exists e m,
         formula (family_of (Page.selectbox w "Select Category")) inputs = Ok (e, m).
Proof.
  intros [_ Hds Htc Hm _ Hnum _].
  destruct (dataset_factors _ Hds) as (factors & source & Hd & Hs & Hin).
  unfold Page.sidebar. rewrite (dict_getitem_Some _ _ _ Hs). cbn [Page.bind].
  destruct (family_of (Page.selectbox w "Select Category")) eqn:F.
  - destruct (data_entry_business_travel w _ _ factors F Hd) as (warnings & E & Hw).
    destruct (shipped_travel_factors _ _ _ Hin Htc) as (T0 & Tf & H0 & Hf).
    assert (warnings = []) as -> by (apply Hw; split; now apply ltb_neq_zero).
    rewrite E. cbn [Page.bind]. eexists. split; [reflexivity|].
    split; [|split; [|split; [|split]]].
    + intros k v H. field_cases H; auto using ltb_leb.
    + intros k v Hk H. field_cases H; auto; cbn in Hk; intuition discriminate.
    + intros k v H. field_cases H; cbn; eauto 7.
    + discriminate.
    + unfold formula, getitem. cbn [fields]. lookup_steps. cbn [Py.bind]. eauto.
  - assert (E := data_entry_transportation w _ _ factors F Hd).
    destruct (shipped_transport_key _ _ Hin) as (tk & shown & Hk & Hsp & T0 & Tf).
    rewrite Hk, Hsp in E. cbn [Page.bind] in E.
    rewrite E. cbn [Page.bind]. eexists. split; [reflexivity|].
    split; [|split; [|split; [|split]]].
    + intros k v H. field_cases H; auto using ltb_leb.
    + intros k v Hk' H. field_cases H; auto; cbn in Hk'; intuition discriminate.
    + intros k v H. field_cases H; cbn; eauto 7.
    + discriminate.
    + unfold formula, getitem. cbn [fields]. lookup_steps. cbn [Py.bind]. eauto.
  - rewrite (data_entry_investments w _ _ F). cbn [Page.bind].
    eexists. split; [reflexivity|]. split; [|split; [|split; [|split]]].
    + intros k v H. field_cases H; auto.
    + intros k v Hk' H. field_cases H; cbn in Hk'; intuition discriminate.
    + intros k v H. field_cases H; cbn; eauto 7.
    + discriminate.
    + unfold formula, getitem. cbn [fields]. lookup_steps. cbn [Py.bind]. eauto.
  - assert (E := data_entry_use_of_sold_products w _ _ factors F Hd).
    destruct (shipped_grid_key _ _ Hin) as (gk & Hk & T0 & Tf).
    rewrite Hk in E. rewrite E. cbn [Page.bind].
    eexists. split; [reflexivity|]. split; [|split; [|split; [|split]]].
    + intros k v H. field_cases H; auto using ltb_leb.
    + intros k v Hk' H. field_cases H; auto; cbn in Hk'; intuition discriminate.
    + intros k v H. field_cases H; cbn; eauto 7.
    + discriminate.
    + unfold formula, getitem. cbn [fields]. lookup_steps. cbn [Py.bind]. eauto.
  - rewrite (data_entry_generic w _ _ F). cbn [Page.bind].
    eexists. split; [reflexivity|]. split; [|split; [|split; [|split]]].
    + intros k v H. field_cases H; auto.
    + intros k v Hk' H. field_cases H; cbn in Hk'; intuition discriminate.
    + intros k v H. field_cases H; cbn; eauto 7.
    + cbn [method]. intros m [= <-]. now apply method_option_label.
    + unfold formula. eauto.
Qed.

Lemma business_travel_widgets_contract : Page.contract business_travel_widgets.
Proof.
  split; cbn [business_travel_widgets Page.selectbox Page.number_input Page.slider].
  - cbn. tauto.
  - cbn. tauto.
  - cbn. tauto.
  - eexists. vm_compute. reflexivity.
  - eexists. vm_compute. reflexivity.
  - intros label. repeat destruct (String.eqb label _); reflexivity.
  - intros label. repeat destruct (String.eqb label _); lia.
Qed.

(** X15. With the shipped factor tables no factor falls back to 0.0:
    under the widgets' contract the sidebar section shows no warning, and
    every emission factor in the record it leaves is positive and
    finite. *)
Theorem shipped_factors_found (w : Page.Widgets) (sb : Page.Sidebar) :
  Page.contract w ->
  Page.sidebar w = Page.Done sb ->
  Page.warnings sb = []
  /\ forall k v, In k factor_fields -> fields (Page.inputs sb) !! k = Some v ->
                 (0 <? v)%float = true /\ is_finite v = true.
Proof.
  intros Hc E. destruct (sidebar_under_contract w Hc) as (inputs & E' & _ & Hf & _).
  rewrite E' in E. injection E as <-. cbn [Page.warnings Page.inputs]. auto.
Qed.

Lemma shipped_factors_found_example :
  Page.warnings
    (Page.mkSidebar "Business Travel" "EPA" business_travel_record []
       "Activity-Based" 20 15 85 true) = []
  /\ forall k v, In k factor_fields -> fields business_travel_record !! k = Some v ->
                 (0 <? v)%float = true /\ is_finite v = true.
Proof.
  apply (shipped_factors_found business_travel_widgets).
  - exact business_travel_widgets_contract.
  - vm_compute. reflexivity.
Defined.

(** X16. Under the widgets' contract a run of the script does not
    raise; it leaves the session's rows unchanged when Add Entry was not
    pressed and appends exactly one row to them when it was. *)
Theorem script_appends_one_row
  (w : Page.Widgets) (now : Z) (session : option (list Page.Row)) :
  Page.contract w ->
  exists data,
    Page.script w now session = Page.Done data
    /\ (Page.button w "Add Entry" = false -> data = default [] session)
    /\ (Page.button w "Add Entry" = true ->
        exists row, data = (default [] session ++ [row])%list).
Proof.
  intros Hc. destruct (sidebar_under_contract w Hc) as (inputs & E & _ & _ & _ & _ & e & m & Hf).
  unfold Page.script. rewrite E. cbn [Page.bind]. unfold Page.add_entry.
  cbn [Page.add_button Page.category Page.inputs Page.quality_method
         Page.activity_uncertainty Page.factor_uncertainty Page.coverage_pct
         Page.factor_dataset].
  destruct (Page.button w "Add Entry").
  - rewrite calculate_emissions_formula, Hf. cbn [Page.lift Page.bind].
    destruct (sliders_score_range (Page.selectbox w "Method hierarchy") _ _ _
                (Page.slider_bounds w Hc "Activity data uncertainty (%)")
                (Page.slider_bounds w Hc "Emission factor uncertainty (%)")
                (Page.slider_bounds w Hc "Data coverage (%)")) as (q & u & Eq & _).
    rewrite Eq. cbn [Page.lift Page.bind].
    eexists. split; [reflexivity|]. split; [discriminate|]. eauto.
  - eexists. split; [reflexivity|]. split; [reflexivity | discriminate].
Qed.

Lemma script_appends_one_row_example :
  exists data,
    Page.script business_travel_widgets 0 None = Page.Done data
    /\ (Page.button business_travel_widgets "Add Entry" = false -> data = default [] None)
    /\ (Page.button business_travel_widgets "Add Entry" = true ->
        exists row, data = (default [] None ++ [row])%list).
Proof.
  exact (script_appends_one_row business_travel_widgets 0 None
           business_travel_widgets_contract).
Defined.

(** X17. A row the handler appends under the widgets' contract holds the
    selected category and factor source, a method that is one of the five
    hierarchy labels or the PCAF label, emissions that are at least zero
    or NaN, a coverage between 0 and 100, a combined uncertainty between
    0 and 141.42 and a quality score between 8 and 100. *)
Theorem appended_row_well_formed
  (w : Page.Widgets) (now : Z) (session : option (list Page.Row))
  (data : list Page.Row) (row : Page.Row) :
  Page.contract w ->
  Page.script w now session = Page.Done (data ++ [row])%list ->
  Page.button w "Add Entry" = true ->
  Page.Category row = Page.selectbox w "Select Category"
  /\ In (Page.Category row) (map snd CATEGORIES)
  /\ In (Page.Source row) (map fst EMISSION_FACTORS)
  /\ In (Page.Method row) result_labels
  /\ ((0 <=? Page.Emissions row)%float = true \/ is_nan (Page.Emissions row) = true)
  /\ (0 <= Page.Coverage row <= 100)%Z
  /\ (0 <=? Page.Combined_Uncertainty row)%float = true
  /\ (Page.Combined_Uncertainty row <=? 141.42)%float = true
  /\ (8 <=? Page.Data_Quality_Score row)%float = true
  /\ (Page.Data_Quality_Score row <=? 100)%float = true.
Proof.
  intros Hc. destruct (sidebar_under_contract w Hc) as (inputs & E & Hnn & _ & _ & Hm & e & m & Hf).
  unfold Page.script. rewrite E. cbn [Page.bind]. unfold Page.add_entry.
  cbn [Page.add_button Page.category Page.inputs Page.quality_method
         Page.activity_uncertainty Page.factor_uncertainty Page.coverage_pct
         Page.factor_dataset].
  intros Hs Hb. rewrite Hb in Hs.
  rewrite calculate_emissions_formula, Hf in Hs. cbn [Page.lift Page.bind] in Hs.
  destruct (sliders_score_range (Page.selectbox w "Method hierarchy") _ _ _
              (Page.slider_bounds w Hc "Activity data uncertainty (%)")
              (Page.slider_bounds w Hc "Emission factor uncertainty (%)")
              (Page.slider_bounds w Hc "Data coverage (%)")) as (q & u & Eq & Q8 & Q100 & U0 & U141).
  rewrite Eq in Hs. cbn [Page.lift Page.bind] in Hs.
  injection Hs as Hs. apply app_inj_tail in Hs as [_ <-].
  cbn [Page.Category Page.Source Page.Method Page.Emissions Page.Coverage
         Page.Combined_Uncertainty Page.Data_Quality_Score].
  repeat split; try assumption.
  - apply (Page.category_option w Hc).
  - apply (Page.dataset_option w Hc).
  - destruct (family_of (Page.selectbox w "Select Category"));
      unfold formula, getitem in Hf;
      repeat match type of Hf with
             | context [fields inputs !! ?k] =>
                 destruct (fields inputs !! k); cbn [Py.bind] in Hf;
                 [|discriminate Hf]
             end;
      injection Hf as _ <-; try (cbn; tauto).
    destruct (method inputs) as [m'|] eqn:Em; cbn [default].
    + apply In_hierarchy_result. now apply Hm.
    + cbn. tauto.
  - apply round_nonneg_or_nan; [|lia]. exact (formula_nonneg _ _ _ _ Hnn Hf).
  - apply (Page.slider_bounds w Hc).
  - apply (Page.slider_bounds w Hc).
Qed.

Lemma appended_row_well_formed_example :
  Page.script business_travel_widgets 0 None
  = Page.Done
      [ Page.mkRow 0 "Business Travel" "EPA" "Activity-Based" 187 85 25 80
          business_travel_record ]
  /\ In "Activity-Based" result_labels
  /\ (8 <=? 80)%float = true /\ (80 <=? 100)%float = true.
Proof.
  assert (E : Page.script business_travel_widgets 0 None
              = Page.Done
                  ([] ++ [ Page.mkRow 0 "Business Travel" "EPA" "Activity-Based"
                             187 85 25 80 business_travel_record ])%list)
    by (vm_compute; reflexivity).
  split; [exact E|].
  destruct (appended_row_well_formed business_travel_widgets 0 None [] _
              business_travel_widgets_contract E eq_refl)
    as (_ & _ & _ & Hm & _ & _ & _ & _ & H8 & H100).
  exact (conj Hm (conj H8 H100)).
Defined.

Lemma investments_widgets_contract : Page.contract investments_widgets.
Proof.
  split; cbn [investments_widgets Page.selectbox Page.number_input Page.slider].
  - cbn. tauto.
  - cbn. tauto.
  - cbn. tauto.
  - eexists. vm_compute. reflexivity.
  - eexists. vm_compute. reflexivity.
  - intros label. repeat destruct (String.eqb label _); reflexivity.
  - intros label. repeat destruct (String.eqb label _); lia.
Qed.

Lemma sidebar_generic_method (w : Page.Widgets) (sb : Page.Sidebar) :
  Page.sidebar w = Page.Done sb ->
  family_of (Page.selectbox w "Select Category") = Generic ->
  method (Page.inputs sb) = Some (Page.selectbox w "Calculation Method").
Proof.
  unfold Page.sidebar. intros E F.
  destruct (Page.dict_getitem FACTOR_SOURCES _); [|discriminate E].
  cbn [Page.bind] in E. rewrite (data_entry_generic w _ _ F) in E.
  cbn [Page.bind] in E. now injection E as <-.
Qed.

(** What the handler appends under the contract, the button pressed. *)
Lemma script_row (w : Page.Widgets) (now : Z) (session : option (list Page.Row)) :
  Page.contract w -> Page.button w "Add Entry" = true ->
  exists inputs e m q u,
    Page.script w now session
    = Page.Done
        (default [] session
         ++ [Page.mkRow now (Page.selectbox w "Select Category")
               (Page.selectbox w "Emission Factor Source") m (round e 2)
               (Page.slider w "Data coverage (%)") u q inputs])%list
    /\ formula (family_of (Page.selectbox w "Select Category")) inputs = Ok (e, m)
    /\ (forall k v, fields inputs !! k = Some v ->
                    (0 <=? v)%float = true
                    /\ (In k factor_fields ->
                        (0 <? v)%float = true /\ is_finite v = true)
                    /\ (~ In k factor_fields ->
                        exists label, v = Page.number_input w label))
    /\ calculate_data_quality_int (Page.selectbox w "Method hierarchy")
         (Page.slider w "Activity data uncertainty (%)")
         (Page.slider w "Emission factor uncertainty (%)")
         (Page.slider w "Data coverage (%)") = Ok (q, u)
    /\ (family_of (Page.selectbox w "Select Category") = Generic ->
        method inputs = Some (Page.selectbox w "Calculation Method")).
Proof.
  intros Hc Hb.
  destruct (sidebar_under_contract w Hc)
    as (inputs & E & Hnn & Hfac & Horigin & _ & e & m & Hf).
  assert (Hgen := sidebar_generic_method w _ E). cbn [Page.inputs] in Hgen.
  destruct (sliders_score_range (Page.selectbox w "Method hierarchy") _ _ _
              (Page.slider_bounds w Hc "Activity data uncertainty (%)")
              (Page.slider_bounds w Hc "Emission factor uncertainty (%)")
              (Page.slider_bounds w Hc "Data coverage (%)")) as (q & u & Eq & _).
  exists inputs, e, m, q, u.
  unfold Page.script. rewrite E. cbn [Page.bind]. unfold Page.add_entry.
  cbn [Page.add_button Page.category Page.inputs Page.quality_method
         Page.activity_uncertainty Page.factor_uncertainty Page.coverage_pct
         Page.factor_dataset].
  rewrite Hb, calculate_emissions_formula, Hf. cbn [Page.lift Page.bind].
  rewrite Eq. cbn [Page.lift Page.bind].
  split; [reflexivity|]. split; [reflexivity|]. split; [|split; [reflexivity|exact Hgen]].
  intros k v Hv. split; [now apply (Hnn k)|]. split; [intros Hk; now apply (Hfac k)|].
  intros Hk. now destruct (Horigin k v Hv).
Qed.

(** X18. The data-quality columns of a row depend on the data-quality
    widgets alone: two runs under the contract whose method-hierarchy
    selection and three sliders agree append rows with the same score,
    combined uncertainty and coverage, whatever the category, the factor
    source and the entries. *)
Theorem score_independent_of_entry
  (w1 w2 : Page.Widgets) (now1 now2 : Z) (session1 session2 : option (list Page.Row))
  (data1 data2 : list Page.Row) (row1 row2 : Page.Row) :
  Page.contract w1 -> Page.contract w2 ->
  Page.selectbox w1 "Method hierarchy" = Page.selectbox w2 "Method hierarchy" ->
  Page.slider w1 "Activity data uncertainty (%)"
  = Page.slider w2 "Activity data uncertainty (%)" ->
  Page.slider w1 "Emission factor uncertainty (%)"
  = Page.slider w2 "Emission factor uncertainty (%)" ->
  Page.slider w1 "Data coverage (%)" = Page.slider w2 "Data coverage (%)" ->
  Page.button w1 "Add Entry" = true -> Page.button w2 "Add Entry" = true ->
  Page.script w1 now1 session1 = Page.Done (data1 ++ [row1])%list ->
  Page.script w2 now2 session2 = Page.Done (data2 ++ [row2])%list ->
  Page.Data_Quality_Score row1 = Page.Data_Quality_Score row2
  /\ Page.Combined_Uncertainty row1 = Page.Combined_Uncertainty row2
  /\ Page.Coverage row1 = Page.Coverage row2.
Proof.
  intros Hc1 Hc2 Hm Ha Hf Hc Hb1 Hb2 E1 E2.
  destruct (script_row w1 now1 session1 Hc1 Hb1) as (i1 & e1 & m1 & q1 & u1 & R1 & _ & _ & Q1 & _).
  destruct (script_row w2 now2 session2 Hc2 Hb2) as (i2 & e2 & m2 & q2 & u2 & R2 & _ & _ & Q2 & _).
  rewrite R1 in E1. rewrite R2 in E2.
  injection E1 as E1. injection E2 as E2.
  apply app_inj_tail in E1 as [_ <-]. apply app_inj_tail in E2 as [_ <-].
  cbn [Page.Data_Quality_Score Page.Combined_Uncertainty Page.Coverage].
  rewrite Hm, Ha, Hf, Hc in Q1. rewrite Q1 in Q2. injection Q2 as -> ->.
  auto.
Qed.

Lemma score_independent_of_entry_example :
  Page.script business_travel_widgets 0 None
  = Page.Done
      [ Page.mkRow 0 "Business Travel" "EPA" "Activity-Based" 187 85 25 80
          business_travel_record ]
  /\ Page.script investments_widgets 1 None
     = Page.Done
         [ Page.mkRow 1 "Investments" "DEFRA" "PCAF Financed Emissions" 100 85 25 80
             investments_tenth_record ]
  /\ 80%float = 80%float /\ 25%float = 25%float /\ 85%Z = 85%Z.
Proof.
  assert (E1 : Page.script business_travel_widgets 0 None
               = Page.Done
                   ([] ++ [ Page.mkRow 0 "Business Travel" "EPA" "Activity-Based"
                              187 85 25 80 business_travel_record ])%list)
    by (vm_compute; reflexivity).
  assert (E2 : Page.script investments_widgets 1 None
               = Page.Done
                   ([] ++ [ Page.mkRow 1 "Investments" "DEFRA" "PCAF Financed Emissions"
                              100 85 25 80 investments_tenth_record ])%list)
    by (vm_compute; reflexivity).
  split; [exact E1|]. split; [exact E2|].
  exact (score_independent_of_entry business_travel_widgets investments_widgets
           0 1 None None [] [] _ _ business_travel_widgets_contract
           investments_widgets_contract eq_refl eq_refl eq_refl eq_refl eq_refl eq_refl
           E1 E2).
Defined.

(** A non-negative float, [+inf] included, times a positive finite one. *)
Lemma mul_pos_nonneg (p f : float) :
  (0 <=? p)%float = true -> (0 <? f)%float = true -> is_finite f = true ->
  (0 <=? p * f)%float = true.
Proof.
  intros Hp H0 Hf.
  assert (Pf : finite_pos f).
  { apply (finite_pos_between f f f); try assumption;
      apply leb_refl; now destruct (ltb_not_nan _ _ H0). }
  destruct (nonneg_split p Hp) as [Hfin | ->].
  - apply (mul_value p f Hfin (finite_pos_nonneg f Pf)).
  - rewrite FloatAxioms.leb_spec, mul_spec, Prim2SF_infinity, Prim2SF_zero.
    unfold finite_pos in Pf.
    destruct (Prim2SF f) as [s|[]| |[] m e]; try contradiction. reflexivity.
Qed.

(** X19. With finite entries no category outside Investments gives NaN:
    under the contract, every number entered being finite, a row appended
    for a category of any other family has emissions at least zero.
    (Investments can give NaN on finite entries, see
    [investments_row_nan].) *)
Theorem finite_entries_give_emissions
  (w : Page.Widgets) (now : Z) (session : option (list Page.Row))
  (data : list Page.Row) (row : Page.Row) :
  Page.contract w ->
  (forall label, is_finite (Page.number_input w label) = true) ->
  family_of (Page.selectbox w "Select Category") <> Investments ->
  Page.button w "Add Entry" = true ->
  Page.script w now session = Page.Done (data ++ [row])%list ->
  (0 <=? Page.Emissions row)%float = true.
Proof.
  intros Hc Hfin Hfam Hb E.
  destruct (script_row w now session Hc Hb) as (inputs & e & m & q & u & R & Hf & Hv & _).
  rewrite R in E. injection E as E. apply app_inj_tail in E as [_ <-].
  cbn [Page.Emissions]. apply round_nonneg_leb; [|lia].
  assert (Hfn : forall k v, fields inputs !! k = Some v -> finite_nonneg v).
  { intros k v Hk. destruct (Hv k v Hk) as (H0 & Hfac & Hnum).
    apply finite_nonneg_of; [exact H0|].
    destruct (In_dec string_dec k factor_fields) as [Hin|Hin].
    - now apply Hfac.
    - destruct (Hnum Hin) as [label ->]. apply Hfin. }
  assert (Hpos : forall k v, In k factor_fields -> fields inputs !! k = Some v ->
                             (0 <? v)%float = true /\ is_finite v = true).
  { intros k v Hin Hk. now apply (Hv k v Hk). }
  destruct (family_of (Page.selectbox w "Select Category"));
    [| | now destruct Hfam | |]; unfold formula, getitem in Hf;
    repeat match type of Hf with
           | context [fields inputs !! ?k] =>
               let v := fresh "v" in let Ek := fresh "Ek" in
               destruct (fields inputs !! k) as [v|] eqn:Ek;
               cbn [Py.bind default] in Hf
           end; try discriminate Hf; injection Hf as <- _.
  - apply add_nonneg_leb; apply mul_value; eauto.
  - destruct (Hpos "transport_factor" v1) as [P F]; [cbn; tauto | assumption |].
    apply mul_pos_nonneg; try assumption. apply mul_value; eauto.
  - destruct (Hpos "grid_factor" v1) as [P F]; [cbn; tauto | assumption |].
    apply mul_pos_nonneg; try assumption. apply mul_value; eauto.
  - apply mul_value; eauto.
  - apply mul_value; [eauto | exact I].
  - apply mul_value; [exact I | eauto].
  - reflexivity.
Qed.

Lemma finite_entries_give_emissions_example :
  Page.script business_travel_widgets 0 None
  = Page.Done
      [ Page.mkRow 0 "Business Travel" "EPA" "Activity-Based" 187 85 25 80
          business_travel_record ]
  /\ (0 <=? 187)%float = true.
Proof.
  assert (E : Page.script business_travel_widgets 0 None
              = Page.Done
                  ([] ++ [ Page.mkRow 0 "Business Travel" "EPA" "Activity-Based"
                             187 85 25 80 business_travel_record ])%list)
    by (vm_compute; reflexivity).
  split; [exact E|].
  refine (finite_entries_give_emissions business_travel_widgets 0 None [] _
            business_travel_widgets_contract _ _ eq_refl E).
  - intros label. cbn [business_travel_widgets Page.number_input].
    repeat destruct (String.eqb label _); reflexivity.
  - vm_compute. discriminate.
Defined.


(** Finite entries on which the Investments row has NaN emissions: no
    investee emissions, and amounts whose ratio overflows. *)
Example investments_row_nan :
  (forall label, is_finite (Page.number_input overflowing_widgets label) = true)
  /\ exists row,
       Page.script overflowing_widgets 0 None = Page.Done [row]
       /\ Page.Category row = "Investments"
       /\ is_nan (Page.Emissions row) = true.
Proof.
  split.
  - intros label. cbn [overflowing_widgets Page.number_input].
    repeat destruct (String.eqb label _); reflexivity.
  - eexists. split; [vm_compute; reflexivity|]. split; reflexivity.
Qed.

Lemma untouched_widgets_contract : Page.contract untouched_widgets.
Proof.
  split; cbn [untouched_widgets Page.selectbox Page.number_input Page.slider].
  - cbn. tauto.
  - cbn. tauto.
  - cbn. tauto.
  - eexists. vm_compute. reflexivity.
  - eexists. vm_compute. reflexivity.
  - reflexivity.
  - intros label. repeat destruct (String.eqb label _); lia.
Qed.

Lemma mul_zero_l (v : float) :
  (0 <? v)%float = true -> is_finite v = true -> (0 * v = 0)%float.
Proof.
  intros H0 Hf.
  assert (P : finite_pos v).
  { apply (finite_pos_between v v v); try assumption;
      apply leb_refl; now destruct (ltb_not_nan _ _ H0). }
  apply Prim2SF_inj. rewrite mul_spec, Prim2SF_zero. unfold finite_pos in P.
  destruct (Prim2SF v) as [s|[]| |[] m e]; try contradiction. reflexivity.
Qed.

(** X20. Entries left at 0.0 give a row with emissions 0.0 in every
    category: in particular the Investments branch, whose enterprise
    value is then zero, does not divide. *)
Theorem untouched_entries_give_zero
  (w : Page.Widgets) (now : Z) (session : option (list Page.Row))
  (data : list Page.Row) (row : Page.Row) :
  Page.contract w ->
  (forall label, Page.number_input w label = 0%float) ->
  Page.button w "Add Entry" = true ->
  Page.script w now session = Page.Done (data ++ [row])%list ->
  Page.Emissions row = 0%float.
Proof.
  intros Hc Hzero Hb E.
  destruct (script_row w now session Hc Hb) as (inputs & e & m & q & u & R & Hf & Hv & _).
  rewrite R in E. injection E as E. apply app_inj_tail in E as [_ <-].
  cbn [Page.Emissions].
  assert (Hnum : forall k v, ~ In k factor_fields -> fields inputs !! k = Some v ->
                             v = 0%float).
  { intros k v Hk Hl. destruct (Hv k v Hl) as (_ & _ & Hn).
    destruct (Hn Hk) as [label ->]. apply Hzero. }
  assert (Hpos : forall k v, In k factor_fields -> fields inputs !! k = Some v ->
                             (0 * v = 0)%float).
  { intros k v Hin Hk. apply mul_zero_l; now apply (Hv k v Hk). }
  assert (Hout : forall k, In k ["distance_km"; "hotel_nights"; "weight_tonnes";
                                 "investee_emissions"; "outstanding_amount"; "evic";
                                 "lifetime_years"; "annual_usage_kwh"; "quantity";
                                 "generic_factor"] -> ~ In k factor_fields).
  { intros k Hk Hin. cbn in Hk, Hin.
    repeat (destruct Hk as [<-|Hk]; [intuition discriminate|]). exact Hk. }
  destruct (family_of (Page.selectbox w "Select Category"));
    unfold formula, getitem in Hf;
    repeat match type of Hf with
           | context [fields inputs !! ?k] =>
               let v := fresh "v" in let Ek := fresh "Ek" in
               destruct (fields inputs !! k) as [v|] eqn:Ek;
               cbn [Py.bind default] in Hf
           end; try discriminate Hf; injection Hf as <- _;
    repeat match goal with
           | H : fields inputs !! ?k = Some ?v |- _ =>
               rewrite (Hnum k v (Hout k ltac:(cbn; tauto)) H) in *; clear H
           end;
    try change (0 * 0)%float with 0%float;
    repeat match goal with
           | H : fields inputs !! ?k = Some ?v |- _ =>
               rewrite (Hpos k v ltac:(cbn; tauto) H); clear H
           end; reflexivity.
Qed.

Lemma untouched_entries_give_zero_example :
  Page.script untouched_widgets 0 None
  = Page.Done
      [ Page.mkRow 0 "Investments" "EPA" "PCAF Financed Emissions" 0 85 25 80
          (mkInputs
             (<["investee_emissions" := 0%float]>
              (<["outstanding_amount" := 0%float]>
              (<["evic" := 0%float]> ∅)))
             None) ]
  /\ 0%float = 0%float.
Proof.
  assert (E : Page.script untouched_widgets 0 None
              = Page.Done
                  ([] ++ [ Page.mkRow 0 "Investments" "EPA" "PCAF Financed Emissions"
                             0 85 25 80
                             (mkInputs
                                (<["investee_emissions" := 0%float]>
                                 (<["outstanding_amount" := 0%float]>
                                 (<["evic" := 0%float]> ∅)))
                                None) ])%list)
    by (vm_compute; reflexivity).
  split; [exact E|].
  exact (untouched_entries_give_zero untouched_widgets 0 None [] _
           untouched_widgets_contract (fun _ => eq_refl) eq_refl E).
Defined.

(** ** The page: categories and methods *)

(** X21. Each category the page offers falls in the engine's branch its
    number stands for: 6 in Business Travel, 4 and 9 in Transportation,
    15 in Investments, 11 in Use of Sold Products, and the other ten in
    the default branch (quantity times generic factor). *)
Theorem page_categories_dispatch (n : Z) (label : string) :
  In (n, label) CATEGORIES -> family_of label = numbered_family n.
Proof.
  unfold CATEGORIES. cbn [In]. intros H.
  repeat (destruct H as [[= <- <-]|H]; [vm_compute; reflexivity|]).
  destruct H.
Qed.

Lemma page_categories_dispatch_example :
  family_of "Downstream Transportation & Distribution" = numbered_family 9.
Proof.
  apply (page_categories_dispatch 9 "Downstream Transportation & Distribution").
  cbn. tauto.
Defined.

(** X22. The method a row records is the branch's own label, and the
    label chosen in the sidebar in the default branch only: under the
    contract an appended row has "PCAF Financed Emissions" for
    Investments, the selection of "Calculation Method" for a category of
    the default branch, and "Activity-Based" otherwise. *)
Theorem appended_row_method
  (w : Page.Widgets) (now : Z) (session : option (list Page.Row))
  (data : list Page.Row) (row : Page.Row) :
  Page.contract w ->
  Page.button w "Add Entry" = true ->
  Page.script w now session = Page.Done (data ++ [row])%list ->
  Page.Method row
  = family_method (family_of (Page.Category row))
      (Page.selectbox w "Calculation Method").
Proof.
  intros Hc Hb E.
  destruct (script_row w now session Hc Hb)
    as (inputs & e & m & q & u & R & Hf & _ & _ & Hgen).
  rewrite R in E. injection E as E. apply app_inj_tail in E as [_ <-].
  cbn [Page.Method Page.Category].
  destruct (family_of (Page.selectbox w "Select Category")) eqn:F;
    unfold formula, getitem in Hf.
  5:{ rewrite (Hgen eq_refl) in Hf. now injection Hf as _ <-. }
  all: repeat match type of Hf with
           | context [fields ?i !! ?k] =>
               destruct (fields i !! k); cbn [Py.bind] in Hf;
               [|discriminate Hf]
           end;
    now injection Hf as _ <-.
Qed.

Lemma appended_row_method_example :
  Page.script investments_widgets 1 None
  = Page.Done
      [ Page.mkRow 1 "Investments" "DEFRA" "PCAF Financed Emissions" 100 85 25 80
          investments_tenth_record ]
  /\ "PCAF Financed Emissions" = family_method (family_of "Investments") "Activity-Based".
Proof.
  assert (E : Page.script investments_widgets 1 None
              = Page.Done
                  ([] ++ [ Page.mkRow 1 "Investments" "DEFRA" "PCAF Financed Emissions"
                             100 85 25 80 investments_tenth_record ])%list)
    by (vm_compute; reflexivity).
  split; [exact E|].
  exact (appended_row_method investments_widgets 1 None [] _
           investments_widgets_contract eq_refl E).
Defined.

(** ** The float power *)

Lemma is_infinity_spec (x : float) :
  is_infinity x = match Prim2SF x with S754_infinity _ => true | _ => false end.
Proof.
  unfold is_infinity. rewrite FloatAxioms.eqb_spec, abs_spec, Prim2SF_infinity.
  now destruct (Prim2SF x) as [s|s| |s m e].
Qed.

Lemma finite_nonneg_not_infinity (x : float) : finite_nonneg x -> is_infinity x = false.
Proof.
  rewrite is_infinity_spec. unfold finite_nonneg.
  destruct (Prim2SF x) as [s|[]| |[] m e]; tauto.
Qed.

Lemma eqb_0_spec (x : float) :
  (x =? 0)%float = match Prim2SF x with S754_zero _ => true | _ => false end.
Proof.
  rewrite FloatAxioms.eqb_spec, Prim2SF_zero.
  now destruct (Prim2SF x) as [s|[]| |[] m e].
Qed.

Lemma ltb_0_spec (x : float) :
  (x <? 0)%float
  = match Prim2SF x with
    | S754_infinity true | S754_finite true _ _ => true
    | _ => false
    end.
Proof.
  rewrite FloatAxioms.ltb_spec, Prim2SF_zero.
  now destruct (Prim2SF x) as [s|[]| |[] m e].
Qed.

Lemma eqb_1_eq (x : float) : (x =? 1)%float = true -> x = 1%float.
Proof.
  rewrite FloatAxioms.eqb_spec. intros H. apply Prim2SF_inj.
  change (Prim2SF 1) with (S754_finite false 4503599627370496 (-52)) in *.
  unfold SFeqb, SFcompare in H.
  destruct (Prim2SF x) as [s|[]| |[] m e]; try discriminate.
  destruct (e ?= -52)%Z eqn:Ee; try discriminate.
  apply Z.compare_eq in Ee. subst e.
  destruct (PosDef.Pos.compare_cont Eq m 4503599627370496) eqn:Em; try discriminate.
  apply Pos.compare_eq in Em. now subst m.
Qed.

(** [float_pow] by the shape of its base: [iv] is the magnitude the
    platform's [pow] receives. *)
Lemma float_pow2_shape (libm_pow2 : float -> float) (x : float) :
  match Prim2SF x with
  | S754_nan => float_pow2 libm_pow2 x = Ok x
  | S754_infinity _ => float_pow2 libm_pow2 x = Ok infinity
  | S754_zero _ => float_pow2 libm_pow2 x = Ok 0%float
  | S754_finite _ m e =>
      exists iv, Prim2SF iv = S754_finite false m e
        /\ float_pow2 libm_pow2 x
           = if (iv =? 1)%float then Ok 1%float
             else if is_infinity (libm_pow2 iv) then Raise OverflowError
             else Ok (libm_pow2 iv)
  end.
Proof.
  unfold float_pow2.
  rewrite is_infinity_spec, eqb_0_spec, ltb_0_spec.
  assert (Ha := abs_spec x). assert (Ho := opp_spec x).
  destruct (is_nan x) eqn:En.
  { apply is_nan_spec in En. now rewrite En. }
  apply is_nan_false_spec in En.
  destruct (Prim2SF x) as [s|s| |s m e] eqn:E; try congruence.
  - f_equal. apply Prim2SF_inj. now rewrite Ha.
  - destruct s.
    + exists (- x)%float. split; [exact Ho | reflexivity].
    + exists x. split; [exact E | reflexivity].
Qed.

Lemma finite_pos_shape (iv : float) (m : positive) (e : Z) :
  Prim2SF iv = S754_finite false m e -> finite_pos iv.
Proof. unfold finite_pos. now intros ->. Qed.

(** [**] raises nothing but [OverflowError]. *)
Lemma float_pow2_raises (libm_pow2 : float -> float) (x : float) (e : exn) :
  float_pow2 libm_pow2 x = Raise e -> e = OverflowError.
Proof.
  assert (H := float_pow2_shape libm_pow2 x).
  destruct (Prim2SF x) as [s|s| |s m ex]; try (rewrite H; discriminate).
  destruct H as (iv & _ & ->).
  destruct (iv =? 1)%float; [discriminate|].
  destruct (is_infinity (libm_pow2 iv)); [|discriminate]. now intros [= <-].
Qed.

(** A square that [**] returns is not below zero, or is the NaN of a NaN
    base. *)
Lemma float_pow2_nonneg (libm_pow2 : float -> float) (x r : float) :
  pow2_nonneg libm_pow2 -> float_pow2 libm_pow2 x = Ok r -> nonneg_or_nan r = true.
Proof.
  intros Hp. assert (H := float_pow2_shape libm_pow2 x). unfold nonneg_or_nan.
  destruct (Prim2SF x) as [s|s| |s m ex] eqn:E.
  - rewrite H. now intros [= <-].
  - rewrite H. now intros [= <-].
  - rewrite H. intros [= <-]. now rewrite E.
  - destruct H as (iv & Hiv & ->).
    destruct (iv =? 1)%float; [now intros [= <-]|].
    destruct (is_infinity (libm_pow2 iv)); [discriminate|]. intros [= <-].
    apply leb_nonneg, Hp. now apply (finite_pos_shape iv m ex).
Qed.

(** On a base that is not below zero. *)
Lemma float_pow2_of_nonneg (libm_pow2 : float -> float) (x : float) :
  (0 <=? x)%float = true ->
  float_pow2 libm_pow2 x
  = if is_infinity x then Ok infinity
    else if (x =? 0)%float then Ok 0%float
    else if (x =? 1)%float then Ok 1%float
    else if is_infinity (libm_pow2 x) then Raise OverflowError
    else Ok (libm_pow2 x).
Proof.
  intros H0. assert (H := float_pow2_shape libm_pow2 x).
  rewrite is_infinity_spec, eqb_0_spec.
  rewrite FloatAxioms.leb_spec, Prim2SF_zero in H0.
  destruct (Prim2SF x) as [s|[]| |[] m ex] eqn:E; try discriminate; try exact H.
  destruct H as (iv & Hiv & ->).
  assert (iv = x) as -> by (apply Prim2SF_inj; congruence). reflexivity.
Qed.

Lemma is_infinity_false_finite (x : float) :
  (0 <=? x)%float = true -> is_infinity x = false -> finite_nonneg x.
Proof.
  intros H0 Hi. destruct (nonneg_split x H0) as [H | ->]; [exact H | discriminate].
Qed.

Lemma eqb_0_false_pos (x : float) :
  finite_nonneg x -> (x =? 0)%float = false -> finite_pos x.
Proof.
  rewrite eqb_0_spec. unfold finite_nonneg, finite_pos.
  destruct (Prim2SF x) as [s|[]| |[] m e]; try tauto; discriminate.
Qed.

(** *** A correctly rounded [pow] *)

Lemma correctly_rounded_nonneg : pow2_nonneg correctly_rounded_pow2.
Proof.
  intros x Hx. unfold correctly_rounded_pow2.
  apply (mul_value x x); now apply finite_pos_nonneg.
Qed.

Lemma is_finite_spec (x : float) :
  is_finite x
  = match Prim2SF x with S754_zero _ | S754_finite _ _ _ => true | _ => false end.
Proof.
  unfold is_finite. rewrite is_infinity_spec.
  destruct (is_nan x) eqn:En.
  - apply is_nan_spec in En. now rewrite En.
  - apply is_nan_false_spec in En. now destruct (Prim2SF x).
Qed.

(** With a correctly rounded [pow] the float power is the rounded
    product, [OverflowError] included. *)
Lemma float_pow2_correctly_rounded (x : float) :
  float_pow2 correctly_rounded_pow2 x = pow2 x.
Proof.
  assert (H := float_pow2_shape correctly_rounded_pow2 x).
  unfold pow2, correctly_rounded_pow2 in *. rewrite is_finite_spec.
  assert (Hm := mul_spec x x).
  destruct (Prim2SF x) as [s|s| |s m e] eqn:E.
  - rewrite H. cbn [andb]. rewrite is_infinity_spec, Hm. cbn.
    f_equal. apply Prim2SF_inj. rewrite Hm. now destruct s.
  - rewrite H. cbn [andb]. f_equal. apply Prim2SF_inj. rewrite Hm. now destruct s.
  - rewrite H. cbn [andb]. f_equal. apply Prim2SF_inj. now rewrite Hm, E.
  - destruct H as (iv & Hiv & ->). cbn [andb].
    assert (Hx : (iv * iv = x * x)%float).
    { apply Prim2SF_inj. rewrite !mul_spec, Hiv, E. now destruct s. }
    rewrite Hx. destruct (iv =? 1)%float eqn:E1; [|reflexivity].
    apply eqb_1_eq in E1. subst iv. now rewrite <- Hx.
Qed.

(** ** Conversions and quotients of [int]s *)

Lemma float_of_int_Ok (n : Z) (s : float) :
  float_of_int n = Ok s ->
  s = SF2Prim (binary_normalize prec emax n 0 false)
  /\ forall sx, binary_normalize prec emax n 0 false <> S754_infinity sx.
Proof.
  unfold float_of_int.
  destruct (binary_normalize prec emax n 0 false) eqn:B; intros H; try discriminate;
    (split; [congruence | discriminate]).
Qed.

Lemma float_of_int_value (n : Z) (s : float) :
  (0 <= n)%Z -> float_of_int n = Ok s ->
  result_rounds (IZR n) s /\ finite_nonneg s.
Proof.
  intros Hn Hs. apply float_of_int_Ok in Hs as [-> Hni].
  destruct (Z.eq_dec n 0%Z) as [->|Hz].
  { split; [|exact I]. now apply (result_rounds_zero _ _ false). }
  assert (H := binary_normalize_rounded n 0%Z ltac:(lia)).
  assert (E : F2R n 0%Z = IZR n) by (unfold F2R; rewrite bpow_0; lra).
  rewrite E in H.
  assert (P := Prim2SF_SF2Prim _ (proj1 H)).
  split.
  - apply rounded_to_result. now rewrite P.
  - unfold finite_nonneg. rewrite P. destruct H as (_ & Hs & _).
    destruct (binary_normalize prec emax n 0 false) as [sx|sx| |sx m e];
      cbn in Hs; try contradiction; subst; try exact I.
    now destruct (Hni false).
Qed.

(** [float(n)] keeps the order of the [int]s that are not below zero. *)
Lemma float_of_int_mono (n1 n2 : Z) (s1 s2 : float) :
  (0 <= n1 <= n2)%Z -> float_of_int n1 = Ok s1 -> float_of_int n2 = Ok s2 ->
  (0 <=? s1)%float = true /\ (s1 <=? s2)%float = true.
Proof.
  intros Hn E1 E2.
  destruct (float_of_int_value n1 s1 ltac:(lia) E1) as [R1 _].
  destruct (float_of_int_value n2 s2 ltac:(lia) E2) as [R2 _].
  split; [apply R1|]. apply (result_rounds_mono _ _ _ _ R1 R2). now apply IZR_le.
Qed.

Lemma float_of_int_raises (n : Z) (e : exn) :
  float_of_int n = Raise e -> e = OverflowError.
Proof.
  unfold float_of_int. destruct (binary_normalize prec emax n 0 false); try discriminate.
  now intros [= <-].
Qed.

Lemma int_div_raises (c d : Z) (e : exn) :
  d <> 0%Z -> int_div c d = Raise e -> e = OverflowError.
Proof.
  intros Hd. unfold int_div. destruct (Z.eqb_spec d 0) as [|_]; [contradiction|].
  destruct (SF64div (SF_of_int c) (SF_of_int d)); try discriminate. now intros [= <-].
Qed.

Lemma int_div_Ok (c d : Z) (q : float) :
  int_div c d = Ok q ->
  d <> 0%Z /\ q = SF2Prim (SF64div (SF_of_int c) (SF_of_int d)).
Proof.
  unfold int_div. destruct (Z.eqb_spec d 0) as [|Hd]; [discriminate|].
  destruct (SF64div (SF_of_int c) (SF_of_int d)) eqn:B; intros H; try discriminate;
    (split; [assumption | congruence]).
Qed.

(** The quotient of an [int] by 100: a number whose value is the
    rounded magnitude of the exact quotient, with the sign of the [int]. *)
Lemma int_div_100_value (c : Z) (q : float) :
  int_div c 100 = Ok q ->
  is_nan q = false
  /\ exists r, rounds (Rabs (IZR c) / 100) r
               /\ FR q = ((if (c <? 0)%Z then -1 else 1) * r)%R.
Proof.
  intros H. apply int_div_Ok in H as [_ ->].
  change (SF_of_int 100) with (S754_finite false 100 0).
  assert (E100 : F2R 100 0 = 100%R) by (unfold F2R; rewrite bpow_0; lra).
  destruct c as [|p|p]; cbn [SF_of_int Z.ltb Z.compare].
  - split; [reflexivity|]. exists 0%R. split.
    + rewrite Rabs_R0. replace (0 / 100)%R with 0%R by lra. apply rounds_0.
    + change (FR (SF2Prim (SF64div (S754_zero false) (S754_finite false 100 0))))
        with (FR 0). rewrite FR_0. lra.
  - destruct (SFdiv_rounded false false p 100 0 0) as (Hv & Hs & r & Hr & Hb).
    assert (P := Prim2SF_SF2Prim _ Hv). cbn [xorb] in *. split.
    + apply is_nan_false_spec. rewrite P. intros En. now rewrite En in Hs.
    + exists r. split.
      * rewrite Rabs_pos_eq by (apply IZR_le; lia).
        rewrite E100 in Hr. replace (F2R (Z.pos p) 0) with (IZR (Z.pos p)) in Hr; [exact Hr|].
        unfold F2R. rewrite bpow_0. lra.
      * unfold FR. rewrite P, Hb. reflexivity.
  - destruct (SFdiv_rounded true false p 100 0 0) as (Hv & Hs & r & Hr & Hb).
    assert (P := Prim2SF_SF2Prim _ Hv). cbn [xorb] in *. split.
    + apply is_nan_false_spec. rewrite P. intros En. now rewrite En in Hs.
    + exists r. split.
      * rewrite Rabs_left by (apply IZR_lt; lia). rewrite <- opp_IZR. cbn [Z.opp].
        rewrite E100 in Hr. replace (F2R (Z.pos p) 0) with (IZR (Z.pos p)) in Hr; [exact Hr|].
        unfold F2R. rewrite bpow_0. lra.
      * unfold FR. rewrite P, Hb. reflexivity.
Qed.

(** [c / 100] keeps the order of the [int]s. *)
Lemma int_div_100_mono (c1 c2 : Z) (q1 q2 : float) :
  (c1 <= c2)%Z -> int_div c1 100 = Ok q1 -> int_div c2 100 = Ok q2 ->
  (q1 <=? q2)%float = true.
Proof.
  intros Hc E1 E2.
  destruct (int_div_100_value c1 q1 E1) as (N1 & r1 & R1 & V1).
  destruct (int_div_100_value c2 q2 E2) as (N2 & r2 & R2 & V2).
  apply leb_FR; try assumption. rewrite V1, V2.
  assert (P1 := rounds_nonneg _ _ R1). assert (P2 := rounds_nonneg _ _ R2).
  destruct (Z.ltb_spec c1 0) as [L1|L1]; destruct (Z.ltb_spec c2 0) as [L2|L2];
    try lia; try lra.
  - assert (r2 <= r1)%R; [|lra]. apply (rounds_mono _ _ _ _ R2 R1).
    rewrite !Rabs_left by (apply IZR_lt; lia). apply IZR_le in Hc. lra.
  - assert (r1 <= r2)%R; [|lra]. apply (rounds_mono _ _ _ _ R1 R2).
    rewrite !Rabs_pos_eq by (apply IZR_le; lia). apply IZR_le in Hc. lra.
Qed.

(** ** The scorer on floats and on [int]s *)

Lemma hierarchy_score_shipped (method : string) :
  int_div (default 1%Z (METHOD_HIERARCHY !! method)) 5
  = Ok (of_int (rank method) / 5)%float.
Proof.
  rewrite rank_table. unfold rank.
  repeat match goal with
    | |- context [String.eqb method ?label] => destruct (String.eqb method label)
    end; vm_compute; reflexivity.
Qed.

(** The statements after the lookups and the square root: the pair of
    the specification. *)
Lemma scorer_tail (method : string) (cu ratio : float) :
  (let* r := truediv cu 100 in
   let uncertainty_score := Py.max 0 (1 - r)%float in
   let coverage_score := Py.min (Py.max ratio 0) 1 in
   let total_score :=
     (((0.4 * (of_int (rank method) / 5)) + (0.3 * uncertainty_score)
       + (0.3 * coverage_score)) * 100)%float in
   Ok (round total_score 1, round cu 2))
  = Ok (score_from method cu ratio).
Proof.
  rewrite truediv_100. cbn [bind]. rewrite min_max_clamp. unfold score_from.
  now rewrite (mul_comm 100).
Qed.

Lemma sum_squares_nonneg (a f : Z) : (0 <= a ^ 2 + f ^ 2)%Z.
Proof. rewrite !Z.pow_2_r. nia. Qed.

Lemma math_sqrt_nonneg (x : float) :
  nonneg_or_nan x = true -> math_sqrt x = Ok (PrimFloat.sqrt x).
Proof. intros H. unfold math_sqrt. now rewrite nonneg_not_ltb. Qed.

(** On three [int]s the scorer is [calculate_data_quality_int], whatever
    the platform's [pow]. *)
Lemma calculate_data_quality_num_int (libm_pow2 : float -> float)
  (method : string) (a f c : Z) :
  calculate_data_quality_num libm_pow2 METHOD_HIERARCHY method (PyInt a) (PyInt f) (PyInt c)
  = calculate_data_quality_int method a f c.
Proof.
  unfold calculate_data_quality_num, calculate_data_quality_int.
  rewrite hierarchy_score_shipped, rank_table.
  cbn [bind num_pow2 num_add num_sqrt to_float num_div_100].
  unfold int_truediv, num_sqrt. cbn [to_float]. change (of_int 5) with 5%float.
  destruct (float_of_int (a ^ 2 + f ^ 2)); reflexivity.
Qed.

(** On three floats and a correctly rounded [pow] the scorer is
    [calculate_data_quality]. *)
Lemma calculate_data_quality_num_correctly_rounded (method : string) (a f c : float) :
  calculate_data_quality_num correctly_rounded_pow2 METHOD_HIERARCHY method
    (PyFloat a) (PyFloat f) (PyFloat c)
  = calculate_data_quality method a f c.
Proof.
  unfold calculate_data_quality_num, calculate_data_quality.
  rewrite hierarchy_score_shipped, rank_table. cbn [bind num_pow2].
  rewrite !float_pow2_correctly_rounded.
  unfold int_truediv. change (of_int 5) with 5%float.
  destruct (pow2 a) as [a2|]; [|reflexivity]. cbn [bind].
  destruct (pow2 f) as [f2|]; reflexivity.
Qed.

(** The scorer on three [int]s: the pair of the specification from the
    converted sum of the exact squares and the quotient of [int]s, or
    [OverflowError] when one of the two is beyond the floats. *)
Lemma calculate_data_quality_int_formula (method : string) (a f c : Z) :
  calculate_data_quality_int method a f c
  = match float_of_int (a ^ 2 + f ^ 2), int_div c 100 with
    | Ok s, Ok q => Ok (score_from method (PrimFloat.sqrt s) q)
    | _, _ => Raise OverflowError
    end.
Proof.
  unfold calculate_data_quality_int.
  destruct (float_of_int (a ^ 2 + f ^ 2)) as [s|e] eqn:Es.
  - destruct (float_of_int_value _ _ (sum_squares_nonneg a f) Es) as [[Hs _] _].
    cbn [bind]. rewrite (math_sqrt_nonneg s) by now apply leb_nonneg.
    cbn [bind]. rewrite truediv_100. cbn [bind].
    destruct (int_div c 100) as [q|e] eqn:Eq.
    + cbn [bind]. rewrite min_max_clamp, rank_table. unfold score_from, int_truediv.
      change (of_int 5) with 5%float. now rewrite (mul_comm 100).
    + cbn [bind]. f_equal. apply (int_div_raises c 100); [lia | exact Eq].
  - cbn [bind]. f_equal. now apply (float_of_int_raises (a ^ 2 + f ^ 2)).
Qed.

(** The scorer on three floats, when the call returns. *)
Lemma calculate_data_quality_num_floats_Ok (libm_pow2 : float -> float)
  (method : string) (a f c q u : float) :
  calculate_data_quality_num libm_pow2 METHOD_HIERARCHY method
    (PyFloat a) (PyFloat f) (PyFloat c) = Ok (q, u) ->
  exists a2 f2,
    float_pow2 libm_pow2 a = Ok a2 /\ float_pow2 libm_pow2 f = Ok f2
    /\ (q, u) = score_from method (PrimFloat.sqrt (a2 + f2)) (c / 100).
Proof.
  unfold calculate_data_quality_num. rewrite hierarchy_score_shipped.
  cbn [bind num_pow2].
  destruct (float_pow2 libm_pow2 a) as [a2|]; [|discriminate]. cbn [bind].
  destruct (float_pow2 libm_pow2 f) as [f2|]; [|discriminate].
  cbn [bind num_add to_float num_sqrt num_div_100]. unfold math_sqrt.
  destruct (a2 + f2 <? 0)%float; [discriminate|]. cbn [bind].
  rewrite !truediv_100. cbn [bind]. rewrite min_max_clamp.
  intros [= <- <-]. exists a2, f2. split; [reflexivity|]. split; [reflexivity|].
  unfold score_from. now rewrite (mul_comm 100).
Qed.

(** The scorer on three floats: the pair of the specification from the
    two squares [**] returns, or the [OverflowError] of [**]. *)
Lemma calculate_data_quality_num_floats (libm_pow2 : float -> float)
  (method : string) (a f c : float) :
  pow2_nonneg libm_pow2 ->
  calculate_data_quality_num libm_pow2 METHOD_HIERARCHY method
    (PyFloat a) (PyFloat f) (PyFloat c)
  = match float_pow2 libm_pow2 a, float_pow2 libm_pow2 f with
    | Ok a2, Ok f2 => Ok (score_from method (PrimFloat.sqrt (a2 + f2)) (c / 100))
    | _, _ => Raise OverflowError
    end.
Proof.
  intros Hp. unfold calculate_data_quality_num. rewrite hierarchy_score_shipped.
  cbn [bind num_pow2].
  destruct (float_pow2 libm_pow2 a) as [a2|e] eqn:Ea.
  - cbn [bind]. destruct (float_pow2 libm_pow2 f) as [f2|e] eqn:Ef.
    + cbn [bind num_add to_float num_sqrt num_div_100].
      rewrite math_sqrt_nonneg
        by (apply add_nonneg; eapply float_pow2_nonneg; eassumption).
      cbn [bind]. rewrite !truediv_100. cbn [bind]. rewrite min_max_clamp.
      unfold score_from. now rewrite (mul_comm 100).
    + cbn [bind]. f_equal. now apply (float_pow2_raises libm_pow2 f).
  - cbn [bind]. f_equal. now apply (float_pow2_raises libm_pow2 a).
Qed.

(** ** The score from the combined uncertainty and the coverage ratio *)

Lemma clamp_within (r1 r2 : float) :
  (r1 <=? r2)%float = true -> within (clamp r1 0 1) (clamp r2 0 1) 1.
Proof.
  intros H. destruct (leb_not_nan _ _ H) as [H1 H2].
  destruct (clamp_01_spec _ H1) as [L1 _]. destruct (clamp_01_spec _ H2) as [_ U2].
  repeat split; try assumption. now apply clamp_01_mono.
Qed.

Lemma score_from_total (method : string) (cu ratio : float) :
  fst (score_from method cu ratio)
  = round (total (of_int (rank method) / 5) (uncertainty_score cu) (clamp ratio 0 1)) 1.
Proof. reflexivity. Qed.

Lemma score_from_within (method : string) (cu cu' ratio ratio' : float) :
  within (uncertainty_score cu) (uncertainty_score cu') 1 ->
  within (clamp ratio 0 1) (clamp ratio' 0 1) 1 ->
  (fst (score_from method cu ratio) <=? fst (score_from method cu' ratio'))%float = true.
Proof.
  intros Hu Hc. rewrite !score_from_total.
  destruct (hierarchy_score_within method) as [Hlow Hh].
  now apply (rounded_total_mono _ _ _ _ _ _ Hlow Hh).
Qed.

(** A NaN ratio makes the score NaN. *)
Lemma score_from_nan (method : string) (cu ratio : float) :
  is_nan ratio = true -> is_nan (fst (score_from method cu ratio)) = true.
Proof.
  intros Hr. unfold score_from. cbn [fst].
  assert (Hcl : is_nan (clamp ratio 0 1) = true).
  { unfold clamp. now rewrite ltb_nan_l, ltb_nan_r. }
  rewrite round_nan; now apply mul_nan_r, add_nan_r, mul_nan_r.
Qed.

(** The score does not rise when the combined uncertainty grows. *)
Lemma score_from_uncertainty (method : string) (cu1 cu2 ratio : float) :
  (0 <=? cu1)%float = true /\ (cu1 <=? cu2)%float = true
  \/ is_nan cu1 = true /\ is_nan cu2 = true ->
  (fst (score_from method cu1 ratio) <? fst (score_from method cu2 ratio))%float = false
  /\ (is_nan ratio = false ->
      (fst (score_from method cu2 ratio) <=? fst (score_from method cu1 ratio))%float = true).
Proof.
  intros Hcu.
  assert (Hnum : is_nan ratio = false ->
                 (fst (score_from method cu2 ratio)
                  <=? fst (score_from method cu1 ratio))%float = true).
  { intros Hr. apply score_from_within; [now apply uncertainty_score_within|].
    now apply clamp_within, leb_refl. }
  split; [|exact Hnum].
  destruct (is_nan ratio) eqn:Hr; [|now apply ltb_leb_false, Hnum].
  now apply ltb_nan_l, score_from_nan.
Qed.

Lemma sqrt_nonneg_or_nan (x : float) : nonneg_or_nan (PrimFloat.sqrt x) = true.
Proof. unfold nonneg_or_nan. rewrite sqrt_spec. apply SFsqrt_nonneg. Qed.

Lemma div_100_not_nan (c : float) : is_nan c = false -> is_nan (c / 100) = false.
Proof. intros H. now apply div_not_nan, finite_pos_100. Qed.

Lemma div_100_nan (c : float) : is_nan c = true -> is_nan (c / 100) = true.
Proof. apply div_nan. Qed.

(** The scorer on three [int]s, when the call returns. *)
Lemma calculate_data_quality_num_ints_Ok (libm_pow2 : float -> float)
  (method : string) (a f c : Z) (q u : float) :
  calculate_data_quality_num libm_pow2 METHOD_HIERARCHY method
    (PyInt a) (PyInt f) (PyInt c) = Ok (q, u) ->
  exists s ratio,
    float_of_int (a ^ 2 + f ^ 2) = Ok s /\ int_div c 100 = Ok ratio
    /\ (q, u) = score_from method (PrimFloat.sqrt s) ratio.
Proof.
  rewrite calculate_data_quality_num_int, calculate_data_quality_int_formula.
  destruct (float_of_int (a ^ 2 + f ^ 2)) as [s|]; [|discriminate].
  destruct (int_div c 100) as [ratio|]; [|discriminate].
  intros [= <- <-]. now exists s, ratio.
Qed.

(** The squares of [int]s that are not below zero, in order. *)
Lemma sum_squares_mono (a1 a2 f1 f2 : Z) :
  (0 <= a1 <= a2)%Z -> (0 <= f1 <= f2)%Z ->
  (0 <= a1 ^ 2 + f1 ^ 2 <= a2 ^ 2 + f2 ^ 2)%Z.
Proof. intros Ha Hf. rewrite !Z.pow_2_r. nia. Qed.

Lemma sum_squares_mono_l (a1 a2 f : Z) :
  (0 <= a1 <= a2)%Z -> (0 <= a1 ^ 2 + f ^ 2 <= a2 ^ 2 + f ^ 2)%Z.
Proof. intros Ha. rewrite !Z.pow_2_r. nia. Qed.

Lemma sum_squares_mono_r (a f1 f2 : Z) :
  (0 <= f1 <= f2)%Z -> (0 <= a ^ 2 + f1 ^ 2 <= a ^ 2 + f2 ^ 2)%Z.
Proof. intros Hf. rewrite !Z.pow_2_r. nia. Qed.

(** The score on [int]s does not rise when the sum of squares grows. *)
Lemma score_ints_uncertainty (method : string) (n1 n2 : Z) (s1 s2 ratio : float) :
  (0 <= n1 <= n2)%Z -> float_of_int n1 = Ok s1 -> float_of_int n2 = Ok s2 ->
  is_nan ratio = false ->
  (fst (score_from method (PrimFloat.sqrt s2) ratio)
   <=? fst (score_from method (PrimFloat.sqrt s1) ratio))%float = true.
Proof.
  intros Hn E1 E2 Hr.
  destruct (float_of_int_mono _ _ _ _ Hn E1 E2) as [H0 H].
  apply score_from_uncertainty; [|exact Hr]. left. now apply sqrt_mono_nonneg.
Qed.

(** ** A [pow] accurate to a unit in the last place *)

Lemma rounds_top : rounds (bpow emax) (bpow emax).
Proof.
  exists (2 ^ 52)%Z, 972%Z, loc_Exact. split.
  - split; [lia|]. split.
    + unfold located. rewrite F2R_bpow by lia. reflexivity.
    + exists 1025%Z. split; [reflexivity|]. split.
      * apply bpow_lt. change emax with 1024%Z. lia.
      * left. apply bpow_le. change emax with 1024%Z. lia.
  - cbn [round_nearest_even]. rewrite F2R_bpow by lia.
    change (52 + 972)%Z with emax. symmetry. apply Rmin_left. lra.
Qed.

(** The shapes of a float that is not NaN, by its value. *)
Lemma not_nan_cases (y : float) :
  is_nan y = false ->
  (FR y < 0)%R \/ finite_nonneg y \/ y = infinity.
Proof.
  intros Hn. apply is_nan_false_spec in Hn.
  assert (Hv := Prim2SF_valid y). assert (Hmax := bpow_pos emax).
  unfold FR, finite_nonneg.
  destruct (Prim2SF y) as [s|[]| |[] m e] eqn:E; try congruence; auto.
  - left. cbn [B2R]. lra.
  - right. right. apply Prim2SF_inj. now rewrite E.
  - left. destruct (valid_finite_bounds _ _ _ Hv). rewrite B2R_finite. unfold signR. lra.
Qed.

(** The nearest float is next to the exact value. *)
Lemma result_rounds_faithful (v : R) (r : float) :
  result_rounds v r -> faithful v r.
Proof.
  intros [H0 Hr]. split; [exact H0|]. intros y Hy.
  assert (Hmax := FR_le_max r). assert (Hv := rounds_nonneg _ _ Hr).
  assert (Hv0 : (0 <= v)%R).
  { destruct Hr as (m & e & l & (Hm & Hl & _) & _).
    destruct (located_bounds v m e l Hl) as [Hlo _].
    assert (0 <= F2R m e)%R; [|lra].
    unfold F2R. apply IZR_le in Hm. assert (He := bpow_pos e). nra. }
  destruct (not_nan_cases y Hy) as [Hneg|[Hfin| ->]].
  - split; lra.
  - assert (Hry := rounds_FR y Hfin). split; intros [A B].
    + assert (FR r <= FR y)%R by (apply (rounds_mono _ _ _ _ Hr Hry); assumption). lra.
    + assert (FR y <= FR r)%R by (apply (rounds_mono _ _ _ _ Hry Hr); assumption). lra.
  - rewrite FR_infinity. split; intros [A B]; [lra|].
    assert (bpow emax <= FR r)%R by (apply (rounds_mono _ _ _ _ rounds_top Hr); assumption).
    lra.
Qed.

Lemma correctly_rounded_faithful : pow2_faithful correctly_rounded_pow2.
Proof.
  intros x Hx. apply result_rounds_faithful. unfold correctly_rounded_pow2.
  apply mul_value; now apply finite_pos_nonneg.
Qed.

Lemma faithful_nonneg (libm_pow2 : float -> float) :
  pow2_faithful libm_pow2 -> pow2_nonneg libm_pow2.
Proof. intros H x Hx. apply (H x Hx). Qed.

(** Two faithful roundings stand in the order of their exact values
    when a float lies between the two values. *)
Lemma faithful_ordered (v1 v2 : R) (r1 r2 g : float) :
  faithful v1 r1 -> faithful v2 r2 -> is_nan g = false ->
  (Rmin v1 (bpow emax) <= FR g <= v2)%R ->
  (r1 <=? r2)%float = true.
Proof.
  intros [P1 F1] [P2 F2] Hg [Hlo Hhi].
  assert (N1 := nonneg_not_nan _ P1). assert (N2 := nonneg_not_nan _ P2).
  apply leb_FR; try assumption.
  destruct (F1 g Hg) as [A _]. destruct (F2 g Hg) as [_ B].
  assert (M1 := FR_le_max r1). assert (Mg := FR_le_max g).
  assert (FR r1 <= FR g)%R.
  { destruct (Rle_dec v1 (bpow emax)) as [Hle|Hgt].
    - rewrite Rmin_left in Hlo by assumption. lra.
    - rewrite Rmin_right in Hlo by lra. lra. }
  lra.
Qed.

(** A 53-bit multiple of a power of two is a float, or beyond the
    floats. *)
Lemma float_with_mantissa (m e : Z) :
  (2 ^ 52 <= m < 2 ^ 53)%Z -> (-1074 <= e)%Z ->
  exists g : float, is_nan g = false /\ FR g = Rmin (F2R m e) (bpow emax).
Proof.
  intros Hm He. destruct (Z_le_gt_dec e 971%Z) as [Hle|Hgt].
  - destruct m as [|p|p]; try lia.
    assert (Hd : Zdigits2 (Z.pos p) = 53%Z) by (apply Zdigits2_unique; lia).
    assert (Hv : valid_binary (S754_finite false p e) = true).
    { unfold SpecFloat.valid_binary, SpecFloat.bounded, SpecFloat.canonical_mantissa.
      change (Z.pos (digits2_pos p)) with (Zdigits2 (Z.pos p)).
      rewrite Hd, fexp_spec. apply andb_true_intro. split.
      - apply Z.eqb_eq. lia.
      - apply Z.leb_le. change (emax - prec)%Z with 971%Z. lia. }
    exists (SF2Prim (S754_finite false p e)).
    assert (P := Prim2SF_SF2Prim _ Hv). split.
    + apply is_nan_false_spec. rewrite P. discriminate.
    + unfold FR. rewrite P, B2R_finite. unfold signR. rewrite Rmult_1_l.
      destruct (valid_finite_bounds _ _ _ Hv). symmetry. apply Rmin_left. lra.
  - exists infinity. split; [reflexivity|]. rewrite FR_infinity.
    symmetry. apply Rmin_right.
    apply Rle_trans with (F2R (2 ^ 52)%Z e); [|apply F2R_le; lia].
    rewrite F2R_bpow by lia. apply bpow_le. change emax with 1024%Z. lia.
Qed.

Lemma float_with_value (m e : Z) :
  (2 ^ 52 <= m <= 2 ^ 53)%Z -> (-1074 <= e)%Z ->
  exists g : float, is_nan g = false /\ FR g = Rmin (F2R m e) (bpow emax).
Proof.
  intros Hm He. destruct (Z.eq_dec m (2 ^ 53)%Z) as [->|Hne].
  - destruct (float_with_mantissa (2 ^ 52)%Z (e + 1)%Z ltac:(lia) ltac:(lia)) as (g & Hg & E).
    exists g. split; [exact Hg|]. rewrite E. f_equal.
    rewrite !F2R_bpow by lia. f_equal. lia.
  - apply float_with_mantissa; lia.
Qed.

(** A positive float from [2^k] up, above the subnormal range, is
    normal: 53 bits, and an exponent from [k - 52] up. *)
Lemma normal_from (x : float) (m : positive) (e k : Z) :
  Prim2SF x = S754_finite false m e -> (-1021 <= k)%Z -> (bpow k <= FR x)%R ->
  (2 ^ 52 <= Z.pos m < 2 ^ 53)%Z /\ (k - 52 <= e)%Z.
Proof.
  intros E Hk Hx. assert (Hv := Prim2SF_valid x). rewrite E in Hv.
  unfold FR in Hx. rewrite E, B2R_finite in Hx. unfold signR in Hx.
  rewrite Rmult_1_l in Hx.
  unfold SpecFloat.valid_binary, SpecFloat.bounded in Hv. apply andb_prop in Hv as [Hc _].
  destruct (canonical_digits m e Hc) as (Hd & He & Hn).
  destruct (F2R_digits_bounds (Z.pos m) e ltac:(lia)) as [Hlo Hhi].
  assert (Hlt : (k < Zdigits2 (Z.pos m) + e)%Z).
  { apply bpow_lt_inv. lra. }
  assert (He' : (-1074 < e)%Z) by lia.
  specialize (Hn He'). destruct (Zdigits2_bounds (Z.pos m) ltac:(lia)) as [_ Hb].
  rewrite Hn in Hb. split; [exact Hb | lia].
Qed.

(** The float above a positive float is at least one unit of its last
    place away. *)
Lemma next_float_above (x1 x2 : float) (m1 : positive) (e1 : Z) :
  Prim2SF x1 = S754_finite false m1 e1 -> finite_pos x2 ->
  (FR x1 < FR x2)%R -> (F2R (Z.pos m1 + 1) e1 <= FR x2)%R.
Proof.
  intros E1 H2 Hlt.
  assert (Hv1 := Prim2SF_valid x1). rewrite E1 in Hv1.
  destruct (finite_pos_F2R x2 H2) as (m2 & e2 & E2 & V2).
  assert (Hv2 := Prim2SF_valid x2). rewrite E2 in Hv2.
  unfold FR in Hlt at 1. rewrite E1, B2R_finite in Hlt. unfold signR in Hlt.
  rewrite Rmult_1_l, V2 in Hlt. rewrite V2.
  unfold SpecFloat.valid_binary, SpecFloat.bounded in Hv1, Hv2.
  apply andb_prop in Hv1 as [Hc1 _]. apply andb_prop in Hv2 as [Hc2 _].
  assert (He : (e1 <= e2)%Z).
  { destruct (Z_le_gt_dec e1 e2) as [|Hgt]; [assumption|].
    assert (H := canonical_lt m2 m1 e2 e1 Hc2 Hc1 ltac:(lia)). lra. }
  rewrite <- (F2R_shift (Z.pos m2) e2 (e2 - e1)) in Hlt |- * by lia.
  replace (e2 - (e2 - e1))%Z with e1 in Hlt |- * by lia.
  apply F2R_lt_inv in Hlt. apply F2R_le. lia.
Qed.

Lemma F2R_square (m e : Z) : (F2R m e * F2R m e = F2R (m * m) (2 * e))%R.
Proof.
  unfold F2R. rewrite mult_IZR. replace (2 * e)%Z with (e + e)%Z by lia.
  rewrite bpow_add. lra.
Qed.

(** The square of a 53-bit integer rounded up to a multiple of [2^k]
    stays below the square of the next integer. *)
Lemma square_rounded_up (m k : Z) :
  (2 ^ 52 <= m < 2 ^ 53)%Z -> (k = 52 \/ k = 53)%Z ->
  let q := ((m * m + 2 ^ k - 1) / 2 ^ k)%Z in
  (m * m <= q * 2 ^ k <= (m + 1) * (m + 1))%Z.
Proof.
  intros Hm Hk q. subst q.
  assert (Hp : (0 < 2 ^ k)%Z) by (destruct Hk as [-> | ->]; lia).
  assert (Hk' : (2 ^ k <= 2 ^ 53)%Z) by (destruct Hk as [-> | ->]; lia).
  assert (H1 := Z.mul_div_le (m * m + 2 ^ k - 1) (2 ^ k) Hp).
  assert (H2 := Z.mul_succ_div_gt (m * m + 2 ^ k - 1) (2 ^ k) Hp).
  nia.
Qed.

(** Between the squares of two positive floats from [2^-511] up there
    is a float, [+inf] standing at [2^1024]. *)
Lemma float_between_squares (x1 x2 : float) :
  finite_pos x1 -> finite_pos x2 -> (FR x1 < FR x2)%R -> (bpow (-511) <= FR x1)%R ->
  exists g, is_nan g = false
            /\ (Rmin (FR x1 * FR x1) (bpow emax) <= FR g <= FR x2 * FR x2)%R.
Proof.
  intros H1 H2 Hlt Hlo.
  destruct (finite_pos_F2R x1 H1) as (m1 & e1 & E1 & V1).
  destruct (normal_from x1 m1 e1 (-511) E1 ltac:(lia) Hlo) as [Hm He].
  assert (Hnext := next_float_above x1 x2 m1 e1 E1 H2 Hlt).
  destruct (finite_pos_facts x1 H1) as [Hx1 _].
  set (P := (Z.pos m1 * Z.pos m1)%Z).
  assert (HP : (2 ^ 104 <= P < 2 ^ 106)%Z) by (unfold P; nia).
  set (k := if (P <? 2 ^ 105)%Z then 52%Z else 53%Z).
  assert (Hk : (k = 52 \/ k = 53)%Z) by (unfold k; destruct (P <? 2 ^ 105)%Z; auto).
  set (q := ((P + 2 ^ k - 1) / 2 ^ k)%Z).
  assert (Hq := square_rounded_up (Z.pos m1) k Hm Hk). cbv zeta in Hq.
  fold P in Hq. fold q in Hq.
  assert (Hqb : (2 ^ 52 <= q <= 2 ^ 53)%Z).
  { unfold q, k. clearbody P. clear Hq q k Hk.
    destruct (Z.ltb_spec P (2 ^ 105)) as [Hc|Hc].
    - change (2 ^ 52)%Z with 4503599627370496%Z.
      change (2 ^ 53)%Z with 9007199254740992%Z.
      change (2 ^ 104)%Z with 20282409603651670423947251286016%Z in HP.
      change (2 ^ 105)%Z with 40564819207303340847894502572032%Z in Hc.
      split; [apply Z.div_le_lower_bound; lia|].
      apply Z.lt_succ_r, Z.div_lt_upper_bound; lia.
    - change (2 ^ 52)%Z with 4503599627370496%Z.
      change (2 ^ 53)%Z with 9007199254740992%Z.
      change (2 ^ 106)%Z with 81129638414606681695789005144064%Z in HP.
      change (2 ^ 105)%Z with 40564819207303340847894502572032%Z in Hc.
      split; [apply Z.div_le_lower_bound; lia|].
      apply Z.lt_succ_r, Z.div_lt_upper_bound; lia. }
  destruct (float_with_value q (2 * e1 + k) Hqb ltac:(lia)) as (g & Hg & Eg).
  exists g. split; [exact Hg|]. rewrite Eg.
  assert (Ev : (FR x1 * FR x1 = F2R P (2 * e1))%R) by (rewrite V1; apply F2R_square).
  assert (EG : F2R q (2 * e1 + k) = F2R (q * 2 ^ k) (2 * e1)).
  { rewrite <- (F2R_shift q (2 * e1 + k) k) by lia. f_equal. lia. }
  assert (Hup : (F2R (q * 2 ^ k) (2 * e1) <= FR x2 * FR x2)%R).
  { apply Rle_trans with (F2R ((Z.pos m1 + 1) * (Z.pos m1 + 1)) (2 * e1)).
    - apply F2R_le. lia.
    - rewrite <- F2R_square.
      assert (0 <= F2R (Z.pos m1 + 1) e1)%R; [|nra].
      unfold F2R. assert (Hb := bpow_pos e1).
      assert (0 <= IZR (Z.pos m1 + 1))%R by (apply IZR_le; lia). nra. }
  split.
  - apply Rle_min_compat_r. rewrite Ev, EG. apply F2R_le. lia.
  - apply Rle_trans with (F2R q (2 * e1 + k)); [apply Rmin_l|]. now rewrite EG.
Qed.

Lemma finite_pos_FR_inj (x y : float) :
  finite_pos x -> finite_pos y -> FR x = FR y -> x = y.
Proof.
  intros Hx Hy E.
  destruct (finite_pos_F2R x Hx) as (m1 & e1 & E1 & V1).
  destruct (finite_pos_F2R y Hy) as (m2 & e2 & E2 & V2).
  assert (Hv1 := Prim2SF_valid x). assert (Hv2 := Prim2SF_valid y).
  rewrite E1 in Hv1. rewrite E2 in Hv2.
  unfold SpecFloat.valid_binary, SpecFloat.bounded in Hv1, Hv2.
  apply andb_prop in Hv1 as [Hc1 _]. apply andb_prop in Hv2 as [Hc2 _].
  assert (Hc := compare_pos_finite m1 m2 e1 e2 Hc1 Hc2).
  rewrite <- V1, <- V2 in Hc. apply Prim2SF_inj. rewrite E1, E2.
  destruct (e1 ?= e2)%Z eqn:Ee; cbn [cmp_spec] in Hc; try lra.
  apply Z.compare_eq in Ee. subst e2.
  destruct (Pos.compare_cont Eq m1 m2) eqn:Em; cbn [cmp_spec] in Hc; try lra.
  apply Pos.compare_eq in Em. now subst m2.
Qed.

(** A faithful rounding is at most a float that the exact value does not
    exceed, and at least a float that does not exceed the exact value. *)
Lemma faithful_le (v : R) (r y : float) :
  faithful v r -> is_nan y = false -> (v <= FR y)%R -> (r <=? y)%float = true.
Proof.
  intros [P F] Hy Hv. apply leb_FR; [now apply nonneg_not_nan | assumption|].
  destruct (F y Hy) as [A _]. lra.
Qed.

Lemma faithful_ge (v : R) (r y : float) :
  faithful v r -> is_nan y = false -> (FR y <= v)%R -> (y <=? r)%float = true.
Proof.
  intros [P F] Hy Hv. apply leb_FR; [assumption | now apply nonneg_not_nan|].
  destruct (F y Hy) as [_ B]. lra.
Qed.

(** With a [pow] accurate to a unit in the last place the squares of
    two bases from [2^-511] up stand in the order of the bases. *)
Lemma faithful_squares_ordered (libm_pow2 : float -> float) (x1 x2 : float) :
  pow2_faithful libm_pow2 -> finite_pos x1 -> finite_pos x2 ->
  (x1 <=? x2)%float = true -> (bpow (-511) <= FR x1)%R ->
  (libm_pow2 x1 <=? libm_pow2 x2)%float = true.
Proof.
  intros Hf H1 H2 Hle Hlo.
  destruct (leb_not_nan _ _ Hle) as [N1 N2].
  apply leb_FR in Hle; try assumption.
  destruct (Req_dec (FR x1) (FR x2)) as [E|Hne].
  - rewrite (finite_pos_FR_inj x1 x2 H1 H2 E).
    apply leb_refl, nonneg_not_nan, (Hf x2 H2).
  - destruct (float_between_squares x1 x2 H1 H2 ltac:(lra) Hlo) as (g & Hg & Hb).
    exact (faithful_ordered _ _ _ _ g (Hf x1 H1) (Hf x2 H2) Hg Hb).
Qed.

Lemma FR_tiny : FR 0x1p-1022 = bpow (-1022).
Proof.
  unfold FR. change (Prim2SF 0x1p-1022) with (S754_finite false 4503599627370496 (-1074)).
  rewrite B2R_finite. unfold signR. rewrite Rmult_1_l.
  change 4503599627370496%Z with (2 ^ 52)%Z. now rewrite F2R_bpow by lia.
Qed.

(** Below [2^-511] a faithful square is at most [2^-1022]. *)
Lemma faithful_square_tiny (libm_pow2 : float -> float) (x : float) :
  pow2_faithful libm_pow2 -> finite_pos x -> (FR x < bpow (-511))%R ->
  (libm_pow2 x <=? 0x1p-1022)%float = true.
Proof.
  intros Hf Hx Hlt. apply (faithful_le _ _ _ (Hf x Hx)); [reflexivity|].
  rewrite FR_tiny. destruct (finite_pos_facts x Hx) as [H0 _].
  replace (-1022)%Z with (-511 + -511)%Z by lia. rewrite bpow_add. nra.
Qed.

Lemma float_pow2_nonneg_leb (libm_pow2 : float -> float) (x r : float) :
  pow2_nonneg libm_pow2 -> (0 <=? x)%float = true ->
  float_pow2 libm_pow2 x = Ok r -> (0 <=? r)%float = true.
Proof.
  intros Hp Hx Hr. rewrite (float_pow2_of_nonneg _ _ Hx) in Hr.
  destruct (is_infinity x) eqn:Ix; [now injection Hr as <-|].
  destruct (x =? 0)%float eqn:Zx; [now injection Hr as <-|].
  destruct (x =? 1)%float; [now injection Hr as <-|].
  destruct (is_infinity (libm_pow2 x)); [discriminate|]. injection Hr as <-.
  apply Hp, eqb_0_false_pos; [now apply is_infinity_false_finite | exact Zx].
Qed.

(** With a [pow] accurate to a unit in the last place, the squares [**]
    returns for two bases that are not below zero stand in the order of
    the bases, unless the smaller base is below [2^-511]: then its
    square is at most [2^-1022]. *)
Lemma float_pow2_faithful_order (libm_pow2 : float -> float) (x1 x2 r1 r2 : float) :
  pow2_faithful libm_pow2 ->
  (0 <=? x1)%float = true -> (x1 <=? x2)%float = true ->
  float_pow2 libm_pow2 x1 = Ok r1 -> float_pow2 libm_pow2 x2 = Ok r2 ->
  (0 <=? r1)%float = true /\ (0 <=? r2)%float = true
  /\ ((r1 <=? r2)%float = true \/ (r1 <=? 0x1p-1022)%float = true).
Proof.
  intros Hf H0 H12 E1 E2. assert (Hp := faithful_nonneg _ Hf).
  assert (H02 : (0 <=? x2)%float = true) by now apply (leb_trans _ x1).
  assert (R1 := float_pow2_nonneg_leb _ _ _ Hp H0 E1).
  assert (R2 := float_pow2_nonneg_leb _ _ _ Hp H02 E2).
  split; [exact R1|]. split; [exact R2|].
  rewrite (float_pow2_of_nonneg _ _ H0) in E1.
  rewrite (float_pow2_of_nonneg _ _ H02) in E2.
  destruct (is_infinity x2) eqn:I2.
  { injection E2 as <-. left. now apply leb_infinity, nonneg_not_nan. }
  assert (F2 := is_infinity_false_finite _ H02 I2).
  assert (F1 := le_finite_nonneg _ _ H0 H12 F2).
  rewrite (finite_nonneg_not_infinity x1 F1) in E1.
  destruct (x1 =? 0)%float eqn:Z1.
  { injection E1 as <-. now left. }
  assert (P1 := eqb_0_false_pos _ F1 Z1).
  destruct (finite_pos_facts x1 P1) as [Hpos1 _].
  destruct (finite_nonneg_facts x2 F2) as (Hn2 & _ & _).
  assert (Hle := H12). apply leb_FR in Hle; [|now apply nonneg_not_nan|assumption].
  destruct (x2 =? 0)%float eqn:Z2.
  { exfalso. rewrite eqb_0_spec in Z2. unfold FR in Hle at 2.
    destruct (Prim2SF x2) as [s|[]| |[] m e]; try discriminate.
    cbn [B2R] in Hle. lra. }
  assert (P2 := eqb_0_false_pos _ F2 Z2).
  destruct (x1 =? 1)%float eqn:O1; destruct (x2 =? 1)%float eqn:O2.
  - injection E1 as <-. injection E2 as <-. now left.
  - apply eqb_1_eq in O1. subst x1. injection E1 as <-.
    destruct (is_infinity (libm_pow2 x2)); [discriminate|]. injection E2 as <-.
    left. apply (faithful_ge _ _ _ (Hf x2 P2)); [reflexivity|].
    rewrite FR_1 in *. nra.
  - apply eqb_1_eq in O2. subst x2. injection E2 as <-.
    destruct (is_infinity (libm_pow2 x1)); [discriminate|]. injection E1 as <-.
    left. apply (faithful_le _ _ _ (Hf x1 P1)); [reflexivity|].
    rewrite FR_1 in *. nra.
  - destruct (is_infinity (libm_pow2 x1)); [discriminate|]. injection E1 as <-.
    destruct (is_infinity (libm_pow2 x2)); [discriminate|]. injection E2 as <-.
    destruct (Rle_dec (bpow (-511)) (FR x1)) as [Hlo|Hlo].
    + left. now apply faithful_squares_ordered.
    + right. apply faithful_square_tiny; try assumption. lra.
Qed.

(** *** Squares in the subnormal range *)

(** From [2^-960] up, adding [2^-1022] changes nothing. *)
Lemma tiny_absorbed (t : float) :
  finite_pos t -> (bpow (-960) <= FR t)%R -> FR (0x1p-1022 + t) = FR t.
Proof.
  intros Ht Hlo.
  destruct (finite_pos_F2R t Ht) as (m & e & E & V).
  destruct (normal_from t m e (-960) E ltac:(lia) Hlo) as [Hm He].
  destruct (finite_pos_facts t Ht) as [_ Hmax].
  assert (A : result_rounds (FR 0x1p-1022 + FR t) (0x1p-1022 + t)).
  { apply add_value; [exact I | now apply finite_pos_nonneg]. }
  destruct A as [_ A]. apply (rounds_unique _ _ _ A).
  rewrite FR_tiny, V.
  assert (Hb := bpow_pos e). assert (Ht1 := bpow_pos (-1022)).
  assert (Hhalf : (bpow (-1022) < / 2 * bpow e)%R).
  { replace e with ((e - 1) + 1)%Z at 1 by lia. rewrite bpow_succ.
    assert (bpow (-1022) < bpow (e - 1))%R by (apply bpow_lt; lia). lra. }
  assert (Hm' : (IZR (2 ^ 52) <= IZR (Z.pos m) <= IZR (2 ^ 53 - 1))%R)
    by (split; apply IZR_le; lia).
  exists (Z.pos m), e, (loc_Inexact Lt). split.
  - split; [lia|]. split.
    + unfold located, F2R. lra.
    + exists (53 + e)%Z. split; [rewrite fexp_spec; lia|]. split.
      * rewrite <- (F2R_bpow 53 e) by lia. unfold F2R.
        rewrite minus_IZR in Hm'. nra.
      * left. replace (53 + e - 1)%Z with (52 + e)%Z by lia.
        rewrite <- (F2R_bpow 52 e) by lia. unfold F2R. nra.
  - cbn [round_nearest_even]. symmetry. apply Rmin_left. rewrite <- V. lra.
Qed.

Lemma add_zero_pos (t : float) : finite_pos t -> (0 + t = t)%float.
Proof.
  intros Ht. apply Prim2SF_inj. rewrite add_spec, Prim2SF_zero.
  unfold finite_pos in Ht. destruct (Prim2SF t) as [s|[]| |[] m e]; try contradiction.
  reflexivity.
Qed.

Lemma FR_960 : FR 0x1p-960 = bpow (-960).
Proof.
  unfold FR. change (Prim2SF 0x1p-960) with (S754_finite false 4503599627370496 (-1012)).
  rewrite B2R_finite. unfold signR. rewrite Rmult_1_l.
  change 4503599627370496%Z with (2 ^ 52)%Z. now rewrite F2R_bpow by lia.
Qed.

(** Adding [2^-1022] to a float that is not below zero either changes
    nothing or leaves a sum of at most [2^-950]. *)
Lemma tiny_sum (t : float) :
  (0 <=? t)%float = true ->
  (0x1p-1022 + t <=? 0 + t)%float = true \/ (0x1p-1022 + t <=? 0x1p-950)%float = true.
Proof.
  intros Ht. assert (Hn := nonneg_not_nan _ Ht).
  destruct (leb_or_ltb 0x1p-960 t eq_refl Hn) as [Hbig|Hsmall].
  - left. destruct (nonneg_split t Ht) as [Hf | ->]; [|reflexivity].
    assert (Hle := Hbig). apply leb_FR in Hle; [|reflexivity|assumption].
    rewrite FR_960 in Hle.
    assert (Hp : finite_pos t).
    { destruct (finite_nonneg_cases t Hf) as [[s Hs]|Hp]; [|exact Hp].
      exfalso. unfold FR in Hle. rewrite Hs in Hle. cbn [B2R] in Hle.
      assert (H := bpow_pos (-960)). lra. }
    rewrite (add_zero_pos t Hp). apply leb_FR; [|assumption|].
    + apply nonneg_not_nan. apply add_nonneg_leb; [reflexivity | assumption].
    + rewrite (tiny_absorbed t Hp Hle). lra.
  - right. apply (leb_trans _ (0x1p-1022 + 0x1p-960)); [|reflexivity].
    apply add_mono_r; [reflexivity | assumption | now apply ltb_leb].
Qed.

(** A sum of at most [2^-950] has the full uncertainty score and reports
    no combined uncertainty. *)
Lemma uncertainty_score_tiny (z : float) :
  (0 <=? z)%float = true -> (z <=? 0x1p-950)%float = true ->
  (1 <=? uncertainty_score (PrimFloat.sqrt z))%float = true.
Proof.
  intros H0 Hz. destruct (sqrt_mono_nonneg z 0x1p-950 H0 Hz) as [R0 R].
  apply (leb_trans _ (uncertainty_score (PrimFloat.sqrt 0x1p-950))); [reflexivity|].
  now apply uncertainty_score_anti.
Qed.

Lemma reported_tiny (z : float) :
  (0 <=? z)%float = true -> (z <=? 0x1p-950)%float = true ->
  (round (PrimFloat.sqrt z) 2 <=? 0)%float = true.
Proof.
  intros H0 Hz. destruct (sqrt_mono_nonneg z 0x1p-950 H0 Hz) as [R0 R].
  apply (leb_trans _ (round (PrimFloat.sqrt 0x1p-950) 2)); [|reflexivity].
  now apply round_mono_nonneg.
Qed.

(** The uncertainty score does not rise from the first pair of squares
    to the second when the first squares stand in the order of the
    second or are at most [2^-1022]. *)
Lemma uncertainty_score_order (s1 s2 t : float) :
  (0 <=? s1)%float = true -> (0 <=? s2)%float = true ->
  (s1 <=? s2)%float = true \/ (s1 <=? 0x1p-1022)%float = true ->
  nonneg_or_nan t = true ->
  within (uncertainty_score (PrimFloat.sqrt (s2 + t)))
    (uncertainty_score (PrimFloat.sqrt (s1 + t))) 1.
Proof.
  intros H1 H2 Hord Ht. destruct (nonneg_cases _ Ht) as [Hp|Hn].
  2:{ apply uncertainty_score_within. right. split; now apply sqrt_nan, add_nan_r. }
  assert (Hchain : (s1 + t <=? s2 + t)%float = true ->
                   within (uncertainty_score (PrimFloat.sqrt (s2 + t)))
                     (uncertainty_score (PrimFloat.sqrt (s1 + t))) 1).
  { intros Hle. apply uncertainty_score_within. left.
    apply sqrt_mono_nonneg; [now apply add_nonneg_leb | exact Hle]. }
  destruct Hord as [Hle|Htiny]; [now apply Hchain, add_mono_l|].
  assert (Hs : (s1 + t <=? 0x1p-1022 + t)%float = true) by now apply add_mono_l.
  destruct (tiny_sum t Hp) as [A|B].
  - apply Hchain. apply (leb_trans _ (0x1p-1022 + t)); [exact Hs|].
    apply (leb_trans _ (0 + t)); [exact A|]. apply add_mono_l; [reflexivity|assumption..].
  - assert (Hz := leb_trans _ _ _ Hs B).
    assert (H1' := uncertainty_score_tiny (s1 + t) (add_nonneg_leb _ _ H1 Hp) Hz).
    destruct (uncertainty_score_range (PrimFloat.sqrt (s2 + t)) (sqrt_nonneg_or_nan _))
      as (L2 & _ & U2 & F2).
    destruct (uncertainty_score_range (PrimFloat.sqrt (s1 + t)) (sqrt_nonneg_or_nan _))
      as (_ & _ & U1 & _).
    split; [exact L2|]. split; [now apply (leb_trans _ 1)|]. split; assumption.
Qed.

Lemma uncertainty_score_order_r (s t1 t2 : float) :
  (0 <=? t1)%float = true -> (0 <=? t2)%float = true ->
  (t1 <=? t2)%float = true \/ (t1 <=? 0x1p-1022)%float = true ->
  nonneg_or_nan s = true ->
  within (uncertainty_score (PrimFloat.sqrt (s + t2)))
    (uncertainty_score (PrimFloat.sqrt (s + t1))) 1.
Proof.
  intros H1 H2 Hord Hs. rewrite (add_comm s t2), (add_comm s t1).
  now apply uncertainty_score_order.
Qed.

(** The reported combined uncertainty, likewise, for two pairs of
    squares. *)
Lemma reported_order (s1 s2 t1 t2 : float) :
  (0 <=? s1)%float = true -> (0 <=? s2)%float = true ->
  (s1 <=? s2)%float = true \/ (s1 <=? 0x1p-1022)%float = true ->
  (0 <=? t1)%float = true -> (0 <=? t2)%float = true ->
  (t1 <=? t2)%float = true \/ (t1 <=? 0x1p-1022)%float = true ->
  (0 <=? round (PrimFloat.sqrt (s1 + t1)) 2)%float = true
  /\ (round (PrimFloat.sqrt (s1 + t1)) 2 <=? round (PrimFloat.sqrt (s2 + t2)) 2)%float = true.
Proof.
  intros S1 S2 Hs T1 T2 Ht.
  assert (Z1 := add_nonneg_leb _ _ S1 T1). assert (Z2 := add_nonneg_leb _ _ S2 T2).
  assert (Hchain : (s1 + t1 <=? s2 + t2)%float = true ->
                   (round (PrimFloat.sqrt (s1 + t1)) 2
                    <=? round (PrimFloat.sqrt (s2 + t2)) 2)%float = true).
  { intros Hle. destruct (sqrt_mono_nonneg _ _ Z1 Hle) as [R0 R].
    apply round_mono_nonneg; try assumption. lia. }
  assert (Htiny : (s1 + t1 <=? 0x1p-950)%float = true ->
                  (round (PrimFloat.sqrt (s1 + t1)) 2
                   <=? round (PrimFloat.sqrt (s2 + t2)) 2)%float = true).
  { intros Hz. apply (leb_trans _ 0); [now apply reported_tiny|].
    apply round_nonneg_leb; [|lia].
    apply (sqrt_mono_nonneg (s2 + t2) (s2 + t2) Z2). now apply leb_refl, nonneg_not_nan. }
  split.
  { apply round_nonneg_leb; [|lia].
    apply (sqrt_mono_nonneg (s1 + t1) (s1 + t1) Z1). now apply leb_refl, nonneg_not_nan. }
  destruct Hs as [Hs|Hs]; destruct Ht as [Ht|Ht].
  - apply Hchain. now apply add_mono_any.
  - (* the second squares are tiny *)
    assert (A : (s1 + t1 <=? s1 + 0x1p-1022)%float = true) by now apply add_mono_r.
    rewrite (add_comm s1 0x1p-1022) in A.
    destruct (tiny_sum s1 S1) as [B|B].
    + apply Hchain. apply (leb_trans _ (0x1p-1022 + s1)); [exact A|].
      apply (leb_trans _ (0 + s1)); [exact B|].
      rewrite (add_comm 0 s1). now apply add_mono_any.
    + apply Htiny. now apply (leb_trans _ (0x1p-1022 + s1)).
  - (* the first squares are tiny *)
    assert (A : (s1 + t1 <=? 0x1p-1022 + t1)%float = true) by now apply add_mono_l.
    destruct (tiny_sum t1 T1) as [B|B].
    + apply Hchain. apply (leb_trans _ (0x1p-1022 + t1)); [exact A|].
      apply (leb_trans _ (0 + t1)); [exact B|]. now apply add_mono_any.
    + apply Htiny. now apply (leb_trans _ (0x1p-1022 + t1)).
  - apply Htiny. apply (leb_trans _ (0x1p-1022 + 0x1p-1022)); [|reflexivity].
    now apply add_mono_any.
Qed.

(** The score does not rise when the uncertainty score does not. *)
Lemma score_from_uncertainty_scores (method : string) (cu1 cu2 ratio : float) :
  within (uncertainty_score cu2) (uncertainty_score cu1) 1 ->
  (fst (score_from method cu1 ratio) <? fst (score_from method cu2 ratio))%float = false
  /\ (is_nan ratio = false ->
      (fst (score_from method cu2 ratio) <=? fst (score_from method cu1 ratio))%float = true).
Proof.
  intros Hcu.
  assert (Hnum : is_nan ratio = false ->
                 (fst (score_from method cu2 ratio)
                  <=? fst (score_from method cu1 ratio))%float = true).
  { intros Hr. apply score_from_within; [exact Hcu|].
    now apply clamp_within, leb_refl. }
  split; [|exact Hnum].
  destruct (is_nan ratio) eqn:Hr; [|now apply ltb_leb_false, Hnum].
  now apply ltb_nan_l, score_from_nan.
Qed.

(** *** A [pow] that does not round correctly *)

Lemma F2R_lt (m1 m2 e : Z) : (m1 < m2)%Z -> (F2R m1 e < F2R m2 e)%R.
Proof.
  intros H. unfold F2R. apply IZR_lt in H. assert (He := bpow_pos e). nra.
Qed.

(** Of two floats next to each other, the upper one is a faithful
    rounding of every value above the lower one and up to itself. *)
Lemma faithful_upper (v : R) (p r : float) (m : positive) (e : Z) :
  Prim2SF p = S754_finite false m e -> finite_pos r ->
  FR r = F2R (Z.pos m + 1) e ->
  (FR p < v <= FR r)%R -> faithful v r.
Proof.
  intros Ep Hr Er [Hlo Hhi].
  assert (Hp : finite_pos p) by (unfold finite_pos; now rewrite Ep).
  destruct (finite_pos_facts p Hp) as [Hp0 _].
  destruct (finite_pos_facts r Hr) as [Hr0 Hrmax].
  split.
  { now apply ltb_leb, finite_pos_ltb. }
  intros y Hy. destruct (not_nan_cases y Hy) as [Hneg|[Hfin| ->]].
  - split; lra.
  - split; [|lra]. intros [A B].
    destruct (finite_nonneg_cases y Hfin) as [[s Hs]|Hpos].
    + unfold FR in A. rewrite Hs in A. cbn [B2R] in A. lra.
    + assert (H := next_float_above p y m e Ep Hpos ltac:(lra)). lra.
  - rewrite FR_infinity. split; lra.
Qed.

Lemma last_place_faithful : pow2_faithful last_place_pow2.
Proof.
  intros x Hx. unfold last_place_pow2.
  destruct (x =? 39.15618756978263)%float eqn:E.
  2:{ now apply correctly_rounded_faithful. }
  assert (x = 39.15618756978263%float) as ->.
  { rewrite FloatAxioms.eqb_spec in E. apply Prim2SF_inj.
    change (Prim2SF 39.15618756978263)
      with (S754_finite false 5510743492141322 (-47)) in *.
    unfold SFeqb, SFcompare in E.
    destruct (Prim2SF x) as [s|[]| |[] m e]; try discriminate.
    destruct (e ?= -47)%Z eqn:Ee; try discriminate.
    apply Z.compare_eq in Ee. subst e.
    destruct (PosDef.Pos.compare_cont Eq m 5510743492141322) eqn:Em; try discriminate.
    apply Pos.compare_eq in Em. now subst m. }
  apply (faithful_upper _ 0x1.7f4d3fe5c91d0p+10 _ 6743115807101392 (-42)).
  - reflexivity.
  - exact I.
  - unfold FR. change (Prim2SF 1533.207025) with (S754_finite false 6743115807101393 (-42)).
    rewrite B2R_finite. unfold signR. now rewrite Rmult_1_l.
  - unfold FR.
    change (Prim2SF 39.15618756978263) with (S754_finite false 5510743492141322 (-47)).
    change (Prim2SF 1533.207025) with (S754_finite false 6743115807101393 (-42)).
    change (Prim2SF 0x1.7f4d3fe5c91d0p+10) with (S754_finite false 6743115807101392 (-42)).
    rewrite !B2R_finite. unfold signR. rewrite !Rmult_1_l, F2R_square.
    rewrite <- (F2R_shift 6743115807101392 (-42) 52) by lia.
    rewrite <- (F2R_shift 6743115807101393 (-42) 52) by lia.
    change (-42 - 52)%Z with (2 * -47)%Z.
    split; [apply F2R_lt | apply F2R_le]; lia.
Qed.

(** On that base the reported combined uncertainty follows the square
    the platform gives: 39.3 here, 39.29 where [pow] rounds
    correctly. *)
Example score_last_place :
  calculate_data_quality_num last_place_pow2 METHOD_HIERARCHY "Activity-Based"
    (PyFloat 3.3) (PyFloat 39.15618756978263) (PyFloat 85) = Ok (75.7%float, 39.3%float)
  /\ calculate_data_quality_num correctly_rounded_pow2 METHOD_HIERARCHY "Activity-Based"
       (PyFloat 3.3) (PyFloat 39.15618756978263) (PyFloat 85) = Ok (75.7%float, 39.29%float).
Proof. split; vm_compute; reflexivity. Qed.

(** ** The scorer against the specification's formula, as Python runs it *)

(** C1 (amended). For every method label the call returns exactly the
    pair the specification writes, the rounded score and the rounded,
    unclamped root of the sum of squares, each operation rounding to
    binary64, with the squares as Python gives them.

    On three floats the squares are what [**] returns: the platform's
    [pow], which need not be the float nearest to the exact square; the
    call raises [OverflowError] when [**] does, that is when a finite
    base has a power beyond the floats, and nothing else.  On three
    [int]s the squares and their sum are exact and the sum is converted
    to a float for the root; the call raises [OverflowError] when the sum
    or the quotient [coverage_pct / 100] is beyond the floats.  On the
    [int]s the page's sliders give, 0 to 100, the call returns, and
    returns the pair of the specification with the squares taken as float
    products, which are exact there. *)
Theorem score_formula (libm_pow2 : float -> float) (method : string) :
  (pow2_nonneg libm_pow2 ->
   forall a f c : float,
     calculate_data_quality_num libm_pow2 METHOD_HIERARCHY method
       (PyFloat a) (PyFloat f) (PyFloat c)
     = match float_pow2 libm_pow2 a, float_pow2 libm_pow2 f with
       | Ok a2, Ok f2 => Ok (score_from method (PrimFloat.sqrt (a2 + f2)) (c / 100))
       | _, _ => Raise OverflowError
       end)
  /\ (forall a f c : Z,
        calculate_data_quality_num libm_pow2 METHOD_HIERARCHY method
          (PyInt a) (PyInt f) (PyInt c)
        = match float_of_int (a ^ 2 + f ^ 2), int_div c 100 with
          | Ok s, Ok q => Ok (score_from method (PrimFloat.sqrt s) q)
          | _, _ => Raise OverflowError
          end)
  /\ (forall a f c : Z,
        (0 <= a <= 100)%Z -> (0 <= f <= 100)%Z -> (0 <= c <= 100)%Z ->
        calculate_data_quality_num libm_pow2 METHOD_HIERARCHY method
          (PyInt a) (PyInt f) (PyInt c)
        = Ok (score_spec method (of_int a) (of_int f) (of_int c))).
Proof.
  split; [|split].
  - intros Hp a f c. now apply calculate_data_quality_num_floats.
  - intros a f c. rewrite calculate_data_quality_num_int.
    apply calculate_data_quality_int_formula.
  - intros a f c Ha Hf Hc. rewrite calculate_data_quality_num_int.
    destruct (calculate_data_quality_int_sliders method a f c Ha Hf Hc) as [E E'].
    now rewrite E, E'.
Qed.

(** Finite inputs on which the scorer fails: an [int] whose square is
    beyond the floats, and a float whose power overflows on every
    platform whose [pow] says so. *)
Lemma score_overflow_example :
  (forall libm_pow2 : float -> float,
      calculate_data_quality_num libm_pow2 METHOD_HIERARCHY "Activity-Based"
        (PyInt (10 ^ 200)) (PyInt 0) (PyInt 0) = Raise OverflowError)
  /\ (forall libm_pow2 : float -> float,
        is_infinity (libm_pow2 1e200%float) = true ->
        calculate_data_quality_num libm_pow2 METHOD_HIERARCHY "Activity-Based"
          (PyFloat 1e200) (PyFloat 0) (PyFloat 0) = Raise OverflowError).
Proof.
  split.
  - intros libm_pow2. rewrite calculate_data_quality_num_int. vm_compute. reflexivity.
  - intros libm_pow2 H. unfold calculate_data_quality_num.
    rewrite hierarchy_score_shipped. cbn [bind num_pow2].
    replace (float_pow2 libm_pow2 1e200) with (@Raise float OverflowError); [reflexivity|].
    rewrite float_pow2_of_nonneg by reflexivity.
    change (is_infinity 1e200) with false. change (1e200 =? 0)%float with false.
    change (1e200 =? 1)%float with false. cbv iota. now rewrite H.
Qed.

Lemma score_formula_example :
  pow2_nonneg correctly_rounded_pow2
  /\ calculate_data_quality_num correctly_rounded_pow2 METHOD_HIERARCHY "Activity-Based"
       (PyFloat 20) (PyFloat 15) (PyFloat 85) = Ok (80%float, 25%float).
Proof.
  split; [exact correctly_rounded_nonneg|].
  rewrite (proj1 (score_formula correctly_rounded_pow2 "Activity-Based")
             correctly_rounded_nonneg 20 15 85)%float.
  vm_compute. reflexivity.
Defined.

(** The scorer on the specification's examples, as the page calls it. *)
Example score_activity_based_sliders (libm_pow2 : float -> float) :
  calculate_data_quality_num libm_pow2 METHOD_HIERARCHY "Activity-Based"
    (PyInt 20) (PyInt 15) (PyInt 85) = Ok (80%float, 25%float).
Proof. rewrite calculate_data_quality_num_int. vm_compute. reflexivity. Qed.

(** ** Monotonicity of the quality score, as Python runs it *)

(** C7 (amended). For every fixed method the quality score does not
    decrease when [coverage_pct] grows, the uncertainty inputs fixed, and
    does not increase when one uncertainty input grows from a value that
    is not below zero, the other and the coverage fixed.  Each comparison
    is between two calls that return.

    On floats the first part holds whatever the platform's [pow]; the
    second and third ask of it the accuracy of a unit in the last place,
    and no monotonicity: where the squares of two bases in order come
    out of order they are below [2^-1022], and the score is the same.  A
    NaN coverage gives NaN scores, which compare as neither.  On [int]s,
    as the page passes them, the squares are exact and the three parts
    hold as they stand. *)
Theorem quality_score_monotone (method : string) :
  (forall libm_pow2 a f c1 c2 q1 u1 q2 u2,
      (c1 <=? c2)%float = true ->
      calculate_data_quality_num libm_pow2 METHOD_HIERARCHY method
        (PyFloat a) (PyFloat f) (PyFloat c1) = Ok (q1, u1) ->
      calculate_data_quality_num libm_pow2 METHOD_HIERARCHY method
        (PyFloat a) (PyFloat f) (PyFloat c2) = Ok (q2, u2) ->
      (q1 <=? q2)%float = true)
  /\ (forall libm_pow2, pow2_faithful libm_pow2 ->
      (forall a1 a2 f c q1 u1 q2 u2,
          (0 <=? a1)%float = true -> (a1 <=? a2)%float = true ->
          calculate_data_quality_num libm_pow2 METHOD_HIERARCHY method
            (PyFloat a1) (PyFloat f) (PyFloat c) = Ok (q1, u1) ->
          calculate_data_quality_num libm_pow2 METHOD_HIERARCHY method
            (PyFloat a2) (PyFloat f) (PyFloat c) = Ok (q2, u2) ->
          (q1 <? q2)%float = false
          /\ (is_nan c = false -> (q2 <=? q1)%float = true))
      /\ (forall a f1 f2 c q1 u1 q2 u2,
            (0 <=? f1)%float = true -> (f1 <=? f2)%float = true ->
            calculate_data_quality_num libm_pow2 METHOD_HIERARCHY method
              (PyFloat a) (PyFloat f1) (PyFloat c) = Ok (q1, u1) ->
            calculate_data_quality_num libm_pow2 METHOD_HIERARCHY method
              (PyFloat a) (PyFloat f2) (PyFloat c) = Ok (q2, u2) ->
            (q1 <? q2)%float = false
            /\ (is_nan c = false -> (q2 <=? q1)%float = true)))
  /\ (forall libm_pow2 (a f c1 c2 : Z) q1 u1 q2 u2,
        (c1 <= c2)%Z ->
        calculate_data_quality_num libm_pow2 METHOD_HIERARCHY method
          (PyInt a) (PyInt f) (PyInt c1) = Ok (q1, u1) ->
        calculate_data_quality_num libm_pow2 METHOD_HIERARCHY method
          (PyInt a) (PyInt f) (PyInt c2) = Ok (q2, u2) ->
        (q1 <=? q2)%float = true)
  /\ (forall libm_pow2 (a1 a2 f c : Z) q1 u1 q2 u2,
        (0 <= a1 <= a2)%Z ->
        calculate_data_quality_num libm_pow2 METHOD_HIERARCHY method
          (PyInt a1) (PyInt f) (PyInt c) = Ok (q1, u1) ->
        calculate_data_quality_num libm_pow2 METHOD_HIERARCHY method
          (PyInt a2) (PyInt f) (PyInt c) = Ok (q2, u2) ->
        (q2 <=? q1)%float = true)
  /\ (forall libm_pow2 (a f1 f2 c : Z) q1 u1 q2 u2,
        (0 <= f1 <= f2)%Z ->
        calculate_data_quality_num libm_pow2 METHOD_HIERARCHY method
          (PyInt a) (PyInt f1) (PyInt c) = Ok (q1, u1) ->
        calculate_data_quality_num libm_pow2 METHOD_HIERARCHY method
          (PyInt a) (PyInt f2) (PyInt c) = Ok (q2, u2) ->
        (q2 <=? q1)%float = true).
Proof.
  split; [|split; [|split; [|split]]].
  - intros libm_pow2 a f c1 c2 q1 u1 q2 u2 Hc E1 E2.
    apply calculate_data_quality_num_floats_Ok in E1 as (a2 & f2 & Ea & Ef & E1).
    apply calculate_data_quality_num_floats_Ok in E2 as (a2' & f2' & Ea' & Ef' & E2).
    rewrite Ea in Ea'. rewrite Ef in Ef'. injection Ea' as <-. injection Ef' as <-.
    replace q1 with (fst (q1, u1)) by reflexivity.
    replace q2 with (fst (q2, u2)) by reflexivity. rewrite E1, E2.
    apply score_from_within.
    + apply uncertainty_score_range, sqrt_nonneg_or_nan.
    + now apply coverage_score_within.
  - intros libm_pow2 Hl. assert (Hp := faithful_nonneg _ Hl). split.
    + intros a1 a2 f c q1 u1 q2 u2 H0 Ha E1 E2.
      apply calculate_data_quality_num_floats_Ok in E1 as (s1 & t & Ea1 & Ef & E1).
      apply calculate_data_quality_num_floats_Ok in E2 as (s2 & t' & Ea2 & Ef' & E2).
      rewrite Ef in Ef'. injection Ef' as <-.
      replace q1 with (fst (q1, u1)) by reflexivity.
      replace q2 with (fst (q2, u2)) by reflexivity. rewrite E1, E2.
      destruct (float_pow2_faithful_order _ _ _ _ _ Hl H0 Ha Ea1 Ea2) as (S1 & S2 & S).
      destruct (score_from_uncertainty_scores method (PrimFloat.sqrt (s1 + t))
                  (PrimFloat.sqrt (s2 + t)) (c / 100)) as [A B].
      { apply uncertainty_score_order; try assumption.
        now apply (float_pow2_nonneg libm_pow2 f). }
      split; [exact A|]. intros Hc. now apply B, div_100_not_nan.
    + intros a f1 f2 c q1 u1 q2 u2 H0 Hf E1 E2.
      apply calculate_data_quality_num_floats_Ok in E1 as (s & t1 & Ea & Ef1 & E1).
      apply calculate_data_quality_num_floats_Ok in E2 as (s' & t2 & Ea' & Ef2 & E2).
      rewrite Ea in Ea'. injection Ea' as <-.
      replace q1 with (fst (q1, u1)) by reflexivity.
      replace q2 with (fst (q2, u2)) by reflexivity. rewrite E1, E2.
      destruct (float_pow2_faithful_order _ _ _ _ _ Hl H0 Hf Ef1 Ef2) as (T1 & T2 & T).
      destruct (score_from_uncertainty_scores method (PrimFloat.sqrt (s + t1))
                  (PrimFloat.sqrt (s + t2)) (c / 100)) as [A B].
      { apply uncertainty_score_order_r; try assumption.
        now apply (float_pow2_nonneg libm_pow2 a). }
      split; [exact A|]. intros Hc. now apply B, div_100_not_nan.
  - intros libm_pow2 a f c1 c2 q1 u1 q2 u2 Hc E1 E2.
    apply calculate_data_quality_num_ints_Ok in E1 as (s & r1 & Es & Er1 & E1).
    apply calculate_data_quality_num_ints_Ok in E2 as (s' & r2 & Es' & Er2 & E2).
    rewrite Es in Es'. injection Es' as <-.
    replace q1 with (fst (q1, u1)) by reflexivity.
    replace q2 with (fst (q2, u2)) by reflexivity. rewrite E1, E2.
    apply score_from_within.
    + apply uncertainty_score_range, sqrt_nonneg_or_nan.
    + apply clamp_within. now apply (int_div_100_mono c1 c2).
  - intros libm_pow2 a1 a2 f c q1 u1 q2 u2 Ha E1 E2.
    apply calculate_data_quality_num_ints_Ok in E1 as (s1 & r & Es1 & Er & E1).
    apply calculate_data_quality_num_ints_Ok in E2 as (s2 & r' & Es2 & Er' & E2).
    rewrite Er in Er'. injection Er' as <-.
    replace q1 with (fst (q1, u1)) by reflexivity.
    replace q2 with (fst (q2, u2)) by reflexivity. rewrite E1, E2.
    apply (score_ints_uncertainty method _ _ _ _ _ (sum_squares_mono_l a1 a2 f Ha) Es1 Es2).
    now destruct (int_div_100_value c r Er).
  - intros libm_pow2 a f1 f2 c q1 u1 q2 u2 Hf E1 E2.
    apply calculate_data_quality_num_ints_Ok in E1 as (s1 & r & Es1 & Er & E1).
    apply calculate_data_quality_num_ints_Ok in E2 as (s2 & r' & Es2 & Er' & E2).
    rewrite Er in Er'. injection Er' as <-.
    replace q1 with (fst (q1, u1)) by reflexivity.
    replace q2 with (fst (q2, u2)) by reflexivity. rewrite E1, E2.
    apply (score_ints_uncertainty method _ _ _ _ _ (sum_squares_mono_r a f1 f2 Hf) Es1 Es2).
    now destruct (int_div_100_value c r Er).
Qed.

(** Raising a negative uncertainty input towards zero raises the score:
    on [int]s, and on floats wherever [pow(50.0, 2.0)] is 2500. *)
Lemma negative_uncertainty_raises_score :
  (forall libm_pow2 : float -> float,
      calculate_data_quality_num libm_pow2 METHOD_HIERARCHY "Activity-Based"
        (PyInt (-50)) (PyInt 0) (PyInt 0) = Ok (47%float, 50%float)
      /\ calculate_data_quality_num libm_pow2 METHOD_HIERARCHY "Activity-Based"
           (PyInt 0) (PyInt 0) (PyInt 0) = Ok (62%float, 0%float))
  /\ (forall libm_pow2 : float -> float,
        libm_pow2 50%float = 2500%float ->
        calculate_data_quality_num libm_pow2 METHOD_HIERARCHY "Activity-Based"
          (PyFloat (-50)) (PyFloat 0) (PyFloat 0) = Ok (47%float, 50%float)
        /\ calculate_data_quality_num libm_pow2 METHOD_HIERARCHY "Activity-Based"
             (PyFloat 0) (PyFloat 0) (PyFloat 0) = Ok (62%float, 0%float))
  /\ (-50 <= 0)%Z /\ (-50 <=? 0)%float = true /\ (47 <? 62)%float = true.
Proof.
  split; [|split; [|repeat split; try reflexivity; lia]].
  - intros libm_pow2. rewrite !calculate_data_quality_num_int.
    split; vm_compute; reflexivity.
  - intros libm_pow2 H. unfold calculate_data_quality_num.
    rewrite hierarchy_score_shipped. cbn [bind num_pow2].
    assert (E50 : float_pow2 libm_pow2 (-50) = Ok 2500%float).
    { assert (S := float_pow2_shape libm_pow2 (-50)).
      remember (Prim2SF (-50)) as sf eqn:Esf in S. vm_compute in Esf. subst sf.
      destruct S as (iv & Hiv & ->).
      assert (iv = 50%float) as -> by (apply Prim2SF_inj; rewrite Hiv; reflexivity).
      rewrite H. reflexivity. }
    assert (E0 : float_pow2 libm_pow2 0 = Ok 0%float) by reflexivity.
    rewrite E50, E0. split; vm_compute; reflexivity.
Qed.

Lemma quality_score_monotone_example :
  pow2_faithful correctly_rounded_pow2
  /\ (calculate_data_quality_num correctly_rounded_pow2 METHOD_HIERARCHY "Activity-Based"
        (PyFloat 20) (PyFloat 15) (PyFloat 85) = Ok (80%float, 25%float)
      /\ calculate_data_quality_num correctly_rounded_pow2 METHOD_HIERARCHY "Activity-Based"
           (PyFloat 20) (PyFloat 15) (PyFloat 95) = Ok (83%float, 25%float)
      /\ calculate_data_quality_num correctly_rounded_pow2 METHOD_HIERARCHY "Activity-Based"
           (PyFloat 40) (PyFloat 15) (PyFloat 85) = Ok (74.7%float, 42.72%float))
  /\ (calculate_data_quality_num correctly_rounded_pow2 METHOD_HIERARCHY "Activity-Based"
        (PyInt 20) (PyInt 15) (PyInt 85) = Ok (80%float, 25%float)
      /\ calculate_data_quality_num correctly_rounded_pow2 METHOD_HIERARCHY "Activity-Based"
           (PyInt 20) (PyInt 15) (PyInt 95) = Ok (83%float, 25%float)
      /\ calculate_data_quality_num correctly_rounded_pow2 METHOD_HIERARCHY "Activity-Based"
           (PyInt 40) (PyInt 15) (PyInt 85) = Ok (74.7%float, 42.72%float))
  /\ (80 <=? 83)%float = true
  /\ (74.7 <=? 80)%float = true.
Proof.
  pose (M := quality_score_monotone "Activity-Based").
  pose (cr := correctly_rounded_pow2).
  assert (E1 : calculate_data_quality_num cr METHOD_HIERARCHY "Activity-Based"
                 (PyFloat 20) (PyFloat 15) (PyFloat 85) = Ok (80%float, 25%float))
    by (vm_compute; reflexivity).
  assert (E2 : calculate_data_quality_num cr METHOD_HIERARCHY "Activity-Based"
                 (PyFloat 20) (PyFloat 15) (PyFloat 95) = Ok (83%float, 25%float))
    by (vm_compute; reflexivity).
  assert (E3 : calculate_data_quality_num cr METHOD_HIERARCHY "Activity-Based"
                 (PyFloat 40) (PyFloat 15) (PyFloat 85) = Ok (74.7%float, 42.72%float))
    by (vm_compute; reflexivity).
  assert (I1 : calculate_data_quality_num cr METHOD_HIERARCHY "Activity-Based"
                 (PyInt 20) (PyInt 15) (PyInt 85) = Ok (80%float, 25%float))
    by (vm_compute; reflexivity).
  assert (I2 : calculate_data_quality_num cr METHOD_HIERARCHY "Activity-Based"
                 (PyInt 20) (PyInt 15) (PyInt 95) = Ok (83%float, 25%float))
    by (vm_compute; reflexivity).
  assert (I3 : calculate_data_quality_num cr METHOD_HIERARCHY "Activity-Based"
                 (PyInt 40) (PyInt 15) (PyInt 85) = Ok (74.7%float, 42.72%float))
    by (vm_compute; reflexivity).
  split; [exact correctly_rounded_faithful|].
  split; [exact (conj E1 (conj E2 E3))|].
  split; [exact (conj I1 (conj I2 I3))|].
  split.
  - exact (proj1 (proj2 (proj2 M)) cr 20%Z 15%Z 85%Z 95%Z
             80%float 25%float 83%float 25%float ltac:(lia) I1 I2).
  - exact (proj2 (proj1 (proj1 (proj2 M) cr correctly_rounded_faithful)
                    20 40 15 85 80 25 74.7 42.72 eq_refl eq_refl E1 E3) eq_refl)%float.
Defined.

(** ** The combined uncertainty the scorer reports, as Python runs it *)

(** X11. The combined uncertainty the scorer reports is not negative and
    does not decrease when the two uncertainty inputs grow from values
    that are not below zero, whatever the methods and coverages of the
    two calls: on [int]s as it stands, on floats when the platform's
    [pow] is accurate to a unit in the last place. *)
Theorem combined_uncertainty_reported :
  (forall libm_pow2 method1 method2 (a1 a2 f1 f2 c1 c2 : Z) q1 u1 q2 u2,
      (0 <= a1 <= a2)%Z -> (0 <= f1 <= f2)%Z ->
      calculate_data_quality_num libm_pow2 METHOD_HIERARCHY method1
        (PyInt a1) (PyInt f1) (PyInt c1) = Ok (q1, u1) ->
      calculate_data_quality_num libm_pow2 METHOD_HIERARCHY method2
        (PyInt a2) (PyInt f2) (PyInt c2) = Ok (q2, u2) ->
      (0 <=? u1)%float = true /\ (u1 <=? u2)%float = true)
  /\ (forall libm_pow2, pow2_faithful libm_pow2 ->
      forall method1 method2 (a1 a2 f1 f2 c1 c2 : float) q1 u1 q2 u2,
        (0 <=? a1)%float = true -> (a1 <=? a2)%float = true ->
        (0 <=? f1)%float = true -> (f1 <=? f2)%float = true ->
        calculate_data_quality_num libm_pow2 METHOD_HIERARCHY method1
          (PyFloat a1) (PyFloat f1) (PyFloat c1) = Ok (q1, u1) ->
        calculate_data_quality_num libm_pow2 METHOD_HIERARCHY method2
          (PyFloat a2) (PyFloat f2) (PyFloat c2) = Ok (q2, u2) ->
        (0 <=? u1)%float = true /\ (u1 <=? u2)%float = true).
Proof.
  split.
  - intros libm_pow2 method1 method2 a1 a2 f1 f2 c1 c2 q1 u1 q2 u2 Ha Hf E1 E2.
    apply calculate_data_quality_num_ints_Ok in E1 as (s1 & r1 & Es1 & _ & E1).
    apply calculate_data_quality_num_ints_Ok in E2 as (s2 & r2 & Es2 & _ & E2).
    injection E1 as _ ->. injection E2 as _ ->.
    destruct (float_of_int_mono _ _ _ _ (sum_squares_mono a1 a2 f1 f2 Ha Hf) Es1 Es2)
      as [H0 H].
    destruct (sqrt_mono_nonneg s1 s2 H0 H) as [R0 R].
    apply round_mono_nonneg; try assumption. lia.
  - intros libm_pow2 Hl method1 method2 a1 a2 f1 f2 c1 c2 q1 u1 q2 u2
      Ha0 Ha Hf0 Hf E1 E2.
    apply calculate_data_quality_num_floats_Ok in E1 as (s1 & t1 & Ea1 & Ef1 & E1).
    apply calculate_data_quality_num_floats_Ok in E2 as (s2 & t2 & Ea2 & Ef2 & E2).
    injection E1 as _ ->. injection E2 as _ ->.
    destruct (float_pow2_faithful_order _ _ _ _ _ Hl Ha0 Ha Ea1 Ea2) as (S1 & S2 & S).
    destruct (float_pow2_faithful_order _ _ _ _ _ Hl Hf0 Hf Ef1 Ef2) as (T1 & T2 & T).
    now apply reported_order.
Qed.

Lemma combined_uncertainty_reported_example :
  calculate_data_quality_num correctly_rounded_pow2 METHOD_HIERARCHY
    "Activity-Based" (PyInt 20) (PyInt 15) (PyInt 85) = Ok (80%float, 25%float)
  /\ calculate_data_quality_num correctly_rounded_pow2 METHOD_HIERARCHY
       "Spend-Based" (PyInt 40) (PyInt 15) (PyInt 10) = Ok (36.2%float, 42.72%float)
  /\ (0 <=? 25)%float = true /\ (25 <=? 42.72)%float = true.
Proof.
  assert (E1 : calculate_data_quality_num correctly_rounded_pow2 METHOD_HIERARCHY
                 "Activity-Based" (PyInt 20) (PyInt 15) (PyInt 85)
               = Ok (80%float, 25%float)) by (vm_compute; reflexivity).
  assert (E2 : calculate_data_quality_num correctly_rounded_pow2 METHOD_HIERARCHY
                 "Spend-Based" (PyInt 40) (PyInt 15) (PyInt 10)
               = Ok (36.2%float, 42.72%float)) by (vm_compute; reflexivity).
  split; [exact E1|]. split; [exact E2|].
  exact (proj1 combined_uncertainty_reported correctly_rounded_pow2
           "Activity-Based" "Spend-Based" 20%Z 40%Z 15%Z 15%Z 85%Z 10%Z
           80%float 25%float 36.2%float 42.72%float ltac:(lia) ltac:(lia) E1 E2).
Defined.

(** ** Well-formed results on finite fields *)

(** A product of an intermediate that is not below zero and a finite
    factor that is not: NaN exactly when the intermediate is [+inf] and
    the factor zero, and not below zero otherwise. *)
Lemma mul_overflow_zero (p z : float) :
  (0 <=? p)%float = true -> finite_nonneg z ->
  if is_infinity p && (z =? 0)%float
  then is_nan (p * z) = true
  else (0 <=? p * z)%float = true.
Proof.
  intros Hp Hz. destruct (nonneg_split p Hp) as [Hf | ->].
  - rewrite (finite_nonneg_not_infinity p Hf). cbn [andb]. now apply (mul_value p z).
  - change (is_infinity infinity) with true. cbn [andb]. rewrite eqb_0_spec.
    assert (Hm := mul_spec infinity z). rewrite Prim2SF_infinity in Hm.
    unfold finite_nonneg in Hz.
    destruct (Prim2SF z) as [s|[]| |[] m e] eqn:E; try contradiction.
    + apply is_nan_spec. rewrite Hm. reflexivity.
    + assert (infinity * z = infinity)%float as ->; [|reflexivity].
      apply Prim2SF_inj. rewrite Hm. reflexivity.
Qed.

Lemma field_finite_nonneg (inputs : Inputs) (k : string) (v : float) :
  (forall k v, fields inputs !! k = Some v ->
               (0 <=? v)%float = true /\ is_finite v = true) ->
  fields inputs !! k = Some v -> finite_nonneg v.
Proof. intros H E. destruct (H k v E). now apply finite_nonneg_of. Qed.

Lemma default_finite_nonneg (inputs : Inputs) (k : string) :
  (forall k v, fields inputs !! k = Some v ->
               (0 <=? v)%float = true /\ is_finite v = true) ->
  finite_nonneg (default 0%float (fields inputs !! k)).
Proof.
  intros H. destruct (fields inputs !! k) as [v|] eqn:E; [|exact I].
  now apply (field_finite_nonneg inputs k).
Qed.

Lemma field_value_Some (inputs : Inputs) (k : string) (v : float) :
  fields inputs !! k = Some v -> field_value inputs k = v.
Proof. unfold field_value. now intros ->. Qed.

(** C6 (amended). For every label and every record whose numeric fields
    are all finite and not below zero, that holds the fields its family's
    formula reads, and whose method label, when supplied, is one of the
    five hierarchy labels, the call returns a pair whose method is one of
    the five labels or the PCAF label, and whose emissions are at least
    zero ([+inf] when the formula overflows), except in one case: when
    an intermediate of the formula (the product of the first two fields
    of a three-factor formula, the attribution ratio of Investments) has
    overflowed to [+inf] and the factor it meets is zero, and then the
    emissions are NaN. *)
Theorem emissions_well_formed (category_name : string) (inputs : Inputs) :
  (forall k v, fields inputs !! k = Some v ->
               (0 <=? v)%float = true /\ is_finite v = true) ->
  (forall k, In k (required_fields (family_of category_name)) ->
             is_Some (fields inputs !! k)) ->
  (forall m, method inputs = Some m -> In m hierarchy_labels) ->
  exists e m,
    calculate_emissions category_name inputs = Ok (e, m)
    /\ In m result_labels
    /\ if overflow_meets_zero (family_of category_name) inputs
       then is_nan e = true
       else (0 <=? e)%float = true.
Proof.
  intros Hnn Hreq Hm. rewrite calculate_emissions_formula.
  unfold overflow_meets_zero, intermediate_products.
  destruct (family_of category_name); simpl in Hreq; simpl formula.
  all: repeat match goal with
         | |- context [getitem _ ?k] =>
             let v := fresh "v" in let E := fresh "E" in let F := fresh "F" in
             destruct (Hreq k) as [v E]; [tauto|];
             rewrite (getitem_Some _ _ _ E); cbn [bind];
             rewrite ?(field_value_Some _ _ _ E);
             assert (F := field_finite_nonneg _ _ _ Hnn E)
         end.
  all: eexists; eexists; split; [reflexivity|]; split.
  all: try (vm_compute; tauto).
  all: cbn [existsb]; rewrite ?orb_false_r.
  - apply add_nonneg_leb; now apply mul_value.
  - apply mul_overflow_zero; [now apply mul_value | assumption].
  - rewrite mul_comm. unfold truthy.
    destruct (v1 =? 0)%float eqn:Hz; cbn [negb].
    + apply mul_overflow_zero; [reflexivity | assumption].
    + apply mul_overflow_zero; [|assumption].
      apply (div_value v0 v1); [assumption | now apply eqb_0_false_pos].
  - apply mul_overflow_zero; [now apply mul_value | assumption].
  - destruct (method inputs) as [m|]; simpl; [apply In_hierarchy_result; auto|].
    vm_compute; tauto.
  - apply (mul_value _ _ (default_finite_nonneg inputs "quantity" Hnn)
             (default_finite_nonneg inputs "generic_factor" Hnn)).
Qed.

Lemma emissions_well_formed_example :
  (exists e m,
      calculate_emissions "Business Travel" business_travel_record = Ok (e, m)
      /\ In m result_labels
      /\ (0 <=? e)%float = true)
  /\ (exists e m,
        calculate_emissions "Upstream Transportation & Distribution"
          transport_overflow_record = Ok (e, m)
        /\ In m result_labels
        /\ is_nan e = true).
Proof.
  split.
  - apply (emissions_well_formed "Business Travel" business_travel_record).
    + intros k v H. unfold business_travel_record, fields in H.
      repeat (apply lookup_insert_Some in H as [[_ <-]|[_ H]]; [split; reflexivity|]).
      now rewrite lookup_empty in H.
    + intros k H. simpl in H.
      repeat (destruct H as [<-|H]; [eexists; vm_compute; reflexivity|]).
      destruct H.
    + discriminate.
  - apply (emissions_well_formed "Upstream Transportation & Distribution"
             transport_overflow_record).
    + intros k v H. unfold transport_overflow_record, fields in H.
      repeat (apply lookup_insert_Some in H as [[_ <-]|[_ H]]; [split; reflexivity|]).
      now rewrite lookup_empty in H.
    + intros k H. simpl in H.
      repeat (destruct H as [<-|H]; [eexists; vm_compute; reflexivity|]).
      destruct H.
    + discriminate.
Defined.

(** ** Calls in a session *)



(** What a call of the engine yields depends on no world, and on no
    [pow]. *)
Lemma step_engine (libm1 libm2 : float -> float) (category_name : string)
  (inputs : Inputs) (w w' : World) :
  fst (step libm1 (Engine_call category_name inputs) w)
  = fst (step libm2 (Engine_call category_name inputs) w').
Proof. reflexivity. Qed.



